(** * Aegis One: the heuristic threat-scoring core

    A shallow embedding of the scoring code of the extension:
    - [levenshtein] and [analyzeInboxLocally] (background.js),
    - [analyzeUrlDeception] and [quickScanLinks] (content.js),
    - [parseAIResponse] (prompt-templates.js),
    - the SCAN_INBOX_THREATS message handler (background.js).

    JavaScript strings are sequences of UTF-16 code units; they are modelled
    as lists of [N].  A computation that may throw is a [Completion].  The
    engine's built-ins whose tables are too large to embed in full
    (case conversion, the URL parser, the JSON parser) are the fields of the
    class [Host]: every general theorem holds for any host, and the instance
    [engine] gives executable models of them for the worked scenarios. *)

From Stdlib Require Import String Ascii.
From Stdlib Require Import NArith ZArith Lia Bool Arith List Sorted
  Permutation.
Import ListNotations.

Set Implicit Arguments.

(* ===================================================================== *)
(** * Part I. Definitions                                                 *)
(* ===================================================================== *)

(** ** Strings of code units *)

Module JsString.

Definition jsstring : Type := list N.

(** An ASCII literal of the source, as code units. *)
Definition lit (s : string) : jsstring :=
  map N_of_ascii (list_ascii_of_string s).

Fixpoint eqb (s t : jsstring) : bool :=
  match s, t with
  | [], [] => true
  | c :: s', d :: t' => N.eqb c d && eqb s' t'
  | _, _ => false
  end.

(** [!s] for a string [s]: only the empty string is falsy. *)
Definition isEmpty (s : jsstring) : bool :=
  match s with [] => true | _ :: _ => false end.

Fixpoint startsWith (p s : jsstring) : bool :=
  match p, s with
  | [], _ => true
  | c :: p', d :: s' => N.eqb c d && startsWith p' s'
  | _ :: _, [] => false
  end.

(** [s.includes(p)] *)
Fixpoint includes (p s : jsstring) : bool :=
  startsWith p s ||
  match s with
  | [] => false
  | _ :: s' => includes p s'
  end.

(** [s.endsWith(p)] *)
Definition endsWith (p s : jsstring) : bool :=
  startsWith (rev p) (rev s).

(** [arr.includes(x)] for an array of strings. *)
Definition arrayIncludes (x : jsstring) (arr : list jsstring) : bool :=
  existsb (eqb x) arr.

(** [arr.join(sep)] *)
Fixpoint join (sep : jsstring) (arr : list jsstring) : jsstring :=
  match arr with
  | [] => []
  | [x] => x
  | x :: rest => x ++ sep ++ join sep rest
  end.

Definition inRange (lo hi c : N) : bool := N.leb lo c && N.leb c hi.

Definition isDigit (c : N) : bool := inRange 48 57 c.
Definition isLowerAZ (c : N) : bool := inRange 97 122 c.
Definition isUpperAZ (c : N) : bool := inRange 65 90 c.

(** The class [[a-z0-9]] of the tokenizer. *)
Definition isLowerAlnum (c : N) : bool := isLowerAZ c || isDigit c.

(** The regular-expression class [\w]. *)
Definition isWordChar (c : N) : bool :=
  isLowerAZ c || isUpperAZ c || isDigit c || N.eqb c 95.

(** LineTerminator: LF, CR, LS, PS. *)
Definition isLineTerminator (c : N) : bool :=
  N.eqb c 10 || N.eqb c 13 || N.eqb c 8232 || N.eqb c 8233.

(** The class [\s], which is also what [trim] strips: WhiteSpace and
    LineTerminator of ECMA-262. *)
Definition isWhiteSpace (c : N) : bool :=
  inRange 9 13 c || N.eqb c 32 || N.eqb c 160 || N.eqb c 5760 ||
  inRange 8192 8202 c || N.eqb c 8232 || N.eqb c 8233 || N.eqb c 8239 ||
  N.eqb c 8287 || N.eqb c 12288 || N.eqb c 65279.

Fixpoint trimStart (s : jsstring) : jsstring :=
  match s with
  | c :: s' => if isWhiteSpace c then trimStart s' else s
  | [] => []
  end.

Definition trim (s : jsstring) : jsstring :=
  rev (trimStart (rev (trimStart s))).

(** Decimal rendering of a non-negative integer, as [String(n)] gives it. *)
Fixpoint digitsOfUint (d : Decimal.uint) : jsstring :=
  match d with
  | Decimal.Nil => []
  | Decimal.D0 r => 48 :: digitsOfUint r
  | Decimal.D1 r => 49 :: digitsOfUint r
  | Decimal.D2 r => 50 :: digitsOfUint r
  | Decimal.D3 r => 51 :: digitsOfUint r
  | Decimal.D4 r => 52 :: digitsOfUint r
  | Decimal.D5 r => 53 :: digitsOfUint r
  | Decimal.D6 r => 54 :: digitsOfUint r
  | Decimal.D7 r => 55 :: digitsOfUint r
  | Decimal.D8 r => 56 :: digitsOfUint r
  | Decimal.D9 r => 57 :: digitsOfUint r
  end%N.

Definition ofNat (n : nat) : jsstring := digitsOfUint (Nat.to_uint n).

(** ASCII lower-casing of one code unit. *)
Definition asciiLower (c : N) : N :=
  if isUpperAZ c then (c + 32)%N else c.

End JsString.

Import JsString.

(** ** Completions: a value, or a thrown exception *)

Inductive JsError : Type :=
| TypeError
| SyntaxError
| Rejected (reason : jsstring).

Inductive Completion (A : Type) : Type :=
| Normal (a : A)
| Throw (e : JsError).

Arguments Normal {A} a.
Arguments Throw {A} e.

(** [try { c } catch (e) { h e }] *)
Definition tryCatch {A} (c : Completion A) (h : JsError -> Completion A)
  : Completion A :=
  match c with
  | Normal a => Normal a
  | Throw e => h e
  end.

Definition bind {A B} (c : Completion A) (k : A -> Completion B)
  : Completion B :=
  match c with
  | Normal a => k a
  | Throw e => Throw e
  end.

Declare Scope completion_scope.
Delimit Scope completion_scope with completion.
Notation "x <- c ;; k" := (bind c (fun x => k))
  (at level 61, c at next level, right associativity) : completion_scope.

(** ** Values that [JSON.parse] produces *)

(** A number is kept as the exact decimal it was written as,
    [(-1)^neg * mant * 10^exp10]; the double the engine rounds it to is a
    function of that. *)
Record Decimal10 : Type := mkDec { neg : bool; mant : N; exp10 : Z }.

#[warnings="-register-all"]
Inductive jsval : Type :=
| JUndefined
| JNull
| JBool (b : bool)
| JNum (d : Decimal10)
| JStr (s : jsstring)
| JArr (items : list jsval)
| JObj (props : list (jsstring * jsval)).

(** ** The engine's built-ins *)

Class Host : Type := {
  (** [String.prototype.toLowerCase] *)
  toLowerCase : jsstring -> jsstring;
  (** [new URL(s).hostname]; the constructor throws on an invalid URL. *)
  urlHostname : jsstring -> Completion jsstring;
  (** [JSON.parse]; throws a SyntaxError on malformed text. *)
  JSON_parse : jsstring -> Completion jsval
}.

(** ** background.js: [levenshtein] *)

Section Levenshtein.
Context {host : Host}.

(** [Math.min(x, y, z)] *)
Definition min3 (x y z : nat) : nat := Nat.min x (Nat.min y z).

(** The inner loop over [j] for one row [i]: [bc] is [b.charAt(i - 1)],
    [a] the characters of [a] from [j - 1] on, [prev] the cells
    [matrix[i-1][j-1 ..]] and [left] the cell [matrix[i][j-1]].  The result
    is [matrix[i][j ..]]. *)
Fixpoint fillRow (bc : N) (a : jsstring) (prev : list nat) (left : nat)
  : list nat :=
  match a, prev with
  | ac :: a', diag :: ((up :: _) as prev') =>
      let cell :=
        if N.eqb bc ac then diag
        else min3 (diag + 1) (left + 1) (up + 1) in
      cell :: fillRow bc a' prev' cell
  | _, _ => []
  end.

(** Row [i]: [matrix[i] = [i]] followed by the inner loop. *)
Definition nextRow (i : nat) (bc : N) (a : jsstring) (prev : list nat)
  : list nat :=
  i :: fillRow bc a prev i.

(** The outer loop over [i], from row [i - 1] = [prev]; the result is the
    last row, [matrix[b.length]]. *)
Fixpoint fillMatrix (a b : jsstring) (prev : list nat) (i : nat)
  : list nat :=
  match b with
  | [] => prev
  | bc :: b' => fillMatrix a b' (nextRow i bc a prev) (S i)
  end.

Definition levenshtein (a b : jsstring) : nat :=
  if isEmpty a || isEmpty b then
    if negb (isEmpty a) || negb (isEmpty b)
    then Nat.max (length a) (length b)
    else 0
  else
    let a := toLowerCase a in
    let b := toLowerCase b in
    (* matrix[0][j] = j *)
    let row0 := seq 0 (S (length a)) in
    last (fillMatrix a b row0 1) 0.

End Levenshtein.

(** ** The classic edit distance, as the specification words it *)

(** [edit s t n]: [s] is transformed into [t] by a left-to-right script of
    [n] single-character insertions, deletions and substitutions. *)
Inductive edit : jsstring -> jsstring -> nat -> Prop :=
| edit_nil : edit [] [] 0
| edit_keep c s t n : edit s t n -> edit (c :: s) (c :: t) n
| edit_subst c d s t n : edit s t n -> edit (c :: s) (d :: t) (S n)
| edit_delete c s t n : edit s t n -> edit (c :: s) t (S n)
| edit_insert d s t n : edit s t n -> edit s (d :: t) (S n).

(** [d] is the minimum number of edits transforming [s] into [t]. *)
Definition editDistance (s t : jsstring) (d : nat) : Prop :=
  edit s t d /\ forall n, edit s t n -> d <= n.

(** The recurrence of the edit distance, on the first characters. *)
Fixpoint lev (s t : jsstring) : nat :=
  match s with
  | [] => length t
  | c :: s' =>
      (fix levRow (t : jsstring) : nat :=
         match t with
         | [] => length s
         | d :: t' =>
             min3 (lev s' t' + (if N.eqb c d then 0 else 1))
                  (S (lev s' t))
                  (S (levRow t'))
         end) t
  end.

(** ** Verdict levels *)

Inductive Level : Type := safe | warning | danger | neutral.

Definition Level_eqb (x y : Level) : bool :=
  match x, y with
  | safe, safe | warning, warning | danger, danger | neutral, neutral => true
  | _, _ => false
  end.

(** ** background.js: [analyzeInboxLocally] *)

Record ThreadRecord : Type := mkThread {
  sender : jsstring;
  subject : jsstring;
  snippet : jsstring;
  timestamp : option jsstring;
  rawTimestamp : option jsstring;
  unread : bool;
  starred : bool
}.

Record ThreadFinding : Type := mkThreadFinding {
  tf_index : nat;
  tf_sender : jsstring;
  tf_subject : jsstring;
  tf_reason : jsstring;
  tf_indicators : list jsstring
}.

Record InboxVerdict : Type := mkInboxVerdict {
  iv_level : Level;
  iv_detail : jsstring;
  iv_findings : list ThreadFinding
}.

Definition knownBrands : list jsstring :=
  map lit ["microsoft"; "google"; "amazon"; "paypal"; "apple"; "facebook";
           "bank"; "chase"; "bankofamerica"; "stripe"; "github"]%string.

Definition suspiciousTLDs : list jsstring :=
  map lit [".tk"; ".ru"; ".ml"; ".ga"; ".cf"; ".biz"; ".info"]%string.

Definition tag_suspicious_tld : jsstring := lit "suspicious-tld".
Definition tag_typosquatting : jsstring := lit "typosquatting".
Definition tag_similar_to (brand : jsstring) : jsstring :=
  lit "similar-to-" ++ brand.

(** The longest prefix of characters satisfying [p]. *)
Fixpoint takeWhile (p : N -> bool) (s : jsstring) : jsstring :=
  match s with
  | c :: s' => if p c then c :: takeWhile p s' else []
  | [] => []
  end.

(** [sender.match(/@([^\s>]+)/)], the capture group of the leftmost
    match. *)
Fixpoint matchAtDomain (s : jsstring) : option jsstring :=
  match s with
  | [] => None
  | c :: s' =>
      if N.eqb c 64 then
        match takeWhile (fun d => negb (isWhiteSpace d || N.eqb d 62)) s' with
        | [] => matchAtDomain s'
        | m => Some m
        end
      else matchAtDomain s'
  end.

(** [str.split(/[^a-z0-9]+/)]: the pieces between the separator runs, the
    empty pieces at either end included.  [cur] is the piece being read,
    reversed; [inSep] says that the previous character was a separator. *)
Fixpoint splitRuns (s cur : jsstring) (inSep : bool) : list jsstring :=
  match s with
  | [] => [rev cur]
  | c :: s' =>
      if isLowerAlnum c then splitRuns s' (c :: cur) false
      else if inSep then splitRuns s' cur true
      else rev cur :: splitRuns s' [] true
  end.

(** [.filter(Boolean)] on an array of strings. *)
Definition filterBoolean (arr : list jsstring) : list jsstring :=
  filter (fun t => negb (isEmpty t)) arr.

(** [Math.max(1, Math.floor(brand.length * 0.2))].  For the lengths that
    occur (below 2^50) the double product [n * 0.2] has the same integer
    part as [n / 5]: 0.2 rounds to a double just above one fifth, so the
    product never falls below an exact multiple. *)
Definition typoThreshold (brand : jsstring) : nat :=
  Nat.max 1 (length brand / 5).

Section BrandSpoof.
Context {host : Host}.

(** Lines 146-151: the domain of the sender address, or the empty string. *)
Definition senderDomain (senderLower : jsstring) : jsstring :=
  match matchAtDomain senderLower with
  | Some m => toLowerCase m
  | None => []
  end.

(** Heuristic 1, lines 153-167. *)
Definition tldFindings (i : nat) (t : ThreadRecord) (domain : jsstring)
  : list ThreadFinding :=
  if isEmpty domain then []
  else
    match find (fun tld => endsWith tld domain) suspiciousTLDs with
    | Some tld =>
        [ {| tf_index := i;
             tf_sender := sender t;
             tf_subject := subject t;
             tf_reason :=
               lit "Sender domain uses suspicious TLD (" ++ tld ++ lit ")";
             tf_indicators := [tag_suspicious_tld] |} ]
    | None => []
    end.

(** The body of the two nested loops of heuristic 2 for one
    (token, brand) pair. *)
Definition typoFinding (i : nat) (t : ThreadRecord) (token brand : jsstring)
  : list ThreadFinding :=
  if (length brand <? 4) || (length token <? 4) then []
  else
    let dist := levenshtein (filter isLowerAlnum token) brand in
    if (0 <? dist) && (dist <=? typoThreshold brand) then
      [ {| tf_index := i;
           tf_sender := sender t;
           tf_subject := subject t;
           tf_reason :=
             lit "Possible typosquatting: " ++ [34%N] ++ token ++ [34%N]
             ++ [32%N; 8776%N; 32%N] ++ [34%N] ++ brand ++ [34%N]
             ++ lit " (distance " ++ ofNat dist ++ lit ")";
           tf_indicators := [tag_typosquatting; tag_similar_to brand] |} ]
    else [].

(** Heuristic 2, lines 169-187. *)
Definition typoFindings (i : nat) (t : ThreadRecord) (tokens : list jsstring)
  : list ThreadFinding :=
  flat_map (fun token =>
    flat_map (fun brand => typoFinding i t token brand) knownBrands) tokens.

(** One iteration of the loop over [threads]: what it pushes. *)
Definition threadFindings (i : nat) (t : ThreadRecord) : list ThreadFinding :=
  let senderL := toLowerCase (sender t) in
  let subjectL := toLowerCase (subject t) in
  let domain := senderDomain senderL in
  let tokens :=
    filterBoolean (splitRuns (senderL ++ lit " " ++ subjectL) [] false) in
  tldFindings i t domain ++ typoFindings i t tokens.

(** The loop [for (let i = 0; i < threads.length; i++)], from index [i]. *)
Fixpoint inboxLoop (i : nat) (threads : list ThreadRecord)
  : list ThreadFinding :=
  match threads with
  | [] => []
  | t :: rest => threadFindings i t ++ inboxLoop (S i) rest
  end.

(** The predicate of [findings.some(...)] on line 196. *)
Definition isStrongThreadFinding (f : ThreadFinding) : bool :=
  arrayIncludes tag_suspicious_tld (tf_indicators f)
  || arrayIncludes tag_typosquatting (tf_indicators f).

Definition analyzeInboxLocally (threads : list ThreadRecord) : InboxVerdict :=
  let findings := inboxLoop 0 threads in
  if Nat.eqb (length findings) 0 then
    {| iv_level := safe;
       iv_detail := lit "Checks out! " ++ [9989%N];
       iv_findings := [] |}
  else
    let strong := existsb isStrongThreadFinding findings in
    let level := if strong then danger else warning in
    let detail :=
      if Level_eqb level danger
      then [55357%N; 57000%N; 32%N] ++ ofNat (length findings)
           ++ lit " suspicious item(s) detected"
      else [9888%N; 65039%N; 32%N] ++ ofNat (length findings)
           ++ lit " potentially suspicious item(s) detected" in
    {| iv_level := level; iv_detail := detail; iv_findings := findings |}.

End BrandSpoof.

(** ** content.js: [analyzeUrlDeception] and [quickScanLinks] *)

Record LinkRecord : Type := mkLink {
  href : jsstring;
  text : jsstring
}.

Record LinkFinding : Type := mkLinkFinding {
  lf_index : nat;
  lf_href : jsstring;
  lf_text : jsstring;
  lf_reason : jsstring;
  lf_indicators : list jsstring
}.

Record DeceptionResult : Type := mkDeception {
  suspiciousLinks : list LinkFinding;
  threatLevel : Level;
  analyzed : nat
}.

Definition shorteners : list jsstring :=
  map lit ["bit.ly"; "tinyurl.com"; "goo.gl"; "ow.ly"; "t.co"; "short.url";
           "is.gd"; "buff.ly"; "tiny.one"]%string.

Definition knownBad : list jsstring :=
  map lit ["malware.example"; "badware.test"; "phishingsite.test"]%string.

Definition authPatterns : list jsstring :=
  map lit ["login-"; "secure-"; "verify-"; "account-"; "signin-"]%string.

Definition ind_mismatch : jsstring :=
  lit "text-URL mismatch (visible plaintext differs from href)".
Definition ind_shortener : jsstring := lit "URL shortener detected".
Definition ind_malicious : jsstring := lit "known malicious domain".
Definition ind_auth : jsstring :=
  lit "suspicious auth-related subdomain pattern".
Definition ind_http : jsstring := lit "uses http (not https)".

(** *** The pattern [urlLikeRegex]

    [/\bhttps?:\/\/[^\s/$.?#].[^\s]*\b|(?:www\.)[^\s/$.?#].[^\s]*\b/gi].
    The code reads only the first element of the array of matches. *)

(** The tail [[^\s]*\b]: the longest run of non-space characters that ends
    at a word boundary; [before] is the character just before [s]. *)
Fixpoint greedyToBoundary (before : N) (s : jsstring) : option jsstring :=
  match s with
  | c :: s' =>
      if isWhiteSpace c then
        if isWordChar before then Some [] else None
      else
        match greedyToBoundary c s' with
        | Some m => Some (c :: m)
        | None =>
            if xorb (isWordChar before) (isWordChar c) then Some [] else None
        end
  | [] => if isWordChar before then Some [] else None
  end.

(** The class [[^\s/$.?#]]. *)
Definition isHostStart (c : N) : bool :=
  negb (isWhiteSpace c || N.eqb c 47 || N.eqb c 36 || N.eqb c 46
        || N.eqb c 63 || N.eqb c 35).

(** [[^\s/$.?#].[^\s]*\b] *)
Definition urlBody (s : jsstring) : option jsstring :=
  match s with
  | c1 :: d :: s' =>
      if isHostStart c1 && negb (isLineTerminator d) then
        match greedyToBoundary d s' with
        | Some m => Some (c1 :: d :: m)
        | None => None
        end
      else None
  | _ => None
  end.

(** A literal under the [i] flag (without [u], only ASCII letters fold):
    the matched characters and the rest. *)
Fixpoint stripPrefixCI (p s : jsstring) : option (jsstring * jsstring) :=
  match p, s with
  | [], _ => Some ([], s)
  | pc :: p', c :: s' =>
      if N.eqb (asciiLower pc) (asciiLower c) then
        match stripPrefixCI p' s' with
        | Some (m, r) => Some (c :: m, r)
        | None => None
        end
      else None
  | _ :: _, [] => None
  end.

(** First alternative, [\bhttps?:\/\/...], at a position whose previous
    character is a word character iff [prevWord]. *)
Definition matchHttpAlt (prevWord : bool) (s : jsstring) : option jsstring :=
  if prevWord then None
  else
    match stripPrefixCI (lit "http") s with
    | Some (m1, r1) =>
        let '(m2, r2) :=
          match stripPrefixCI (lit "s") r1 with
          | Some (m, r) => (m, r)
          | None => ([], r1)
          end in
        match stripPrefixCI (lit "://") r2 with
        | Some (m3, r3) =>
            match urlBody r3 with
            | Some m => Some (m1 ++ m2 ++ m3 ++ m)
            | None => None
            end
        | None => None
        end
    | None => None
    end.

(** Second alternative, [(?:www\.)...]. *)
Definition matchWwwAlt (s : jsstring) : option jsstring :=
  match stripPrefixCI (lit "www.") s with
  | Some (m1, r1) =>
      match urlBody r1 with
      | Some m => Some (m1 ++ m)
      | None => None
      end
  | None => None
  end.

(** The leftmost match, scanning from a position. *)
Fixpoint urlLikeFrom (prevWord : bool) (s : jsstring) : option jsstring :=
  match matchHttpAlt prevWord s with
  | Some m => Some m
  | None =>
      match matchWwwAlt s with
      | Some m => Some m
      | None =>
          match s with
          | [] => None
          | c :: s' => urlLikeFrom (isWordChar c) s'
          end
      end
  end.

(** [(text || "").match(urlLikeRegex) || []], its first element. *)
Definition firstUrlLike (text : jsstring) : option jsstring :=
  urlLikeFrom false text.

Section LinkDeception.
Context {host : Host}.

(** [try { h = new URL(u).hostname.toLowerCase() } catch { }], with [h]
    initially empty. *)
Definition hostnameOrEmpty (u : jsstring) : jsstring :=
  match tryCatch (bind (urlHostname u) (fun h => Normal (toLowerCase h)))
                 (fun _ => Normal []) with
  | Normal h => h
  | Throw _ => []
  end.

(** Lines 90-107. *)
Definition mismatchIndicator (hrefHostname text : jsstring)
  : list jsstring :=
  match firstUrlLike text with
  | Some visible =>
      let visibleHost :=
        hostnameOrEmpty
          (if startsWith (lit "http") visible then visible
           else lit "http://" ++ visible) in
      if negb (isEmpty visibleHost) && negb (isEmpty hrefHostname)
         && negb (eqb visibleHost hrefHostname)
      then [ind_mismatch] else []
  | None => []
  end.

(** Lines 109-112. *)
Definition shortenerIndicator (hrefHostname : jsstring) : list jsstring :=
  if negb (isEmpty hrefHostname)
     && existsb (fun s => includes s hrefHostname) shorteners
  then [ind_shortener] else [].

(** Lines 114-117. *)
Definition maliciousIndicator (hrefHostname : jsstring) : list jsstring :=
  if negb (isEmpty hrefHostname)
     && existsb (fun b => includes b hrefHostname) knownBad
  then [ind_malicious] else [].

(** Lines 119-122. *)
Definition authIndicator (hrefHostname : jsstring) : list jsstring :=
  if existsb (fun p => includes p hrefHostname) authPatterns
  then [ind_auth] else [].

(** Lines 124-127. *)
Definition httpIndicator (href : jsstring) : list jsstring :=
  if negb (isEmpty href) && startsWith (lit "http://") href
  then [ind_http] else [].

(** The array [indicators] at the end of one iteration. *)
Definition linkIndicators (l : LinkRecord) : list jsstring :=
  let hrefHostname := hostnameOrEmpty (href l) in
  mismatchIndicator hrefHostname (text l)
  ++ shortenerIndicator hrefHostname
  ++ maliciousIndicator hrefHostname
  ++ authIndicator hrefHostname
  ++ httpIndicator (href l).

(** What one iteration pushes onto [suspiciousLinks]. *)
Definition linkFindings (i : nat) (l : LinkRecord) : list LinkFinding :=
  let indicators := linkIndicators l in
  if Nat.eqb (length indicators) 0 then []
  else [ {| lf_index := i;
            lf_href := href l;
            lf_text := text l;
            lf_reason := join (lit "; ") indicators;
            lf_indicators := indicators |} ].

(** The loop [for (let i = 0; i < links.length; i++)], from index [i]. *)
Fixpoint linkLoop (i : nat) (links : list LinkRecord) : list LinkFinding :=
  match links with
  | [] => []
  | l :: rest => linkFindings i l ++ linkLoop (S i) rest
  end.

(** The test on line 146. *)
Definition hasEscalatingIndicator (f : LinkFinding) : bool :=
  arrayIncludes ind_malicious (lf_indicators f)
  || arrayIncludes ind_shortener (lf_indicators f)
  || arrayIncludes ind_mismatch (lf_indicators f).

(** Lines 140-151. *)
Definition scoreLinks (found : list LinkFinding) : Level :=
  if 2 <=? length found then danger
  else if Nat.eqb (length found) 1 then
    match found with
    | first :: _ => if hasEscalatingIndicator first then danger else warning
    | [] => warning
    end
  else safe.

Definition analyzeUrlDeception (links : list LinkRecord) : DeceptionResult :=
  let found := linkLoop 0 links in
  {| suspiciousLinks := found;
     threatLevel := scoreLinks found;
     analyzed := length links |}.

(** *** [quickScanLinks] *)

(** What the scan reads of an anchor element. *)
Record Anchor : Type := mkAnchor {
  a_href : jsstring;
  a_textContent : jsstring
}.

Record ScanLink : Type := mkScanLink {
  sl_href : jsstring;
  sl_reason : jsstring;
  sl_indicators : list jsstring
}.

Record LinkVerdict : Type := mkLinkVerdict {
  lv_level : Level;
  lv_detail : jsstring;
  lv_links : list ScanLink
}.

(** Lines 171-182: the verdict built from the deception analysis. *)
Definition linkVerdict (links : list LinkRecord) : LinkVerdict :=
  let deception := analyzeUrlDeception links in
  let found :=
    map (fun s => {| sl_href := lf_href s;
                     sl_reason := lf_reason s;
                     sl_indicators := lf_indicators s |})
        (suspiciousLinks deception) in
  let level :=
    match threatLevel deception with
    | danger => danger
    | warning => warning
    | _ => safe
    end in
  let detail :=
    if Level_eqb level safe then
      [9989%N] ++ lit " No suspicious links detected."
    else if negb (Nat.eqb (length found) 0) then
      ofNat (length found) ++ lit " suspicious link(s): "
      ++ join (lit ", ") (map sl_reason (firstn 3 found))
    else lit "Potentially suspicious links found." in
  {| lv_level := level; lv_detail := detail; lv_links := found |}.

(** [anchors] is what [document.querySelectorAll('a[href]')] returned. *)
Definition quickScanLinks (anchors : list Anchor) : LinkVerdict :=
  let linksToAnalyze :=
    map (fun a => {| href := a_href a; text := trim (a_textContent a) |})
        (firstn 200 anchors) in
  linkVerdict linksToAnalyze.

End LinkDeception.

(** ** Reading the values [JSON.parse] produced *)

(** The double nearest to a decimal is zero exactly when its magnitude is at
    most [2^-1075], half the least subnormal; the tie rounds to even, that
    is to zero. *)
Definition isZeroDouble (d : Decimal10) : bool :=
  N.eqb (mant d) 0
  || (Z.ltb (exp10 d) 0
      && Z.leb (Z.of_N (mant d) * 2 ^ 1075) (10 ^ (- exp10 d))).

(** ToBoolean. *)
Definition truthy (v : jsval) : bool :=
  match v with
  | JUndefined | JNull => false
  | JBool b => b
  | JNum d => negb (isZeroDouble d)
  | JStr s => negb (isEmpty s)
  | JArr _ | JObj _ => true
  end.

(** [a || b] *)
Definition jsOr (a b : jsval) : jsval := if truthy a then a else b.

Definition numOfNat (n : nat) : jsval :=
  JNum {| neg := false; mant := N.of_nat n; exp10 := 0 |}.

(** The own property [k] of an object built by [JSON.parse]: of duplicate
    keys the last one stands. *)
Fixpoint lookupProp (k : jsstring) (props : list (jsstring * jsval))
  : option jsval :=
  match props with
  | [] => None
  | (k', v) :: rest =>
      match lookupProp k rest with
      | Some w => Some w
      | None => if eqb k k' then Some v else None
      end
  end.

(** [v.k] for the property names the code reads ([error], [threat_level],
    [threatLevel], [level], [overall_assessment], [suspicious_items],
    [suspicious_links], [items], [confidence], [length]); none of them is on
    a built-in prototype except [length] of strings and arrays.  Reading a
    property of [null] or [undefined] throws. *)
Definition getProp (v : jsval) (k : jsstring) : Completion jsval :=
  match v with
  | JUndefined | JNull => Throw TypeError
  | JObj props =>
      match lookupProp k props with
      | Some w => Normal w
      | None => Normal JUndefined
      end
  | JArr items =>
      if eqb k (lit "length") then Normal (numOfNat (length items))
      else Normal JUndefined
  | JStr s =>
      if eqb k (lit "length") then Normal (numOfNat (length s))
      else Normal JUndefined
  | JBool _ | JNum _ => Normal JUndefined
  end.

(** Whether ToString throws on a value built by [JSON.parse]: an object
    with an own [toString] property has no callable conversion left, and
    an array converts its elements. *)
Fixpoint toStringThrows (v : jsval) : bool :=
  match v with
  | JObj props => existsb (fun kv => eqb (fst kv) (lit "toString")) props
  | JArr items => existsb toStringThrows items
  | _ => false
  end.

(** [v === "..."] against a string literal. *)
Definition strictEqualsStr (v : jsval) (s : jsstring) : bool :=
  match v with
  | JStr t => eqb t s
  | _ => false
  end.

(** ** prompt-templates.js: [parseAIResponse] *)

(** The longest prefix of [s] that ends with a closing brace. *)
Fixpoint upToLastClose (s : jsstring) : option jsstring :=
  match s with
  | [] => None
  | c :: s' =>
      match upToLastClose s' with
      | Some m => Some (c :: m)
      | None => if N.eqb c 125 then Some [c] else None
      end
  end.

(** [response.match(/\{[\s\S]*\}/)], the matched text: the leftmost opening
    brace from which the greedy body reaches a closing brace. *)
Fixpoint matchBraces (s : jsstring) : option jsstring :=
  match s with
  | [] => None
  | c :: s' =>
      if N.eqb c 123 then
        match upToLastClose s' with
        | Some m => Some (c :: m)
        | None => matchBraces s'
        end
      else matchBraces s'
  end.

(** The object returned by the [catch] clause. *)
Definition errorResult (response : jsstring) : jsval :=
  JObj [ (lit "error", JBool true);
         (lit "message", JStr (lit "Could not parse AI response"));
         (lit "raw", JStr response) ].

Section Normalizer.
Context {host : Host}.

Definition parseAIResponse (response : jsstring) : Completion jsval :=
  tryCatch
    (match matchBraces response with
     | Some jsonMatch => JSON_parse jsonMatch
     | None => JSON_parse response
     end)
    (fun _ => Normal (errorResult response)).

End Normalizer.

(** ** background.js: the SCAN_INBOX_THREATS handler *)

(** A literal in which the character [~] stands for the double quote. *)
Definition litq (s : string) : jsstring :=
  map (fun c => if N.eqb c 126 then 34%N else c) (lit s).

Definition newline : jsstring := [10%N].

Definition SYSTEM : jsstring :=
  join newline
    [ lit "You are a cybersecurity expert. Analyze the following recent email senders and subjects and identify any suspicious or likely malicious items. Look for typosquatting (e.g. 'rnicrosft' for 'microsoft'), odd domains in sender addresses, repeated misspellings, or clearly fraudulent subjects. Output JSON only with these fields:";
      lit "{";
      litq "  ~threat_level~: ~safe~ | ~warning~ | ~danger~,";
      litq "  ~confidence~: 0.0 to 1.0,";
      litq "  ~suspicious_items~: [";
      lit "    {";
      litq "      ~index~: number,";
      litq "      ~sender~: ~~,";
      litq "      ~subject~: ~~,";
      litq "      ~reason~: ~~,";
      litq "      ~indicators~: [~...~]";
      lit "    }";
      lit "  ],";
      litq "  ~overall_assessment~: ~~";
      lit "}" ].

(** The [i]-th line of [itemsText] (the callback of [filtered.map]). *)
Definition itemLine (i : nat) (t : ThreadRecord) : jsstring :=
  lit "Item " ++ ofNat (i + 1) ++ litq ": Sender: ~" ++ sender t
  ++ litq "~ Subject: ~" ++ subject t ++ litq "~".

Fixpoint itemLines (i : nat) (ts : list ThreadRecord) : list jsstring :=
  match ts with
  | [] => []
  | t :: rest => itemLine i t :: itemLines (S i) rest
  end.

Definition inboxThreatPrompt (filtered : list ThreadRecord) : jsstring :=
  SYSTEM ++ newline ++ newline ++ lit "Inbox items (last 7 days):" ++ newline
  ++ join newline (itemLines 0 filtered)
  ++ newline ++ newline ++ lit "Output (JSON only):".

(** The [detail] of a model-assisted verdict: the assessment the model
    gave, or the template [Found ${n} suspicious item(s)] with the value
    substituted for [n], or the fixed message. *)
Inductive AiDetail : Type :=
| DetailAssessment (v : jsval)
| DetailFound (n : jsval)
| DetailChecksOut.

(** What the handler passes to [sendResponse], as [result]. *)
Inductive ScanResponse : Type :=
| RespNeutral (detail : jsstring)
| RespScanFailed (err : JsError)
| RespLocal (fallback : InboxVerdict)
| RespAi (level : Level) (detail : AiDetail) (findings : jsval).

(** The collaborators of the handler: the tab lookup, the content script,
    the clock-dependent filter and the configured AI provider. *)
Record ScanEnv : Type := mkScanEnv {
  findActiveGmailTabId : option N;
  requestInboxThreads : N -> list ThreadRecord;
  filterThreadsByDateAndLimit : list ThreadRecord -> list ThreadRecord;
  sendPrompt : jsstring -> Completion jsval
}.

Section InboxThreatScan.
Context {host : Host}.

(** Lines 112-116, inside their [try]. *)
Definition normalizeParsed (parsed : jsval) : Completion ScanResponse :=
  (threat_level <- getProp parsed (lit "threat_level") ;;
   threatLevel <- getProp parsed (lit "threatLevel") ;;
   level <- getProp parsed (lit "level") ;;
   let lvl := jsOr (jsOr (jsOr threat_level threatLevel) level)
                   (JStr (lit "safe")) in
   overall <- getProp parsed (lit "overall_assessment") ;;
   suspicious <- getProp parsed (lit "suspicious_items") ;;
   detail <-
     (if truthy overall then Normal (DetailAssessment overall)
      else if truthy suspicious then
        len <- getProp suspicious (lit "length") ;;
        if truthy len then
          if toStringThrows len then Throw TypeError
          else Normal (DetailFound len)
        else Normal DetailChecksOut
      else Normal DetailChecksOut) ;;
   items <- getProp parsed (lit "items") ;;
   let findings := jsOr (jsOr suspicious items) (JArr []) in
   Normal (RespAi (if strictEqualsStr lvl (lit "danger") then danger
                   else if strictEqualsStr lvl (lit "warning") then warning
                   else safe)
                  detail findings))%completion.

(** Lines 88-121, once the threads are filtered. *)
Definition classifyFiltered (env : ScanEnv) (filtered : list ThreadRecord)
  : Completion ScanResponse :=
  let prompt := inboxThreatPrompt filtered in
  let llmResp :=
    match sendPrompt env prompt with
    | Normal v => v
    | Throw _ => JNull
    end in
  (parsed <-
     match llmResp with
     | JStr s =>
         if negb (isEmpty (trim s)) then parseAIResponse s
         else Normal JNull
     | _ => Normal JNull
     end ;;
   if negb (truthy parsed) then
     Normal (RespLocal (analyzeInboxLocally filtered))
   else
     err <- getProp parsed (lit "error") ;;
     if truthy err then
       Normal (RespLocal (analyzeInboxLocally filtered))
     else
       tryCatch (normalizeParsed parsed)
                (fun _ => Normal (RespLocal (analyzeInboxLocally filtered)))
  )%completion.

(** The handler: [msgTabId] is [msg.tabId] when the popup sent one. *)
Definition scanInboxThreats (env : ScanEnv) (msgTabId : option N)
  : ScanResponse :=
  let tabId :=
    match msgTabId with
    | Some t => if N.eqb t 0 then findActiveGmailTabId env else Some t
    | None => findActiveGmailTabId env
    end in
  let tabOk := match tabId with Some t => negb (N.eqb t 0) | None => false end in
  if negb tabOk then RespNeutral (lit "Open Gmail inbox to analyze")
  else
    let threads :=
      match tabId with Some t => requestInboxThreads env t | None => [] end in
    if Nat.eqb (length threads) 0 then
      RespNeutral (lit "No recent threads found to analyze")
    else
      let filtered := filterThreadsByDateAndLimit env threads in
      match classifyFiltered env filtered with
      | Normal r => r
      | Throw err => RespScanFailed err
      end.

End InboxThreatScan.

(** ** The hybrid decision over links *)

(** The verdict of the hybrid decision: [HybridNeutral] when there was
    nothing to scan, [HybridLocal] for the terminal state LOCAL_FALLBACK and
    [HybridRemote] for REMOTE_PARSED. *)
Inductive HybridVerdict : Type :=
| HybridNeutral
| HybridLocal (v : LinkVerdict)
| HybridRemote (level : Level) (confidence : jsval) (detail : AiDetail)
               (findings : jsval).

Section HybridLinks.
Context {host : Host}.

(** [analyzeLinks] of the specification's interface: the verdict that
    [quickScanLinks] builds from the links it collected. *)
Definition analyzeLinks (links : list LinkRecord) : LinkVerdict :=
  linkVerdict links.

(** Modelled from the spec: the normalisation of a parsed response into the
    canonical verdict (section 4.4), which the source has only inline and
    only for threads: the level is [danger] or [warning] when the field is
    exactly that and [safe] otherwise, the detail is the assessment text,
    else an item count, else the fixed message, and the findings default to
    the empty sequence. *)
Definition normalizeVerdict (parsed : list (jsstring * jsval))
  : HybridVerdict :=
  let field (k : string) :=
    match lookupProp (lit k) parsed with Some v => v | None => JUndefined end in
  let lvl := jsOr (jsOr (field "threat_level"%string) (field "threatLevel"%string))
                  (field "level"%string) in
  let found := jsOr (jsOr (field "suspicious_items"%string)
                          (field "suspicious_links"%string)) (field "items"%string) in
  let detail :=
    if truthy (field "overall_assessment"%string)
    then DetailAssessment (field "overall_assessment"%string)
    else match found with
         | JArr (_ :: _ as l) => DetailFound (numOfNat (length l))
         | _ => DetailChecksOut
         end in
  HybridRemote
    (if strictEqualsStr lvl (lit "danger") then danger
     else if strictEqualsStr lvl (lit "warning") then warning
     else safe)
    (field "confidence"%string) detail (jsOr found (JArr [])).

(** Modelled from the spec: [classifyLinksHybrid] (sections 4.5 and 6) is
    not in the source, whose link scan never calls the remote collaborator.
    The steps are those of section 4.5: build the prompt, attempt one
    remote call and treat any failure as no result, normalise the text
    obtained, fall back to the local analyzer when there is no result or
    the normalisation is tagged [error: true], and let a parsed remote
    result take precedence; with no items to scan the verdict is neutral
    (sections 4.5 and 7).  [buildPrompt] is step 1. *)
Definition classifyLinksHybrid (buildPrompt : list LinkRecord -> jsstring)
    (links : list LinkRecord)
    (submitPrompt : jsstring -> Completion jsstring) : HybridVerdict :=
  match links with
  | [] => HybridNeutral
  | _ :: _ =>
      match submitPrompt (buildPrompt links) with
      | Throw _ => HybridLocal (analyzeLinks links)
      | Normal completion =>
          match parseAIResponse completion with
          | Normal (JObj parsed) =>
              match lookupProp (lit "error") parsed with
              | Some (JBool true) => HybridLocal (analyzeLinks links)
              | _ => normalizeVerdict parsed
              end
          | _ => HybridLocal (analyzeLinks links)
          end
      end
  end.

End HybridLinks.

(** ** Executable models of the built-ins *)

Module UnicodeModel.

(** The lower-case mapping of one code unit, for Basic Latin, the Latin-1
    Supplement, and the code points outside them whose mapping is an ASCII
    letter or longer than one unit: U+0130 maps to U+0069 U+0307
    (SpecialCasing.txt) and U+212A to U+006B, U+212B to U+00E5
    (UnicodeData.txt).  Code units of other scripts are left as they are. *)
Definition lowerUnit (c : N) : list N :=
  if isUpperAZ c then [(c + 32)%N]
  else if inRange 192 222 c && negb (N.eqb c 215) then [(c + 32)%N]
  else if N.eqb c 304 then [105%N; 775%N]
  else if N.eqb c 8490 then [107%N]
  else if N.eqb c 8491 then [229%N]
  else [c].

Definition toLowerCase (s : jsstring) : jsstring := flat_map lowerUnit s.

End UnicodeModel.

Module UrlModel.

(** A model of [new URL(s).hostname] without a base URL, following the
    WHATWG parser for the shape [scheme:[//][userinfo@]host[:port][/?#...]].
    It is exact for the schemes [http], [https], [ws], [wss] and [ftp]
    when the host is made of ASCII letters, digits, [-], [_] and [.] and
    its last label is not a number; percent-encoded, non-ASCII, bracketed
    and numeric hosts, and the [file] scheme, are beyond it.  For every
    other scheme it answers the empty host: that is what the engine gives
    when no authority follows the colon ([mailto:a@b.c], [javascript:...]),
    but not when one does ([foo://bit.ly/x] has the host [bit.ly]); such
    addresses are beyond it as well. *)

Definition isC0OrSpace (c : N) : bool := N.leb c 32.
Definition isTabOrNewline (c : N) : bool :=
  N.eqb c 9 || N.eqb c 10 || N.eqb c 13.
Definition isAlpha (c : N) : bool := isLowerAZ c || isUpperAZ c.
Definition isSchemeChar (c : N) : bool :=
  isAlpha c || isDigit c || N.eqb c 43 || N.eqb c 45 || N.eqb c 46.
Definition isSlash (c : N) : bool := N.eqb c 47 || N.eqb c 92.
Definition isAuthorityEnd (c : N) : bool :=
  isSlash c || N.eqb c 63 || N.eqb c 35.
Definition isHostChar (c : N) : bool :=
  isAlpha c || isDigit c || N.eqb c 45 || N.eqb c 46 || N.eqb c 95.

Fixpoint dropWhile (p : N -> bool) (s : jsstring) : jsstring :=
  match s with
  | c :: s' => if p c then dropWhile p s' else s
  | [] => []
  end.

(** The scheme and what follows its colon. *)
Fixpoint splitScheme (s acc : jsstring) : option (jsstring * jsstring) :=
  match s with
  | [] => None
  | c :: s' =>
      if N.eqb c 58 then Some (rev acc, s')
      else if isSchemeChar c then splitScheme s' (asciiLower c :: acc)
      else None
  end.

(** What follows the last [@] of the authority. *)
Fixpoint afterLastAt (s : jsstring) : jsstring :=
  match s with
  | [] => []
  | c :: s' =>
      if N.eqb c 64 && existsb (N.eqb 64) s' then afterLastAt s'
      else if N.eqb c 64 then s'
      else if existsb (N.eqb 64) s' then afterLastAt s'
      else s
  end.

Fixpoint decimalValue (s : jsstring) (acc : N) : option N :=
  match s with
  | [] => Some acc
  | c :: s' =>
      if isDigit c then decimalValue s' (acc * 10 + (c - 48))%N else None
  end.

Definition portOk (p : jsstring) : bool :=
  match decimalValue p 0 with
  | Some n => N.leb n 65535
  | None => false
  end.

Definition isSpecial (scheme : jsstring) : bool :=
  existsb (eqb scheme) (map lit ["http"; "https"; "ws"; "wss"; "ftp"]%string).

Definition hostname (input : jsstring) : Completion jsstring :=
  let s := rev (dropWhile isC0OrSpace (rev (dropWhile isC0OrSpace input))) in
  let s := filter (fun c => negb (isTabOrNewline c)) s in
  match s with
  | c :: _ =>
      if isAlpha c then
        match splitScheme s [] with
        | Some (scheme, rest) =>
            if isSpecial scheme then
              let authority :=
                takeWhile (fun c => negb (isAuthorityEnd c))
                          (dropWhile isSlash rest) in
              let hostport := afterLastAt authority in
              let h := takeWhile (fun c => negb (N.eqb c 58)) hostport in
              let port :=
                match dropWhile (fun c => negb (N.eqb c 58)) hostport with
                | _ :: p => p
                | [] => []
                end in
              if negb (isEmpty h) && forallb isHostChar h && portOk port
              then Normal (map asciiLower h)
              else Throw TypeError
            else Normal []
        | None => Throw TypeError
        end
      else Throw TypeError
  | [] => Throw TypeError
  end.

End UrlModel.

Module JsonModel.

(** A model of [JSON.parse] on the JSON grammar (ECMA-404): literals,
    numbers, strings with their escapes, arrays and objects, and nothing
    but white space around the value. *)

Definition isJsonWs (c : N) : bool :=
  N.eqb c 32 || N.eqb c 9 || N.eqb c 10 || N.eqb c 13.

Fixpoint skipWs (s : jsstring) : jsstring :=
  match s with
  | c :: s' => if isJsonWs c then skipWs s' else s
  | [] => []
  end.

Definition hexValue (c : N) : option N :=
  if isDigit c then Some (c - 48)%N
  else if inRange 97 102 c then Some (c - 87)%N
  else if inRange 65 70 c then Some (c - 55)%N
  else None.

Definition hex4 (a b c d : N) : option N :=
  match hexValue a, hexValue b, hexValue c, hexValue d with
  | Some x, Some y, Some z, Some w =>
      Some (((x * 16 + y) * 16 + z) * 16 + w)%N
  | _, _, _, _ => None
  end.

(** The character a single-letter escape stands for. *)
Definition escapeUnit (e : N) : option N :=
  if N.eqb e 34 then Some 34%N            (* quotation mark *)
  else if N.eqb e 92 then Some 92%N       (* reverse solidus *)
  else if N.eqb e 47 then Some 47%N       (* solidus *)
  else if N.eqb e 98 then Some 8%N        (* backspace *)
  else if N.eqb e 102 then Some 12%N      (* form feed *)
  else if N.eqb e 110 then Some 10%N      (* line feed *)
  else if N.eqb e 114 then Some 13%N      (* carriage return *)
  else if N.eqb e 116 then Some 9%N       (* tab *)
  else None.

Definition consFst (c : N) (r : option (jsstring * jsstring))
  : option (jsstring * jsstring) :=
  match r with
  | Some (m, rest) => Some (c :: m, rest)
  | None => None
  end.

(** The characters of a string after its opening quote, and what follows
    the closing quote. *)
Fixpoint parseStringBody (s : jsstring) : option (jsstring * jsstring) :=
  match s with
  | [] => None
  | c :: s' =>
      if N.eqb c 34 then Some ([], s')
      else if N.ltb c 32 then None
      else if N.eqb c 92 then
        match s' with
        | e :: s'' =>
            if N.eqb e 117 then
              match s'' with
              | h1 :: h2 :: h3 :: h4 :: r =>
                  match hex4 h1 h2 h3 h4 with
                  | Some u => consFst u (parseStringBody r)
                  | None => None
                  end
              | _ => None
              end
            else
              match escapeUnit e with
              | Some u => consFst u (parseStringBody s'')
              | None => None
              end
        | [] => None
        end
      else consFst c (parseStringBody s')
  end.

(** A run of digits: its value continued from [acc], how many there were,
    and the rest. *)
Fixpoint digitRun (s : jsstring) (acc : N) (count : nat)
  : N * nat * jsstring :=
  match s with
  | c :: s' =>
      if isDigit c then digitRun s' (acc * 10 + (c - 48))%N (S count)
      else (acc, count, s)
  | [] => (acc, count, [])
  end.

(** A number: an optional minus sign, an integer part without leading
    zeros, an optional fraction and an optional exponent. *)
Definition parseNumber (s : jsstring) : option (Decimal10 * jsstring) :=
  let '(negative, s1) :=
    match s with
    | c :: r => if N.eqb c 45 then (true, r) else (false, s)
    | [] => (false, s)
    end in
  let intPart :=
    match s1 with
    | c :: r =>
        if N.eqb c 48 then Some (0%N, r)
        else if isDigit c then
          let '(v, _, r') := digitRun s1 0 0 in Some (v, r')
        else None
    | [] => None
    end in
  match intPart with
  | None => None
  | Some (iv, s2) =>
      let fracPart :=
        match s2 with
        | c :: r =>
            if N.eqb c 46 then
              let '(v, n, r') := digitRun r iv 0 in
              if Nat.eqb n 0 then None else Some (v, n, r')
            else Some (iv, 0, s2)
        | [] => Some (iv, 0, s2)
        end in
      match fracPart with
      | None => None
      | Some (m, fracDigits, s3) =>
          let expPart :=
            match s3 with
            | c :: r =>
                if N.eqb c 101 || N.eqb c 69 then
                  let '(eneg, r1) :=
                    match r with
                    | sg :: r' =>
                        if N.eqb sg 45 then (true, r')
                        else if N.eqb sg 43 then (false, r')
                        else (false, r)
                    | [] => (false, r)
                    end in
                  let '(ev, n, r2) := digitRun r1 0 0 in
                  if Nat.eqb n 0 then None
                  else Some ((if eneg then - Z.of_N ev else Z.of_N ev)%Z, r2)
                else Some (0%Z, s3)
            | [] => Some (0%Z, s3)
            end in
          match expPart with
          | None => None
          | Some (e, s4) =>
              Some ({| neg := negative; mant := m;
                       exp10 := (e - Z.of_nat fracDigits)%Z |}, s4)
          end
      end
  end.

Definition stripLiteral (p s : jsstring) : option jsstring :=
  if startsWith p s then Some (skipn (length p) s) else None.

(** A value and what follows it.  Along a chain of calls the text shrinks
    at least every second call, so a fuel of twice its length is enough. *)
Fixpoint parseValue (fuel : nat) (s : jsstring) : option (jsval * jsstring) :=
  match fuel with
  | O => None
  | S fuel' =>
      match skipWs s with
      | [] => None
      | c :: r =>
          if N.eqb c 123 then
            match skipWs r with
            | d :: r' =>
                if N.eqb d 125 then Some (JObj [], r')
                else
                  match parseMembers fuel' r with
                  | Some (props, rest) => Some (JObj props, rest)
                  | None => None
                  end
            | [] => None
            end
          else if N.eqb c 91 then
            match skipWs r with
            | d :: r' =>
                if N.eqb d 93 then Some (JArr [], r')
                else
                  match parseElements fuel' r with
                  | Some (items, rest) => Some (JArr items, rest)
                  | None => None
                  end
            | [] => None
            end
          else if N.eqb c 34 then
            match parseStringBody r with
            | Some (str, rest) => Some (JStr str, rest)
            | None => None
            end
          else if N.eqb c 116 then
            option_map (pair (JBool true)) (stripLiteral (lit "true") (c :: r))
          else if N.eqb c 102 then
            option_map (pair (JBool false)) (stripLiteral (lit "false") (c :: r))
          else if N.eqb c 110 then
            option_map (pair JNull) (stripLiteral (lit "null") (c :: r))
          else
            match parseNumber (c :: r) with
            | Some (d, rest) => Some (JNum d, rest)
            | None => None
            end
      end
  end

(** The elements of an array after its bracket or a comma, up to and
    including the closing bracket. *)
with parseElements (fuel : nat) (s : jsstring)
  : option (list jsval * jsstring) :=
  match fuel with
  | O => None
  | S fuel' =>
      match parseValue fuel' s with
      | Some (v, rest) =>
          match skipWs rest with
          | c :: r =>
              if N.eqb c 44 then
                match parseElements fuel' r with
                | Some (vs, rest') => Some (v :: vs, rest')
                | None => None
                end
              else if N.eqb c 93 then Some ([v], r)
              else None
          | [] => None
          end
      | None => None
      end
  end

(** The members of an object after its brace or a comma, up to and
    including the closing brace. *)
with parseMembers (fuel : nat) (s : jsstring)
  : option (list (jsstring * jsval) * jsstring) :=
  match fuel with
  | O => None
  | S fuel' =>
      match skipWs s with
      | q :: r0 =>
          if N.eqb q 34 then
            match parseStringBody r0 with
            | Some (key, r1) =>
                match skipWs r1 with
                | colon :: r2 =>
                    if N.eqb colon 58 then
                      match parseValue fuel' r2 with
                      | Some (v, rest) =>
                          match skipWs rest with
                          | c :: r =>
                              if N.eqb c 44 then
                                match parseMembers fuel' r with
                                | Some (ps, rest') =>
                                    Some ((key, v) :: ps, rest')
                                | None => None
                                end
                              else if N.eqb c 125 then Some ([(key, v)], r)
                              else None
                          | [] => None
                          end
                      | None => None
                      end
                    else None
                | [] => None
                end
            | None => None
            end
          else None
      | [] => None
      end
  end.

Definition parse (s : jsstring) : Completion jsval :=
  match parseValue (2 * length s + 2) s with
  | Some (v, rest) =>
      match skipWs rest with
      | [] => Normal v
      | _ :: _ => Throw SyntaxError
      end
  | None => Throw SyntaxError
  end.

End JsonModel.

(** The engine, as far as the models above describe it. *)
Definition engine : Host :=
  {| toLowerCase := UnicodeModel.toLowerCase;
     urlHostname := UrlModel.hostname;
     JSON_parse := JsonModel.parse |}.

(** ** Auxiliary notions the statements use *)

(** The cells [matrix[i][j ..]] as the distances they are meant to hold:
    [rb] is the prefix of [b] read so far, reversed, [ra] the prefix of [a]
    to the left of column [j], reversed, and [rest] the characters of [a]
    from column [j] on. *)
Fixpoint distRow (rb ra rest : jsstring) : list nat :=
  lev rb ra ::
  match rest with
  | [] => []
  | c :: rest' => distRow rb (c :: ra) rest'
  end.

(** The text [parseAIResponse] hands to [JSON.parse]. *)
Definition jsonCandidate (response : jsstring) : jsstring :=
  match matchBraces response with
  | Some jsonMatch => jsonMatch
  | None => response
  end.

(** The indicator arrays of the links that become findings, in order. *)
Definition flaggedIndicators {host : Host} (links : list LinkRecord)
  : list (list jsstring) :=
  filter (fun ind => negb (Nat.eqb (length ind) 0)) (map linkIndicators links).

(** The escalation test of the scoring, on an indicator array. *)
Definition escalates (indicators : list jsstring) : bool :=
  arrayIncludes ind_malicious indicators
  || arrayIncludes ind_shortener indicators
  || arrayIncludes ind_mismatch indicators.

(** What the loop of [analyzeInboxLocally] pushes for the thread [t] at
    index [i]: findings that carry its index, sender and subject, and one of
    the two tags the level is decided on. *)
Definition pushedBy (i : nat) (t : ThreadRecord) (f : ThreadFinding) : Prop :=
  tf_index f = i /\ tf_sender f = sender t /\ tf_subject f = subject t
  /\ isStrongThreadFinding f = true.

(** A thread record with only the fields the analyzer reads. *)
Definition threadOf (from about : string) : ThreadRecord :=
  {| sender := lit from; subject := lit about; snippet := [];
     timestamp := None; rawTimestamp := None;
     unread := false; starred := false |}.

(** A scan environment whose AI provider rejects every prompt: the content
    script returns [threads] for every tab and the filter keeps them all. *)
Definition offlineEnv (threads : list ThreadRecord) : ScanEnv :=
  {| findActiveGmailTabId := None;
     requestInboxThreads := fun _ => threads;
     filterThreadsByDateAndLimit := fun ts => ts;
     sendPrompt := fun _ => Throw (Rejected (lit "Failed to fetch")) |}.

(** ** Further notions for the properties of Part III *)

(** The order of the levels a scan can reach. *)
Definition levelRank (l : Level) : nat :=
  match l with
  | safe | neutral => 0
  | warning => 1
  | danger => 2
  end.

(** A finding whose index is moved by [k] positions. *)
Definition reindexThread (k : nat) (f : ThreadFinding) : ThreadFinding :=
  {| tf_index := k + tf_index f; tf_sender := tf_sender f;
     tf_subject := tf_subject f; tf_reason := tf_reason f;
     tf_indicators := tf_indicators f |}.

Definition reindexLink (k : nat) (f : LinkFinding) : LinkFinding :=
  {| lf_index := k + lf_index f; lf_href := lf_href f; lf_text := lf_text f;
     lf_reason := lf_reason f; lf_indicators := lf_indicators f |}.

(** The tab the SCAN_INBOX_THREATS handler works on: [msg.tabId] when it is
    truthy, else the result of [findActiveGmailTabId()], when that is
    truthy. *)
Definition resolveTab (env : ScanEnv) (msgTabId : option N) : option N :=
  let tabId :=
    match msgTabId with
    | Some t => if N.eqb t 0 then findActiveGmailTabId env else Some t
    | None => findActiveGmailTabId env
    end in
  match tabId with
  | Some t => if N.eqb t 0 then None else Some t
  | None => None
  end.

(** ** background.js: [filterThreadsByDateAndLimit] *)

(** What [Number(s)] followed by [new Date(n)] gives: [Number] may answer
    [NaN], the date made of a number may be invalid (out of the range of
    time values), or it has a time value in milliseconds. *)
Inductive NumberDate : Type :=
| NotANumber
| InvalidDate
| TimeValue (ms : Z).

(** The clock and the date built-ins. *)
Class DateHost : Type := {
  (** [new Date(s).getTime()] for a string; [None] stands for [NaN]. *)
  dateParse : jsstring -> option Z;
  (** [Number(s)] and the date made of it. *)
  numberDate : jsstring -> NumberDate;
  (** The time value of [d] after [d = new Date(now);
      d.setDate(now.getDate() - k)]. *)
  daysAgo : N -> Z
}.

(** A thread with the [_date] that [Object.assign] adds; [None] is an
    invalid date. *)
Record DatedThread : Type := mkDated {
  dt_thread : ThreadRecord;
  dt_date : option Z
}.

(** [s ? f(s) : null] for a string or [null]. *)
Definition whenTruthy {A : Type} (s : option jsstring) (f : jsstring -> A)
  : option A :=
  match s with
  | Some str => if isEmpty str then None else Some (f str)
  | None => None
  end.

(** The place of [x] among the dated threads [l], already sorted: after the
    threads that are strictly newer, before the others.  With the comparator
    [(a, b) => b._date - a._date] a thread moves ahead of another only when
    the difference is negative, and the sort is stable. *)
Fixpoint insertByDate (x : DatedThread) (l : list DatedThread)
  : list DatedThread :=
  match l with
  | [] => [x]
  | y :: rest =>
      match dt_date y, dt_date x with
      | Some dy, Some dx =>
          if Z.ltb dx dy then y :: insertByDate x rest else x :: l
      | _, _ => x :: l
      end
  end.

(** [.sort((a, b) => b._date - a._date)] *)
Definition sortNewestFirst (l : list DatedThread) : list DatedThread :=
  fold_right insertByDate [] l.

Section DateFilter.
Context {dates : DateHost}.

(** The callback of [threads.map]: the [_date] of a thread. *)
Definition normalizeDate (t : ThreadRecord) : option Z :=
  let d := whenTruthy (timestamp t) dateParse in
  let d :=
    match d with
    | Some (Some _) => d
    | _ =>
        whenTruthy (rawTimestamp t)
          (fun raw => match numberDate raw with
                      | TimeValue ms => Some ms
                      | _ => None
                      end)
    end in
  match d with
  | Some date => date
  | None => Some 0%Z
  end.

(** [t._date >= sevenDaysAgo]; a comparison with an invalid date is
    false. *)
Definition notOlderThan (cutoff : Z) (d : DatedThread) : bool :=
  match dt_date d with
  | Some ms => Z.leb cutoff ms
  | None => false
  end.

(** The function, under the name [filterByDateAndLimit]: the name of the
    source is the field of [ScanEnv] through which the handler calls it. *)
Definition filterByDateAndLimit (threads : list ThreadRecord)
  : list DatedThread :=
  let sevenDaysAgo := daysAgo 7 in
  let normalized :=
    map (fun t => {| dt_thread := t; dt_date := normalizeDate t |}) threads in
  firstn 50 (sortNewestFirst (filter (notOlderThan sevenDaysAgo) normalized)).

End DateFilter.

(** The time value of a dated thread, for the order of the sort. *)
Definition timeOf (d : DatedThread) : Z :=
  match dt_date d with Some ms => ms | None => 0%Z end.

(** The threads with the time value [z]. *)
Definition sameTime (z : Z) (d : DatedThread) : bool :=
  match dt_date d with Some ms => Z.eqb ms z | None => false end.

(** A scan environment whose filter is the function of the source. *)
Definition withDateFilter {dates : DateHost} (base : ScanEnv) : ScanEnv :=
  {| findActiveGmailTabId := findActiveGmailTabId base;
     requestInboxThreads := requestInboxThreads base;
     filterThreadsByDateAndLimit :=
       fun threads => map dt_thread (filterByDateAndLimit threads);
     sendPrompt := sendPrompt base |}.

(** A clock for the worked examples: a date is written as its time value in
    decimal digits, and seven days ago is the time value 1000. *)
Definition testDecimal (s : jsstring) : option Z :=
  if forallb isDigit s && negb (isEmpty s)
  then Some (fold_left (fun acc c => (acc * 10 + (Z.of_N c - 48))%Z) s 0%Z)
  else None.

Definition testClock : DateHost :=
  {| dateParse := testDecimal;
     numberDate := fun s => match testDecimal s with
                            | Some ms => TimeValue ms
                            | None => NotANumber
                            end;
     daysAgo := fun _ => 1000%Z |}.

(** A thread record with a timestamp. *)
Definition threadAt (from about : string) (time : option string)
  : ThreadRecord :=
  {| sender := lit from; subject := lit about; snippet := [];
     timestamp := option_map lit time; rawTimestamp := None;
     unread := false; starred := false |}.

(** ** content.js: [extractInboxThreads] *)

(** The time element of a row, as the code reads it. *)
Record TimeElement : Type := mkTimeElement {
  te_title : option jsstring;        (* getAttribute('title') *)
  te_ariaLabel : option jsstring;    (* getAttribute('aria-label') *)
  te_innerText : jsstring
}.

(** What the selectors of the loop find in a row [tr.zA]: the [innerText]
    of the first element a selector matches, if there is one. *)
Record InboxRow : Type := mkInboxRow {
  row_senderMain : option jsstring;      (* '.yW span, .yX.xY span' *)
  row_senderAlt : option jsstring;       (* '.yP' *)
  row_subjectMain : option jsstring;     (* '.y6 span' *)
  row_subjectAlt : option jsstring;      (* '.bog' *)
  row_snippetMain : option jsstring;     (* '.y2' *)
  row_snippetAlt : option jsstring;      (* '.yW + .y2' *)
  row_classZE : bool;                    (* classList.contains('zE') *)
  row_classUnread : bool;                (* classList.contains('unread') *)
  row_star : bool;                       (* a '.T-KT, .asa' element exists *)
  row_time : option TimeElement;         (* 'td.xW span, ...' *)
  row_dataTimestamp : option jsstring    (* getAttribute('data-timestamp') *)
}.

(** [a || b] for strings that may be missing, [null] when both are falsy. *)
Definition orElse (a b : option jsstring) : option jsstring :=
  match a with
  | Some s => if isEmpty s then b else a
  | None => b
  end.

(** [a?.innerText?.trim() || b?.innerText?.trim() || ""] *)
Definition firstText (a b : option jsstring) : jsstring :=
  match orElse (orElse (option_map trim a) (option_map trim b)) (Some []) with
  | Some s => s
  | None => []
  end.

(** [timestamp]: the title, the label or the text of the time element. *)
Definition rowTimestamp (r : InboxRow) : option jsstring :=
  match row_time r with
  | Some el =>
      orElse (orElse (orElse (te_title el) (te_ariaLabel el))
                     (Some (te_innerText el))) None
  | None => None
  end.

Definition rowRawTimestamp (r : InboxRow) : option jsstring :=
  orElse (row_dataTimestamp r) None.

(** The object pushed for a row. *)
Definition rowThread (r : InboxRow) : ThreadRecord :=
  {| sender := firstText (row_senderMain r) (row_senderAlt r);
     subject := firstText (row_subjectMain r) (row_subjectAlt r);
     snippet := firstText (row_snippetMain r) (row_snippetAlt r);
     timestamp := rowTimestamp r;
     rawTimestamp := rowRawTimestamp r;
     unread := row_classZE r || row_classUnread r;
     starred := row_star r |}.

Section InboxExtraction.
Context {dates : DateHost}.

(** [parsedDate]: [None] is [null], [Some None] an invalid date. *)
Definition rowParsedDate (r : InboxRow) : option (option Z) :=
  match rowTimestamp r with
  | Some ts =>
      match dateParse ts with
      | Some ms => Some (Some ms)
      | None => None
      end
  | None =>
      match rowRawTimestamp r with
      | Some raw =>
          match numberDate raw with
          | NotANumber => None
          | InvalidDate => Some None
          | TimeValue ms => Some (Some ms)
          end
      | None => None
      end
  end.

(** [parsedDate && parsedDate < sevenDaysAgo] *)
Definition rowTooOld (cutoff : Z) (r : InboxRow) : bool :=
  match rowParsedDate r with
  | Some (Some ms) => Z.ltb ms cutoff
  | _ => false
  end.

(** The loop over the rows, with [count] results so far. *)
Fixpoint extractLoop (maxThreads : nat) (cutoff : Z) (rows : list InboxRow)
    (count : nat) : list ThreadRecord :=
  match rows with
  | [] => []
  | row :: rest =>
      if maxThreads <=? count then []
      else if rowTooOld cutoff row then extractLoop maxThreads cutoff rest count
      else rowThread row :: extractLoop maxThreads cutoff rest (S count)
  end.

(** [rows] is what [document.querySelectorAll('tr.zA, ...')] returned. *)
Definition extractInboxThreads (rows : list InboxRow)
    (maxThreads : nat) (maxDays : N) : list ThreadRecord :=
  let sevenDaysAgo := daysAgo (if N.eqb maxDays 0 then 7%N else maxDays) in
  extractLoop maxThreads sevenDaysAgo rows 0.

End InboxExtraction.

(** A row with a sender, a subject and the text of its time element. *)
Definition rowOf (from about : string) (time : option string) : InboxRow :=
  {| row_senderMain := Some (lit from); row_senderAlt := None;
     row_subjectMain := Some (lit about); row_subjectAlt := None;
     row_snippetMain := None; row_snippetAlt := None;
     row_classZE := false; row_classUnread := false; row_star := false;
     row_time := option_map (fun s => {| te_title := None;
                                         te_ariaLabel := None;
                                         te_innerText := lit s |}) time;
     row_dataTimestamp := None |}.

(** ** ai-provider.js *)

(** The providers the settings page can store. *)
Inductive Provider : Type := ollama | groq | together | openai | anthropic.

Definition Provider_eqb (p q : Provider) : bool :=
  match p, q with
  | ollama, ollama | groq, groq | together, together
  | openai, openai | anthropic, anthropic => true
  | _, _ => false
  end.

Record ProviderConfig : Type := mkConfig {
  pc_name : jsstring;
  pc_requiresApiKey : bool;
  pc_endpoint : jsstring;
  pc_chatEndpoint : option jsstring;
  pc_defaultModel : jsstring;
  pc_testEndpoint : jsstring
}.

Definition AI_PROVIDERS (p : Provider) : ProviderConfig :=
  match p with
  | ollama =>
      {| pc_name := lit "Ollama"; pc_requiresApiKey := false;
         pc_endpoint := lit "http://localhost:11434/api/generate";
         pc_chatEndpoint := Some (lit "http://localhost:11434/api/chat");
         pc_defaultModel := lit "llama3.1";
         pc_testEndpoint := lit "http://localhost:11434/api/tags" |}
  | groq =>
      {| pc_name := lit "Groq"; pc_requiresApiKey := true;
         pc_endpoint := lit "https://api.groq.com/openai/v1/chat/completions";
         pc_chatEndpoint := None;
         pc_defaultModel := lit "llama-3.1-8b-instant";
         pc_testEndpoint := lit "https://api.groq.com/openai/v1/models" |}
  | together =>
      {| pc_name := lit "Together.ai"; pc_requiresApiKey := true;
         pc_endpoint := lit "https://api.together.xyz/v1/chat/completions";
         pc_chatEndpoint := None;
         pc_defaultModel := lit "meta-llama/Llama-3-8b-chat-hf";
         pc_testEndpoint := lit "https://api.together.xyz/v1/models" |}
  | openai =>
      {| pc_name := lit "OpenAI"; pc_requiresApiKey := true;
         pc_endpoint := lit "https://api.openai.com/v1/chat/completions";
         pc_chatEndpoint := None;
         pc_defaultModel := lit "gpt-3.5-turbo";
         pc_testEndpoint := lit "https://api.openai.com/v1/models" |}
  | anthropic =>
      {| pc_name := lit "Anthropic"; pc_requiresApiKey := true;
         pc_endpoint := lit "https://api.anthropic.com/v1/messages";
         pc_chatEndpoint := None;
         pc_defaultModel := lit "claude-3-haiku-20240307";
         pc_testEndpoint := lit "https://api.anthropic.com/v1/models" |}
  end.

(** What [chrome.storage.sync.get(["aiProvider", "apiKey"])] resolves
    with; a missing key is [None]. *)
Record StoredSettings : Type := mkStored {
  st_aiProvider : option Provider;
  st_apiKey : option jsstring
}.

Record ProviderSettings : Type := mkSettings {
  ps_provider : Provider;
  ps_apiKey : jsstring;
  ps_config : ProviderConfig
}.

Definition getProviderSettings (stored : Completion StoredSettings)
  : ProviderSettings :=
  match stored with
  | Normal result =>
      let provider :=
        match st_aiProvider result with Some p => p | None => ollama end in
      let apiKey :=
        match st_apiKey result with Some k => k | None => [] end in
      {| ps_provider := provider; ps_apiKey := apiKey;
         ps_config := AI_PROVIDERS provider |}
  | Throw _ =>
      {| ps_provider := ollama; ps_apiKey := [];
         ps_config := AI_PROVIDERS ollama |}
  end.

(** A request as [fetch] receives it; the body is held as the value that
    [JSON.stringify] serializes. *)
Record Request : Type := mkRequest {
  rq_url : jsstring;
  rq_method : jsstring;
  rq_headers : list (jsstring * jsstring);
  rq_body : option jsval
}.

Record Response : Type := mkResponse {
  rs_ok : bool;
  rs_status : nat;
  rs_body : jsstring
}.

(** [await fetch(...)]: a response, or a rejection (network error,
    time-out). *)
Definition Network : Type := Request -> Completion Response.

(** The result of [checkProviderReady]; [needsSetup] is absent from the
    results that are ready. *)
Record Readiness : Type := mkReadiness {
  rd_ready : bool;
  rd_reason : jsstring;
  rd_needsSetup : option bool
}.

Definition contentTypeJson : jsstring * jsstring :=
  (lit "Content-Type", lit "application/json").

Definition ollamaTestRequest (config : ProviderConfig) : Request :=
  {| rq_url := pc_testEndpoint config; rq_method := lit "GET";
     rq_headers := []; rq_body := None |}.

Definition checkProviderReady (fetch : Network)
    (stored : Completion StoredSettings) : Readiness :=
  let settings := getProviderSettings stored in
  let config := ps_config settings in
  if pc_requiresApiKey config && isEmpty (ps_apiKey settings) then
    {| rd_ready := false;
       rd_reason := pc_name config
         ++ lit " requires an API key. Please configure it in Settings.";
       rd_needsSetup := Some true |}
  else if Provider_eqb (ps_provider settings) ollama then
    match fetch (ollamaTestRequest config) with
    | Normal response =>
        if rs_ok response then
          {| rd_ready := true; rd_reason := lit "Ollama is running";
             rd_needsSetup := None |}
        else
          {| rd_ready := false;
             rd_reason := lit "Ollama is not responding. Make sure it's installed and running.";
             rd_needsSetup := Some true |}
    | Throw _ =>
        {| rd_ready := false;
           rd_reason := lit "Cannot connect to Ollama. Is it running?";
           rd_needsSetup := Some true |}
    end
  else
    {| rd_ready := true; rd_reason := pc_name config ++ lit " is configured";
       rd_needsSetup := None |}.

(** What [sendPrompt] resolves with: the text of the completion (whatever
    value the provider put there), or the response itself when streaming. *)
Inductive PromptOutcome : Type :=
| Completed (text : jsval)
| Streamed (response : Response).

(** [v[0]] *)
Definition getFirst (v : jsval) : Completion jsval :=
  match v with
  | JUndefined | JNull => Throw TypeError
  | JArr (x :: _) => Normal x
  | JStr (c :: _) => Normal (JStr [c])
  | JObj props =>
      match lookupProp (lit "0") props with
      | Some w => Normal w
      | None => Normal JUndefined
      end
  | _ => Normal JUndefined
  end.

Definition ollamaRequest (prompt : jsstring) (config : ProviderConfig)
    (stream : bool) : Request :=
  {| rq_url := pc_endpoint config; rq_method := lit "POST";
     rq_headers := [contentTypeJson];
     rq_body := Some (JObj [ (lit "model", JStr (pc_defaultModel config));
                             (lit "prompt", JStr prompt);
                             (lit "stream", JBool stream) ]) |}.

Definition chatMessages (prompt : jsstring) : jsval :=
  JArr [JObj [(lit "role", JStr (lit "user")); (lit "content", JStr prompt)]].

Definition openAIRequest (prompt : jsstring) (config : ProviderConfig)
    (apiKey : jsstring) : Request :=
  {| rq_url := pc_endpoint config; rq_method := lit "POST";
     rq_headers := [ contentTypeJson;
                     (lit "Authorization", lit "Bearer " ++ apiKey) ];
     rq_body := Some (JObj [ (lit "model", JStr (pc_defaultModel config));
                             (lit "messages", chatMessages prompt);
                             (lit "temperature",
                              JNum {| neg := false; mant := 7; exp10 := -1 |});
                             (lit "max_tokens", numOfNat 500) ]) |}.

Definition anthropicRequest (prompt : jsstring) (config : ProviderConfig)
    (apiKey : jsstring) : Request :=
  {| rq_url := pc_endpoint config; rq_method := lit "POST";
     rq_headers := [ contentTypeJson;
                     (lit "x-api-key", apiKey);
                     (lit "anthropic-version", lit "2023-06-01") ];
     rq_body := Some (JObj [ (lit "model", JStr (pc_defaultModel config));
                             (lit "messages", chatMessages prompt);
                             (lit "max_tokens", numOfNat 500) ]) |}.

Section ProviderCalls.
Context {host : Host}.

(** The property names read below ([response], [choices], [message],
    [content], [text]) are on no built-in prototype either. *)

Definition sendOllamaPrompt (fetch : Network) (prompt : jsstring)
    (config : ProviderConfig) (stream : bool) : Completion PromptOutcome :=
  (response <- fetch (ollamaRequest prompt config stream) ;;
   if negb (rs_ok response) then
     Throw (Rejected (lit "Ollama request failed: "
                      ++ ofNat (rs_status response)))
   else if stream then Normal (Streamed response)
   else
     data <- JSON_parse (rs_body response) ;;
     text <- getProp data (lit "response") ;;
     Normal (Completed (jsOr text (JStr []))))%completion.

Definition sendOpenAICompatiblePrompt (fetch : Network) (prompt : jsstring)
    (config : ProviderConfig) (apiKey : jsstring)
  : Completion PromptOutcome :=
  (response <- fetch (openAIRequest prompt config apiKey) ;;
   if negb (rs_ok response) then
     Throw (Rejected (pc_name config ++ lit " request failed ("
                      ++ ofNat (rs_status response) ++ lit "): "
                      ++ rs_body response))
   else
     data <- JSON_parse (rs_body response) ;;
     choices <- getProp data (lit "choices") ;;
     choice <- getFirst choices ;;
     message <- getProp choice (lit "message") ;;
     content <- getProp message (lit "content") ;;
     Normal (Completed content))%completion.

Definition sendAnthropicPrompt (fetch : Network) (prompt : jsstring)
    (config : ProviderConfig) (apiKey : jsstring)
  : Completion PromptOutcome :=
  (response <- fetch (anthropicRequest prompt config apiKey) ;;
   if negb (rs_ok response) then
     Throw (Rejected (lit "Anthropic request failed ("
                      ++ ofNat (rs_status response) ++ lit "): "
                      ++ rs_body response))
   else
     data <- JSON_parse (rs_body response) ;;
     content <- getProp data (lit "content") ;;
     block <- getFirst content ;;
     text <- getProp block (lit "text") ;;
     Normal (Completed text))%completion.

(** [sendPrompt]; its name in the source is the field of [ScanEnv] through
    which the handler calls it. *)
Definition sendPromptTo (fetch : Network) (stored : Completion StoredSettings)
    (prompt : jsstring) (stream : bool) : Completion PromptOutcome :=
  let settings := getProviderSettings stored in
  match ps_provider settings with
  | ollama => sendOllamaPrompt fetch prompt (ps_config settings) stream
  | anthropic =>
      sendAnthropicPrompt fetch prompt (ps_config settings) (ps_apiKey settings)
  | _ =>
      sendOpenAICompatiblePrompt fetch prompt (ps_config settings)
                                 (ps_apiKey settings)
  end.

(** The request [sendPrompt] makes. *)
Definition promptRequest (stored : Completion StoredSettings)
    (prompt : jsstring) (stream : bool) : Request :=
  let settings := getProviderSettings stored in
  match ps_provider settings with
  | ollama => ollamaRequest prompt (ps_config settings) stream
  | anthropic =>
      anthropicRequest prompt (ps_config settings) (ps_apiKey settings)
  | _ => openAIRequest prompt (ps_config settings) (ps_apiKey settings)
  end.

(** A scan environment whose provider is the one of the stored settings,
    reached through [fetch]; the handler calls [sendPrompt(prompt, false)].
    A streamed response, which that call never yields, is an object. *)
Definition withProvider (fetch : Network) (stored : Completion StoredSettings)
    (base : ScanEnv) : ScanEnv :=
  {| findActiveGmailTabId := findActiveGmailTabId base;
     requestInboxThreads := requestInboxThreads base;
     filterThreadsByDateAndLimit := filterThreadsByDateAndLimit base;
     sendPrompt := fun prompt =>
       match sendPromptTo fetch stored prompt false with
       | Normal (Completed text) => Normal text
       | Normal (Streamed _) => Normal (JObj [])
       | Throw e => Throw e
       end |}.

End ProviderCalls.

(** Networks for the worked examples: one that is unreachable, and one
    that answers every request with the same response. *)
Definition unreachable : Network :=
  fun _ => Throw (Rejected (lit "Failed to fetch")).

Definition answering (response : Response) : Network :=
  fun _ => Normal response.

(** A scan environment with the given threads for every tab; the filter
    keeps them all and the provider is not used. *)
Definition inboxOf (threads : list ThreadRecord) : ScanEnv :=
  {| findActiveGmailTabId := Some 1%N;
     requestInboxThreads := fun _ => threads;
     filterThreadsByDateAndLimit := fun ts => ts;
     sendPrompt := fun _ => Normal JNull |}.

(** ** content.js: [findUnsubscribeLink] *)

(** An [a] element of the page: whether [a[rel~="unsubscribe"]] and
    [a[href]] select it, its [href] property (empty without the attribute)
    and its text. *)
Record PageAnchor : Type := mkPageAnchor {
  pa_relUnsubscribe : bool;
  pa_hasHref : bool;
  pa_href : jsstring;
  pa_textContent : jsstring
}.

(** A literal searched under the [i] flag. *)
Definition includesCI (p s : jsstring) : bool :=
  includes (map asciiLower p) (map asciiLower s).

(** [/\/unsubscribe|unsubscribe=true|list-unsubscribe/i.test(h)] *)
Definition hrefLooksLikeUnsubscribe (h : jsstring) : bool :=
  includesCI (lit "/unsubscribe") h
  || includesCI (lit "unsubscribe=true") h
  || includesCI (lit "list-unsubscribe") h.

Section Unsubscribe.
Context {host : Host}.

(** The test of the first loop. *)
Definition textSaysUnsubscribe (a : PageAnchor) : bool :=
  includesCI (lit "unsubscribe") (toLowerCase (trim (pa_textContent a))).

(** A loop [for (const a of anchors) if (test(a)) return a.href]. *)
Fixpoint firstHref (test : PageAnchor -> bool) (anchors : list PageAnchor)
  : option jsstring :=
  match anchors with
  | [] => None
  | a :: rest => if test a then Some (pa_href a) else firstHref test rest
  end.

(** [page] is the list of the [a] elements of the document, in order. *)
Definition findUnsubscribeLink (page : list PageAnchor) : option jsstring :=
  let relUnsub :=
    filter (fun h => negb (isEmpty h))
           (map pa_href (filter pa_relUnsubscribe page)) in
  match relUnsub with
  | first :: _ => Some first
  | [] =>
      let anchors := filter pa_hasHref page in
      match firstHref textSaysUnsubscribe anchors with
      | Some h => Some h
      | None =>
          firstHref (fun a => hrefLooksLikeUnsubscribe (pa_href a)) anchors
      end
  end.

End Unsubscribe.

(** ** popup.js: [formatLinkForDisplay] *)

Section LinkDisplay.
Context {host : Host}.
(** [new URL(url).pathname], the other part the function reads. *)
Variable urlPathname : jsstring -> jsstring.

Definition formatLinkForDisplay (url : jsstring) (maxLength : nat)
  : jsstring :=
  match urlHostname url with
  | Normal hostname =>
      let display := hostname ++ urlPathname url in
      if maxLength <? length display
      then firstn maxLength display ++ [8230%N]
      else display
  | Throw _ => lit "Open unsubscribe link"
  end.

End LinkDisplay.

(** ** content.js: [detectGmailContextContent] *)

Inductive GmailContext : Type := ctxNone | ctxEmail | ctxInbox.

Record ContextResult : Type := mkContext {
  cx_context : GmailContext;
  cx_reason : jsstring
}.

(** What the function reads of the page: the host name and the hash of the
    location, the [offsetHeight] of the message body if there is one, and
    the number of rows of the thread list. *)
Record GmailPage : Type := mkPage {
  pg_hostname : jsstring;
  pg_hash : jsstring;
  pg_messageBodyHeight : option nat;
  pg_emailRows : nat
}.

(** [s] without the literal [p] it starts with. *)
Fixpoint stripLit (p s : jsstring) : option jsstring :=
  match p, s with
  | [], _ => Some s
  | c :: p', d :: s' => if N.eqb c d then stripLit p' s' else None
  | _ :: _, [] => None
  end.

(** The first of the literals that [s] starts with, stripped. *)
Fixpoint stripAny (names : list jsstring) (s : jsstring) : option jsstring :=
  match names with
  | [] => None
  | n :: rest =>
      match stripLit n s with
      | Some r => Some r
      | None => stripAny rest s
      end
  end.

Definition isNotSlash (c : N) : bool := negb (N.eqb c 47).

(** [label\/[^/]+]: the rest after the label, whose characters run up to the
    next slash (a shorter run could not be followed by a slash). *)
Definition stripLabel (s : jsstring) : option jsstring :=
  match stripLit (lit "label/") s with
  | Some r =>
      match takeWhile isNotSlash r with
      | [] => None
      | name => Some (skipn (length name) r)
      end
  | None => None
  end.

Definition messageFolders : list jsstring :=
  map lit ["inbox"; "sent"; "drafts"; "spam"; "trash"]%string.

Definition listFolders : list jsstring :=
  map lit ["inbox"; "sent"; "drafts"; "spam"; "trash"; "starred";
           "important"; "snoozed"]%string.

Definition isAlnumChar (c : N) : bool :=
  isUpperAZ c || isLowerAZ c || isDigit c.

(** The group and what follows it in
    [(inbox|sent|drafts|spam|trash|label\/[^/]+)\/[A-Za-z0-9]+],
    right after a [#]. *)
Definition folderThenId (s : jsstring) : bool :=
  let afterFolder :=
    match stripAny messageFolders s with
    | Some r => Some r
    | None => stripLabel s
    end in
  match afterFolder with
  | Some (slash :: c :: _) => N.eqb slash 47 && isAlnumChar c
  | _ => false
  end.

(** [/#(inbox|sent|drafts|spam|trash|label\/[^/]+)\/[A-Za-z0-9]+/.test] *)
Fixpoint hashHasMessageId (hash : jsstring) : bool :=
  match hash with
  | [] => false
  | c :: rest =>
      (N.eqb c 35 && folderThenId rest) || hashHasMessageId rest
  end.

(** [/^#(inbox|...|snoozed|label\/[^/]+)$/.test] *)
Definition hashIsListView (hash : jsstring) : bool :=
  match hash with
  | c :: rest =>
      N.eqb c 35
      && (existsb (JsString.eqb rest) listFolders
          || match stripLit (lit "label/") rest with
             | Some name => negb (isEmpty name) && forallb isNotSlash name
             | None => false
             end)
  | [] => false
  end.

Definition detectGmailContextContent (page : GmailPage) : ContextResult :=
  if negb (includes (lit "mail.google.com") (pg_hostname page)) then
    {| cx_context := ctxNone; cx_reason := lit "not-gmail-host" |}
  else if hashHasMessageId (pg_hash page) then
    {| cx_context := ctxEmail; cx_reason := lit "url-message-id" |}
  else if hashIsListView (pg_hash page) then
    {| cx_context := ctxInbox; cx_reason := lit "url-list-view" |}
  else if match pg_messageBodyHeight page with
          | Some h => 100 <? h
          | None => false
          end then
    {| cx_context := ctxEmail; cx_reason := lit "message-body-detected" |}
  else if 3 <? pg_emailRows page then
    {| cx_context := ctxInbox; cx_reason := lit "email-list-detected" |}
  else
    {| cx_context := ctxNone; cx_reason := lit "unable-to-detect" |}.

(* ===================================================================== *)
(** * Part II. Properties                                                 *)
(* ===================================================================== *)

(** ** Edit scripts *)

Lemma edit_refl s : edit s s 0.
Proof. induction s; constructor; assumption. Qed.

Lemma edit_sym s t n : edit s t n -> edit t s n.
Proof. induction 1; constructor; assumption. Qed.

Lemma edit_app s t n s' t' m :
  edit s t n -> edit s' t' m -> edit (s ++ s') (t ++ t') (n + m).
Proof.
  intros H H'. induction H; simpl; try (constructor; assumption).
  assumption.
Qed.

Lemma edit_rev s t n : edit s t n -> edit (rev s) (rev t) n.
Proof.
  induction 1; simpl.
  - constructor.
  - replace n with (n + 0) by lia.
    apply edit_app; [assumption | apply edit_keep, edit_nil].
  - replace (S n) with (n + 1) by lia.
    apply edit_app; [assumption | apply edit_subst, edit_nil].
  - replace (S n) with (n + 1) by lia.
    rewrite <- (app_nil_r (rev t)).
    apply edit_app; [assumption | apply edit_delete, edit_nil].
  - replace (S n) with (n + 1) by lia.
    rewrite <- (app_nil_r (rev s)).
    apply edit_app; [assumption | apply edit_insert, edit_nil].
Qed.

(** Dropping the first character of the source costs at most one edit. *)
Lemma edit_drop_source c s t n :
  edit (c :: s) t n -> exists m, m <= S n /\ edit s t m.
Proof.
  intros H. remember (c :: s) as cs eqn:E. revert c s E.
  induction H; intros c0 s0 E; try discriminate.
  - injection E as -> ->. exists (S n). split; [lia | now apply edit_insert].
  - injection E as -> ->. exists (S n). split; [lia | now apply edit_insert].
  - injection E as -> ->. exists n. split; [lia | assumption].
  - destruct (IHedit _ _ E) as (m & Hm & He).
    exists (S m). split; [lia | now apply edit_insert].
Qed.

Lemma edit_drop_target d s t n :
  edit s (d :: t) n -> exists m, m <= S n /\ edit s t m.
Proof.
  intros H. apply edit_sym in H.
  destruct (edit_drop_source H) as (m & Hm & He).
  exists m. split; [assumption | now apply edit_sym].
Qed.

(** ** The recurrence computes the minimum *)

Lemma lev_nil_r s : lev s [] = length s.
Proof. destruct s; reflexivity. Qed.

Lemma lev_cons c s d t :
  lev (c :: s) (d :: t) =
  min3 (lev s t + (if N.eqb c d then 0 else 1))
       (S (lev s (d :: t)))
       (S (lev (c :: s) t)).
Proof. reflexivity. Qed.

Lemma lev_edit s t : edit s t (lev s t).
Proof.
  revert t. induction s as [|c s IHs]; intros t.
  - induction t as [|d t IHt]; simpl; [constructor | now apply edit_insert].
  - induction t as [|d t IHt].
    + rewrite lev_nil_r. simpl. apply edit_delete.
      specialize (IHs []). now rewrite lev_nil_r in IHs.
    + rewrite lev_cons. unfold min3.
      destruct (Nat.min_spec (lev s t + (if N.eqb c d then 0 else 1))
                  (Nat.min (S (lev s (d :: t))) (S (lev (c :: s) t))))
        as [[_ ->] | [_ ->]].
      * destruct (N.eqb_spec c d) as [-> | _].
        -- rewrite Nat.add_0_r. apply edit_keep, IHs.
        -- rewrite Nat.add_1_r. apply edit_subst, IHs.
      * destruct (Nat.min_spec (S (lev s (d :: t))) (S (lev (c :: s) t)))
          as [[_ ->] | [_ ->]].
        -- apply edit_delete, IHs.
        -- apply edit_insert, IHt.
Qed.

Lemma lev_le s t n : edit s t n -> lev s t <= n.
Proof.
  induction 1.
  - simpl. lia.
  - rewrite lev_cons, N.eqb_refl. unfold min3. lia.
  - rewrite lev_cons. unfold min3. destruct (N.eqb c d); lia.
  - destruct t as [|d t].
    + rewrite lev_nil_r in *. simpl. lia.
    + rewrite lev_cons. unfold min3. lia.
  - destruct s as [|c s].
    + simpl in *. lia.
    + rewrite lev_cons. unfold min3. lia.
Qed.

Lemma lev_editDistance s t : editDistance s t (lev s t).
Proof. split; [apply lev_edit | intros n; apply lev_le]. Qed.

Lemma editDistance_unique s t d d' :
  editDistance s t d -> editDistance s t d' -> d = d'.
Proof.
  intros [H1 H2] [H1' H2'].
  apply Nat.le_antisymm; [apply H2, H1' | apply H2', H1].
Qed.

Lemma lev_sym s t : lev s t = lev t s.
Proof.
  apply Nat.le_antisymm; apply lev_le, edit_sym, lev_edit.
Qed.

Lemma lev_rev s t : lev (rev s) (rev t) = lev s t.
Proof.
  apply Nat.le_antisymm.
  - apply lev_le, edit_rev, lev_edit.
  - pose proof (lev_le (edit_rev (lev_edit (rev s) (rev t)))) as H.
    now rewrite !rev_involutive in H.
Qed.

Lemma lev_refl s : lev s s = 0.
Proof. pose proof (lev_le (edit_refl s)). lia. Qed.

Lemma lev_drop_source c s t : lev s t <= S (lev (c :: s) t).
Proof.
  destruct (edit_drop_source (lev_edit (c :: s) t)) as (m & Hm & He).
  apply lev_le in He. lia.
Qed.

Lemma lev_drop_target d s t : lev s t <= S (lev s (d :: t)).
Proof.
  destruct (edit_drop_target (lev_edit s (d :: t))) as (m & Hm & He).
  apply lev_le in He. lia.
Qed.

(** The recurrence in the form the loop body has it. *)
Lemma lev_cell bc rb c ra :
  lev (bc :: rb) (c :: ra) =
  if N.eqb bc c then lev rb ra
  else min3 (lev rb ra + 1) (lev (bc :: rb) ra + 1) (lev rb (c :: ra) + 1).
Proof.
  rewrite lev_cons. unfold min3.
  pose proof (lev_drop_source bc rb (c :: ra)).
  pose proof (lev_drop_target c rb ra).
  pose proof (lev_drop_target c (bc :: rb) ra).
  pose proof (lev_drop_source bc rb ra).
  destruct (N.eqb bc c); lia.
Qed.

(** ** The matrix of [levenshtein] holds the distances of the prefixes *)

Lemma distRow_unfold rb ra rest :
  distRow rb ra rest =
  lev rb ra :: match rest with
               | [] => []
               | c :: rest' => distRow rb (c :: ra) rest'
               end.
Proof. destruct rest; reflexivity. Qed.

Lemma distRow_first_row ra rest :
  distRow [] ra rest = seq (length ra) (S (length rest)).
Proof.
  revert ra. induction rest as [|c rest IH]; intros ra.
  - reflexivity.
  - rewrite distRow_unfold, IH. reflexivity.
Qed.

Lemma fillRow_distRow bc rb rest : forall ra,
  fillRow bc rest (distRow rb ra rest) (lev (bc :: rb) ra) =
  tl (distRow (bc :: rb) ra rest).
Proof.
  induction rest as [|c rest IH]; intros ra.
  - reflexivity.
  - rewrite (distRow_unfold rb ra), (distRow_unfold rb (c :: ra)).
    cbn [fillRow].
    rewrite <- (distRow_unfold rb (c :: ra)).
    rewrite <- lev_cell.
    rewrite IH.
    rewrite (distRow_unfold (bc :: rb) ra). cbn [tl].
    rewrite (distRow_unfold (bc :: rb) (c :: ra)). reflexivity.
Qed.

Lemma nextRow_distRow bc rb a :
  nextRow (S (length rb)) bc a (distRow rb [] a) = distRow (bc :: rb) [] a.
Proof.
  unfold nextRow.
  replace (S (length rb)) with (lev (bc :: rb) []) by apply lev_nil_r.
  rewrite fillRow_distRow, (distRow_unfold (bc :: rb) []). reflexivity.
Qed.

Lemma fillMatrix_distRow a b : forall rb,
  fillMatrix a b (distRow rb [] a) (S (length rb)) =
  distRow (rev b ++ rb) [] a.
Proof.
  induction b as [|bc b IH]; intros rb.
  - reflexivity.
  - cbn [fillMatrix]. rewrite nextRow_distRow.
    change (S (S (length rb))) with (S (length (bc :: rb))).
    rewrite (IH (bc :: rb)). simpl rev. now rewrite <- app_assoc.
Qed.

Lemma last_distRow rb rest : forall ra,
  last (distRow rb ra rest) 0 = lev rb (rev rest ++ ra).
Proof.
  induction rest as [|c rest IH]; intros ra.
  - reflexivity.
  - rewrite distRow_unfold.
    change (last (lev rb ra :: distRow rb (c :: ra) rest) 0)
      with (match distRow rb (c :: ra) rest with
            | [] => lev rb ra
            | _ :: _ => last (distRow rb (c :: ra) rest) 0
            end).
    rewrite (distRow_unfold rb (c :: ra)).
    rewrite <- (distRow_unfold rb (c :: ra)).
    rewrite IH. simpl rev. now rewrite <- app_assoc.
Qed.

(** The last cell of the matrix for two strings. *)
Lemma matrix_last_cell a b :
  last (fillMatrix a b (seq 0 (S (length a))) 1) 0 = lev a b.
Proof.
  change (seq 0 (S (length a))) with (seq (length (@nil N)) (S (length a))).
  rewrite <- (distRow_first_row [] a).
  change 1 with (S (length (@nil N))).
  rewrite (fillMatrix_distRow a b []).
  rewrite last_distRow, !app_nil_r, lev_rev. apply lev_sym.
Qed.

Section LevenshteinFacts.
Context {host : Host}.

Lemma levenshtein_nonempty a b :
  a <> [] -> b <> [] ->
  levenshtein a b = lev (toLowerCase a) (toLowerCase b).
Proof.
  intros Ha Hb. unfold levenshtein.
  destruct a; [contradiction|]. destruct b; [contradiction|].
  cbn [isEmpty orb]. apply matrix_last_cell.
Qed.

Lemma levenshtein_empty_l b : levenshtein [] b = length b.
Proof. destruct b; reflexivity. Qed.

Lemma levenshtein_empty_r a : levenshtein a [] = length a.
Proof. destruct a; [reflexivity|]. unfold levenshtein. simpl. lia. Qed.

Lemma levenshtein_sym a b : levenshtein a b = levenshtein b a.
Proof.
  destruct a as [|c a].
  - now rewrite levenshtein_empty_l, levenshtein_empty_r.
  - destruct b as [|d b].
    + now rewrite levenshtein_empty_l, levenshtein_empty_r.
    + rewrite !levenshtein_nonempty by discriminate. apply lev_sym.
Qed.

Lemma levenshtein_same a : levenshtein a a = 0.
Proof.
  destruct a as [|c a]; [reflexivity|].
  rewrite levenshtein_nonempty by discriminate. apply lev_refl.
Qed.

Lemma levenshtein_lev a b :
  (a <> [] /\ b <> []) \/
  (length (toLowerCase a) = length a /\ length (toLowerCase b) = length b) ->
  levenshtein a b = lev (toLowerCase a) (toLowerCase b).
Proof.
  intros [[Ha Hb] | [Ha Hb]]; [now apply levenshtein_nonempty|].
  destruct a as [|c a].
  - rewrite levenshtein_empty_l.
    destruct (toLowerCase []); [|discriminate]. simpl. congruence.
  - destruct b as [|d b]; [|apply levenshtein_nonempty; discriminate].
    rewrite levenshtein_empty_r.
    destruct (toLowerCase []); [|discriminate].
    rewrite lev_nil_r. congruence.
Qed.

End LevenshteinFacts.

(** C4 (as amended). [levenshtein a b] is the classic edit distance (the
    minimum number of single-character insertions, deletions and
    substitutions) of the lower-cased inputs whenever both inputs are
    non-empty, or lower-casing leaves their lengths unchanged; an empty
    input is answered before any lower-casing, with the length of the other
    one as given.  For all strings [levenshtein a a = 0],
    [levenshtein a b = levenshtein b a], the distance of two empty strings is
    0 and [levenshtein "" b] is the length of [b]; and on the engine
    [levenshtein "Microsoft" "microsoft" = 0]. *)
Theorem levenshtein_edit_distance (host : Host) (a b : jsstring) :
  ((a <> [] /\ b <> []) \/
   (length (toLowerCase a) = length a /\ length (toLowerCase b) = length b) ->
   editDistance (toLowerCase a) (toLowerCase b) (levenshtein a b))
  /\ levenshtein a a = 0
  /\ levenshtein a b = levenshtein b a
  /\ levenshtein [] [] = 0
  /\ levenshtein [] b = length b
  /\ levenshtein (host := engine) (lit "Microsoft") (lit "microsoft") = 0.
Proof.
  split; [|split; [|split; [|split; [|split]]]].
  - intros H. rewrite (levenshtein_lev H). apply lev_editDistance.
  - apply levenshtein_same.
  - apply levenshtein_sym.
  - reflexivity.
  - apply levenshtein_empty_l.
  - vm_compute. reflexivity.
Qed.

(** The amended C4 at ["Kitten"] and ["sitting"], on the engine: the
    distance is 3 and no script is shorter. *)
Lemma levenshtein_edit_distance_witness :
  editDistance (toLowerCase (Host := engine) (lit "Kitten"))
               (toLowerCase (Host := engine) (lit "sitting"))
               (levenshtein (host := engine) (lit "Kitten") (lit "sitting"))
  /\ levenshtein (host := engine) (lit "Kitten") (lit "sitting") = 3.
Proof.
  split.
  - apply (proj1 (levenshtein_edit_distance engine (lit "Kitten") (lit "sitting"))).
    left. split; discriminate.
  - vm_compute. reflexivity.
Defined.

(** C4 as stated fails when one input is empty and lower-casing lengthens
    the other: for U+0130, whose lower case is the two units U+0069 U+0307,
    [levenshtein] answers 1 while the edit distance of the lower-cased
    inputs is 2. *)
Lemma levenshtein_dotted_capital_I :
  levenshtein (host := engine) [] [304%N] = 1
  /\ editDistance (toLowerCase (Host := engine) [])
                  (toLowerCase (Host := engine) [304%N]) 2
  /\ ~ editDistance (toLowerCase (Host := engine) [])
                    (toLowerCase (Host := engine) [304%N])
                    (levenshtein (host := engine) [] [304%N]).
Proof.
  assert (E : editDistance (toLowerCase (Host := engine) [])
                (toLowerCase (Host := engine) [304%N]) 2)
    by apply (lev_editDistance [] [105%N; 775%N]).
  split; [reflexivity|]. split; [exact E|].
  intros H. pose proof (editDistance_unique H E) as D.
  vm_compute in D. discriminate.
Qed.

(** ** Lists in index order *)

Lemma StronglySorted_le_app (l1 l2 : list nat) :
  StronglySorted le l1 -> StronglySorted le l2 ->
  (forall x y, In x l1 -> In y l2 -> x <= y) ->
  StronglySorted le (l1 ++ l2).
Proof.
  intros H1 H2 H. induction H1 as [|x l1 Hs IH Hx]; simpl.
  - assumption.
  - constructor.
    + apply IH. intros a b Ha Hb. apply H; [now right | assumption].
    + apply Forall_app. split; [assumption|].
      apply Forall_forall. intros y Hy. apply H; [now left | assumption].
Qed.

Lemma StronglySorted_le_constant (i : nat) (l : list nat) :
  Forall (fun x => x = i) l -> StronglySorted le l.
Proof.
  induction 1 as [|x l Hx Hl IH]; constructor.
  - assumption.
  - subst x. eapply Forall_impl; [|exact Hl]. intros y ->. lia.
Qed.

(** ** The thread analyzer *)

Section BrandSpoofFacts.
Context {host : Host}.

Lemma tldFindings_pushed i t domain :
  Forall (pushedBy i t) (tldFindings i t domain).
Proof.
  unfold tldFindings. destruct (isEmpty domain); [constructor|].
  destruct (find _ suspiciousTLDs); constructor; [|constructor].
  repeat split.
Qed.

Lemma typoFinding_pushed i t token brand :
  Forall (pushedBy i t) (typoFinding i t token brand).
Proof.
  unfold typoFinding.
  destruct (_ || _); [constructor|].
  destruct (_ && _); constructor; [|constructor].
  repeat split.
Qed.

Lemma typoFindings_pushed i t tokens :
  Forall (pushedBy i t) (typoFindings i t tokens).
Proof.
  unfold typoFindings. apply Forall_flat_map, Forall_forall. intros token _.
  apply Forall_flat_map, Forall_forall. intros brand _.
  apply typoFinding_pushed.
Qed.

Lemma threadFindings_pushed i t :
  Forall (pushedBy i t) (threadFindings i t).
Proof.
  unfold threadFindings. apply Forall_app. split.
  - apply tldFindings_pushed.
  - apply typoFindings_pushed.
Qed.

(** Every finding of the loop started at [i] names a thread of the list,
    by its position counted from [i]. *)
Lemma inboxLoop_pushed threads : forall i,
  Forall (fun f => exists t,
            i <= tf_index f
            /\ nth_error threads (tf_index f - i) = Some t
            /\ pushedBy (tf_index f) t f)
         (inboxLoop i threads).
Proof.
  induction threads as [|t rest IH]; intros i; simpl.
  - constructor.
  - apply Forall_app. split.
    + eapply Forall_impl; [|apply threadFindings_pushed].
      intros f Hf. exists t. unfold pushedBy in *.
      destruct Hf as (E & Hs & Hj & Hst). rewrite E, Nat.sub_diag.
      repeat split; auto.
    + eapply Forall_impl; [|apply (IH (S i))].
      intros f (u & Hi & Hn & Hp). exists u. repeat split; try lia; try apply Hp.
      replace (tf_index f - i) with (S (tf_index f - S i)) by lia.
      exact Hn.
Qed.

Lemma inboxLoop_sorted threads : forall i,
  StronglySorted le (map tf_index (inboxLoop i threads)).
Proof.
  induction threads as [|t rest IH]; intros i; simpl.
  - constructor.
  - rewrite map_app. apply StronglySorted_le_app.
    + apply StronglySorted_le_constant with (i := i).
      apply Forall_map. eapply Forall_impl; [|apply threadFindings_pushed].
      intros f Hf. apply Hf.
    + apply IH.
    + intros x y Hx Hy.
      apply in_map_iff in Hx as (f & <- & Hf).
      apply in_map_iff in Hy as (g & <- & Hg).
      pose proof (threadFindings_pushed i t) as P.
      rewrite Forall_forall in P. destruct (P f Hf) as (-> & _).
      pose proof (inboxLoop_pushed rest (S i)) as Q.
      rewrite Forall_forall in Q. destruct (Q g Hg) as (u & Hi & _). lia.
Qed.

Lemma inboxLoop_strong threads i :
  forallb isStrongThreadFinding (inboxLoop i threads) = true.
Proof.
  apply forallb_forall. intros f Hf.
  pose proof (inboxLoop_pushed threads i) as P.
  rewrite Forall_forall in P. destruct (P f Hf) as (u & _ & _ & Hp).
  apply Hp.
Qed.

(** The verdict, by cases on the findings of the loop. *)
Lemma analyzeInboxLocally_cases threads :
  (inboxLoop 0 threads = []
   /\ analyzeInboxLocally threads =
      {| iv_level := safe;
         iv_detail := lit "Checks out! " ++ [9989%N];
         iv_findings := [] |})
  \/ (inboxLoop 0 threads <> []
      /\ iv_level (analyzeInboxLocally threads) = danger
      /\ iv_findings (analyzeInboxLocally threads) = inboxLoop 0 threads).
Proof.
  unfold analyzeInboxLocally.
  pose proof (inboxLoop_strong threads 0) as S.
  destruct (inboxLoop 0 threads) as [|f fs] eqn:E.
  - left. split; reflexivity.
  - right. split; [discriminate|].
    cbn [length Nat.eqb iv_level iv_findings].
    cbn [forallb] in S. apply andb_prop in S as [Sf _].
    cbn [existsb]. rewrite Sf. split; reflexivity.
Qed.

Lemma analyzeInboxLocally_findings threads :
  iv_findings (analyzeInboxLocally threads) = inboxLoop 0 threads.
Proof.
  destruct (analyzeInboxLocally_cases threads) as [[E ->] | (_ & _ & E)].
  - now rewrite E.
  - exact E.
Qed.

End BrandSpoofFacts.

(** ** The link analyzer *)

Section LinkDeceptionFacts.
Context {host : Host}.

Lemma linkFindings_cases i l :
  (linkIndicators l = [] /\ linkFindings i l = [])
  \/ (linkIndicators l <> []
      /\ linkFindings i l =
         [ {| lf_index := i; lf_href := href l; lf_text := text l;
              lf_reason := join (lit "; ") (linkIndicators l);
              lf_indicators := linkIndicators l |} ]).
Proof.
  unfold linkFindings. destruct (linkIndicators l) as [|x xs].
  - left. split; reflexivity.
  - right. split; [discriminate | reflexivity].
Qed.

Lemma linkLoop_app l1 : forall i l2,
  linkLoop i (l1 ++ l2) = linkLoop i l1 ++ linkLoop (i + length l1) l2.
Proof.
  induction l1 as [|l l1 IH]; intros i l2; simpl.
  - now rewrite Nat.add_0_r.
  - rewrite IH, <- app_assoc. do 3 f_equal. lia.
Qed.

Lemma linkLoop_indicators links : forall i,
  map lf_indicators (linkLoop i links) = flaggedIndicators links.
Proof.
  unfold flaggedIndicators.
  induction links as [|l rest IH]; intros i; simpl.
  - reflexivity.
  - rewrite map_app, IH.
    destruct (linkFindings_cases i l) as [[E ->] | [E ->]].
    + rewrite E. reflexivity.
    + destruct (linkIndicators l); [contradiction | reflexivity].
Qed.

(** Every finding of the loop started at [i] names a link of the list, by
    its position counted from [i]. *)
Lemma linkLoop_pushed links : forall i,
  Forall (fun f => exists l,
            i <= lf_index f
            /\ nth_error links (lf_index f - i) = Some l
            /\ lf_href f = href l /\ lf_text f = text l
            /\ lf_indicators f = linkIndicators l)
         (linkLoop i links).
Proof.
  induction links as [|l rest IH]; intros i; simpl.
  - constructor.
  - apply Forall_app. split.
    + destruct (linkFindings_cases i l) as [[_ ->] | [_ ->]].
      * constructor.
      * constructor; [|constructor]. exists l. simpl.
        rewrite Nat.sub_diag. repeat split. lia.
    + eapply Forall_impl; [|apply (IH (S i))].
      intros f (u & Hi & Hn & Hrest). exists u.
      split; [lia|]. split; [|exact Hrest].
      replace (lf_index f - i) with (S (lf_index f - S i)) by lia.
      exact Hn.
Qed.

Lemma linkLoop_sorted links : forall i,
  StronglySorted le (map lf_index (linkLoop i links)).
Proof.
  induction links as [|l rest IH]; intros i; simpl.
  - constructor.
  - rewrite map_app. apply StronglySorted_le_app.
    + destruct (linkFindings_cases i l) as [[_ ->] | [_ ->]];
        repeat constructor.
    + apply IH.
    + intros x y Hx Hy.
      apply in_map_iff in Hy as (g & <- & Hg).
      pose proof (linkLoop_pushed rest (S i)) as Q.
      rewrite Forall_forall in Q. destruct (Q g Hg) as (u & Hi & _).
      destruct (linkFindings_cases i l) as [[_ E] | [_ E]];
        rewrite E in Hx; simpl in Hx; [contradiction|].
      destruct Hx as [<- | []]. lia.
Qed.

Lemma scoreLinks_cases found :
  scoreLinks found =
  match map lf_indicators found with
  | [] => safe
  | [ind] => if escalates ind then danger else warning
  | _ :: _ :: _ => danger
  end.
Proof. destruct found as [|f [|g rest]]; reflexivity. Qed.

Lemma httpIndicator_prefix h :
  httpIndicator h =
  if startsWith (lit "http://") h then [ind_http] else [].
Proof. unfold httpIndicator. destruct h; reflexivity. Qed.

(** Without a parsed host only the prefix test on the raw [href] is left. *)
Lemma linkIndicators_no_host l :
  hostnameOrEmpty (href l) = [] ->
  linkIndicators l = httpIndicator (href l).
Proof.
  intros E. unfold linkIndicators. rewrite E.
  assert (M : mismatchIndicator [] (text l) = []).
  { unfold mismatchIndicator. destruct (firstUrlLike (text l)); [|reflexivity].
    cbn [isEmpty negb]. now rewrite andb_false_r. }
  rewrite M. reflexivity.
Qed.

Lemma hostnameOrEmpty_throw u e :
  urlHostname u = Throw e -> hostnameOrEmpty u = [].
Proof. intros E. unfold hostnameOrEmpty. now rewrite E. Qed.

End LinkDeceptionFacts.

(** C2. The level of the link scan is decided by the links that produce a
    finding (those whose indicator array is not empty): two or more give
    [danger]; exactly one gives [danger] when its indicators include
    known-malicious, shortener or text-URL mismatch and [warning] otherwise;
    none gives [safe] with no findings, which is also the verdict of the
    empty list.  The verdict handed to the popup carries the same level. *)
Theorem link_aggregate_scoring (host : Host) (links : list LinkRecord) :
  map lf_indicators (suspiciousLinks (analyzeUrlDeception links))
  = flaggedIndicators links
  /\ threatLevel (analyzeUrlDeception links)
     = match flaggedIndicators links with
       | [] => safe
       | [ind] => if escalates ind then danger else warning
       | _ :: _ :: _ => danger
       end
  /\ lv_level (analyzeLinks links) = threatLevel (analyzeUrlDeception links)
  /\ analyzeUrlDeception [] =
     {| suspiciousLinks := []; threatLevel := safe; analyzed := 0 |}
  /\ lv_links (analyzeLinks []) = [].
Proof.
  split; [|split; [|split; [|split]]].
  - apply linkLoop_indicators.
  - unfold analyzeUrlDeception. cbn [threatLevel].
    rewrite scoreLinks_cases. now rewrite linkLoop_indicators.
  - unfold analyzeLinks, linkVerdict. cbn [lv_level].
    unfold analyzeUrlDeception. cbn [threatLevel].
    rewrite scoreLinks_cases.
    destruct (map lf_indicators (linkLoop 0 links)) as [|x [|y r]];
      try reflexivity.
    destruct (escalates x); reflexivity.
  - reflexivity.
  - reflexivity.
Qed.

(** C3 (as amended). A thread verdict of level [danger] has a finding that
    carries [suspicious-tld] or [typosquatting]; a link verdict of level
    [danger] has either two or more findings, whatever their indicators, or
    a single finding whose indicators include known-malicious, shortener or
    text-URL mismatch. *)
Theorem danger_needs_strong_or_two (host : Host) :
  (forall threads,
      iv_level (analyzeInboxLocally threads) = danger ->
      exists f, In f (iv_findings (analyzeInboxLocally threads))
                /\ isStrongThreadFinding f = true)
  /\ (forall links,
         threatLevel (analyzeUrlDeception links) = danger ->
         2 <= length (suspiciousLinks (analyzeUrlDeception links))
         \/ exists f, suspiciousLinks (analyzeUrlDeception links) = [f]
                      /\ hasEscalatingIndicator f = true).
Proof.
  split.
  - intros threads D.
    destruct (analyzeInboxLocally_cases threads) as [[_ E] | (N & _ & E)].
    + rewrite E in D. discriminate.
    + rewrite E. pose proof (inboxLoop_strong threads 0) as S.
      destruct (inboxLoop 0 threads) as [|f fs]; [contradiction|].
      exists f. split; [now left|].
      cbn [forallb] in S. now apply andb_prop in S.
  - intros links. unfold analyzeUrlDeception. cbn [threatLevel suspiciousLinks].
    destruct (linkLoop 0 links) as [|f [|g rest]]; cbn.
    + discriminate.
    + destruct (hasEscalatingIndicator f) eqn:E; [|discriminate].
      intros _. right. exists f. now split.
    + intros _. left. lia.
Qed.

(** The amended C3 on the engine: a sender under [.tk], and a link to a
    shortener. *)
Lemma danger_needs_strong_or_two_witness :
  (exists f, In f (iv_findings (analyzeInboxLocally (host := engine)
                                 [threadOf "billing@pay-service.tk" "invoice"]))
             /\ isStrongThreadFinding f = true)
  /\ (2 <= length (suspiciousLinks (analyzeUrlDeception (host := engine)
                     [mkLink (lit "https://bit.ly/abc") (lit "Click here")]))
      \/ exists f, suspiciousLinks (analyzeUrlDeception (host := engine)
                     [mkLink (lit "https://bit.ly/abc") (lit "Click here")])
                   = [f]
                   /\ hasEscalatingIndicator f = true).
Proof.
  split.
  - apply (proj1 (danger_needs_strong_or_two engine)). vm_compute. reflexivity.
  - apply (proj2 (danger_needs_strong_or_two engine)). vm_compute. reflexivity.
Defined.

(** C3 as stated fails for links: two links that each carry only the weak
    indicator "uses http (not https)" give [danger], and no finding has one
    of the escalating indicators. *)
Lemma two_http_links_reach_danger :
  let links := [ mkLink (lit "http://a.example/") (lit "first");
                 mkLink (lit "http://b.example/") (lit "second") ] in
  let verdict := analyzeUrlDeception (host := engine) links in
  threatLevel verdict = danger
  /\ map lf_indicators (suspiciousLinks verdict) = [[ind_http]; [ind_http]]
  /\ ~ exists f, In f (suspiciousLinks verdict)
                 /\ hasEscalatingIndicator f = true.
Proof.
  cbv zeta. split; [vm_compute; reflexivity|].
  split; [vm_compute; reflexivity|].
  intros (f & Hin & He).
  assert (A : forallb (fun f => negb (hasEscalatingIndicator f))
                (suspiciousLinks (analyzeUrlDeception (host := engine)
                   [ mkLink (lit "http://a.example/") (lit "first");
                     mkLink (lit "http://b.example/") (lit "second") ]))
              = true) by (vm_compute; reflexivity).
  rewrite forallb_forall in A. specialize (A f Hin).
  rewrite He in A. discriminate.
Qed.

(** C5 (as amended). A (token, brand) pair is flagged, with the tags
    [typosquatting] and [similar-to-<brand>], exactly when both have at
    least 4 characters and the distance [d] of the token from the brand
    satisfies [0 < d <= max(1, floor(brand_length * 0.2))].  Under that rule
    the token "rnicrosoft" does not qualify against "microsoft": its
    distance is 2 and the threshold for a brand of 9 characters is 1; the
    record [{sender: "support@rnicrosoft-security.com", subject: "verify"}]
    gets the verdict [safe] with no findings.  A token at distance 1, such
    as "micros0ft", is flagged. *)
Theorem typosquatting_rule_and_scenario :
  (forall (host : Host) i t token brand,
      map tf_indicators (typoFinding i t token brand) =
      let d := levenshtein (filter isLowerAlnum token) brand in
      if (4 <=? length brand) && (4 <=? length token)
         && (0 <? d) && (d <=? Nat.max 1 (length brand / 5))
      then [[tag_typosquatting; tag_similar_to brand]]
      else [])
  /\ levenshtein (host := engine) (lit "rnicrosoft") (lit "microsoft") = 2
  /\ typoThreshold (lit "microsoft") = 1
  /\ analyzeInboxLocally (host := engine)
       [threadOf "support@rnicrosoft-security.com" "verify"]
     = {| iv_level := safe;
          iv_detail := lit "Checks out! " ++ [9989%N];
          iv_findings := [] |}
  /\ map tf_indicators
       (iv_findings (analyzeInboxLocally (host := engine)
          [threadOf "support@micros0ft-security.com" "verify"]))
     = [[tag_typosquatting; tag_similar_to (lit "microsoft")]].
Proof.
  split; [|split; [|split; [|split]]]; try (vm_compute; reflexivity).
  intros host i t token brand. unfold typoFinding, typoThreshold. cbv zeta.
  destruct (Nat.ltb_spec (length brand) 4), (Nat.leb_spec 4 (length brand));
    try lia;
    destruct (Nat.ltb_spec (length token) 4), (Nat.leb_spec 4 (length token));
    try lia; cbn [orb andb]; try reflexivity.
  destruct (_ && _); reflexivity.
Qed.

(** C5 as stated fails: the verdict for the record of the scenario has no
    finding tagged [typosquatting] with [similar-to-microsoft]. *)
Lemma rnicrosoft_is_not_flagged :
  ~ exists f,
      In f (iv_findings (analyzeInboxLocally (host := engine)
              [threadOf "support@rnicrosoft-security.com" "verify"]))
      /\ arrayIncludes tag_typosquatting (tf_indicators f) = true
      /\ arrayIncludes (tag_similar_to (lit "microsoft")) (tf_indicators f)
         = true.
Proof.
  intros (f & Hin & _).
  assert (E : iv_findings (analyzeInboxLocally (host := engine)
                [threadOf "support@rnicrosoft-security.com" "verify"]) = [])
    by (vm_compute; reflexivity).
  rewrite E in Hin. contradiction.
Qed.

(** C6 (as amended). When the [href] of a link fails URL parsing the scan
    goes on, and the link gets no indicator from the checks made on the
    parsed host: text-URL mismatch, shortener, known-malicious and the
    auth-related subdomain pattern.  Only the test for the [http://] prefix
    is made on the raw [href]. *)
Theorem malformed_url_degradation (host : Host) (l : LinkRecord) (e : JsError) :
  urlHostname (href l) = Throw e ->
  linkIndicators l
  = (if startsWith (lit "http://") (href l) then [ind_http] else [])
  /\ forall before after,
       suspiciousLinks (analyzeUrlDeception (before ++ l :: after))
       = linkLoop 0 before ++ linkFindings (length before) l
         ++ linkLoop (S (length before)) after.
Proof.
  intros E. split.
  - rewrite linkIndicators_no_host by (eapply hostnameOrEmpty_throw; eassumption).
    apply httpIndicator_prefix.
  - intros before after. unfold analyzeUrlDeception. cbn [suspiciousLinks].
    rewrite linkLoop_app. reflexivity.
Qed.

(** The amended C6 on the engine, for an [href] whose port is out of
    range, between two other links. *)
Lemma malformed_url_degradation_witness :
  urlHostname (Host := engine) (lit "http://bit.ly:99999/x") = Throw TypeError
  /\ linkIndicators (host := engine)
       (mkLink (lit "http://bit.ly:99999/x") (lit "offer")) = [ind_http]
  /\ map lf_index
       (suspiciousLinks (analyzeUrlDeception (host := engine)
          ([mkLink (lit "https://example.com/") (lit "home")]
           ++ mkLink (lit "http://bit.ly:99999/x") (lit "offer")
           :: [mkLink (lit "https://tinyurl.com/y") (lit "more")])))
     = [1; 2].
Proof.
  assert (E : urlHostname (Host := engine) (lit "http://bit.ly:99999/x")
              = Throw TypeError) by (vm_compute; reflexivity).
  destruct (@malformed_url_degradation engine
              (mkLink (lit "http://bit.ly:99999/x") (lit "offer"))
              TypeError E) as [H1 H2].
  split; [exact E|]. split.
  - rewrite H1. reflexivity.
  - rewrite H2. vm_compute. reflexivity.
Defined.

(** C6 as stated fails: an [href] that does not parse and contains the
    shortener name [bit.ly] gets no shortener indicator, and one that
    contains the known-bad name [malware.example] gets no known-malicious
    indicator. *)
Lemma unparsed_href_skips_substring_checks :
  urlHostname (Host := engine) (lit "http://bit.ly:99999/x") = Throw TypeError
  /\ includes (lit "bit.ly") (lit "http://bit.ly:99999/x") = true
  /\ arrayIncludes ind_shortener
       (linkIndicators (host := engine)
          (mkLink (lit "http://bit.ly:99999/x") (lit "offer"))) = false
  /\ urlHostname (Host := engine) (lit "malware.example/get") = Throw TypeError
  /\ includes (lit "malware.example") (lit "malware.example/get") = true
  /\ linkIndicators (host := engine)
       (mkLink (lit "malware.example/get") (lit "download")) = [].
Proof. repeat split; vm_compute; reflexivity. Qed.

(** C7. When the thread analyzer has findings its level is [danger] if one
    of them carries [suspicious-tld] or [typosquatting] and [warning]
    otherwise; every finding it produces carries one of the two, so the
    level is [danger] whenever there is a finding, [safe] when there is
    none, and never [warning]. *)
Theorem inbox_findings_mean_danger (host : Host) (threads : list ThreadRecord) :
  let verdict := analyzeInboxLocally threads in
  iv_level verdict
  = match iv_findings verdict with
    | [] => safe
    | _ :: _ =>
        if existsb isStrongThreadFinding (iv_findings verdict)
        then danger else warning
    end
  /\ forallb isStrongThreadFinding (iv_findings verdict) = true
  /\ iv_level verdict
     = match iv_findings verdict with [] => safe | _ :: _ => danger end
  /\ iv_level verdict <> warning.
Proof.
  cbv zeta. pose proof (inboxLoop_strong threads 0) as S.
  destruct (analyzeInboxLocally_cases threads) as [[_ ->] | (N & L & F)].
  - cbn. repeat split. discriminate.
  - rewrite L, F.
    destruct (inboxLoop 0 threads) as [|f fs]; [contradiction|].
    cbn [forallb] in S. pose proof S as S'. apply andb_prop in S' as [Sf _].
    cbn [existsb]. rewrite Sf. cbn [orb].
    repeat split; [exact S | discriminate].
Qed.

(** C10. In the verdicts of both local analyzers the index of every finding
    is a position of the input list, the finding repeats the fields of the
    record at that position, and the indices never decrease along the
    findings. *)
Theorem finding_indices_valid_and_ordered (host : Host) :
  (forall links,
      let found := suspiciousLinks (analyzeUrlDeception links) in
      Forall (fun f => lf_index f < length links
                       /\ exists l, nth_error links (lf_index f) = Some l
                                    /\ lf_href f = href l
                                    /\ lf_text f = text l) found
      /\ StronglySorted le (map lf_index found))
  /\ (forall threads,
         let found := iv_findings (analyzeInboxLocally threads) in
         Forall (fun f => tf_index f < length threads
                          /\ exists t, nth_error threads (tf_index f) = Some t
                                       /\ tf_sender f = sender t
                                       /\ tf_subject f = subject t) found
         /\ StronglySorted le (map tf_index found)).
Proof.
  split.
  - intros links. cbv zeta. unfold analyzeUrlDeception. cbn [suspiciousLinks].
    split; [|apply linkLoop_sorted].
    eapply Forall_impl; [|apply (linkLoop_pushed links 0)].
    intros f (l & _ & Hn & Hh & Ht & _). rewrite Nat.sub_0_r in Hn.
    split.
    + apply nth_error_Some. congruence.
    + exists l. auto.
  - intros threads. cbv zeta. rewrite analyzeInboxLocally_findings.
    split; [|apply inboxLoop_sorted].
    eapply Forall_impl; [|apply (inboxLoop_pushed threads 0)].
    intros f (t & _ & Hn & _ & Hs & Hj & _). rewrite Nat.sub_0_r in Hn.
    split.
    + apply nth_error_Some. congruence.
    + exists t. auto.
Qed.

(** ** The response normalizer *)

Lemma upToLastClose_none s :
  Forall (fun c => c <> 125%N) s -> upToLastClose s = None.
Proof.
  induction 1 as [|c s Hc Hs IH]; simpl.
  - reflexivity.
  - rewrite IH. destruct (N.eqb_spec c 125); [contradiction | reflexivity].
Qed.

Lemma upToLastClose_last body suffix :
  Forall (fun c => c <> 125%N) suffix ->
  upToLastClose (body ++ 125%N :: suffix) = Some (body ++ [125%N]).
Proof.
  intros H. induction body as [|c body IH]; simpl.
  - now rewrite (upToLastClose_none H).
  - now rewrite IH.
Qed.

Lemma matchBraces_first prefix rest :
  Forall (fun c => c <> 123%N) prefix ->
  matchBraces (prefix ++ 123%N :: rest) =
  match upToLastClose rest with
  | Some m => Some (123%N :: m)
  | None => matchBraces rest
  end.
Proof.
  induction 1 as [|c prefix Hc Hp IH]; simpl.
  - reflexivity.
  - destruct (N.eqb_spec c 123); [contradiction | exact IH].
Qed.

(** The match runs from the first opening brace to the last closing one. *)
Lemma matchBraces_span prefix body suffix :
  Forall (fun c => c <> 123%N) prefix ->
  Forall (fun c => c <> 125%N) suffix ->
  matchBraces (prefix ++ (123%N :: body ++ [125%N]) ++ suffix)
  = Some (123%N :: body ++ [125%N]).
Proof.
  intros Hp Hs.
  change ((123%N :: body ++ [125%N]) ++ suffix)
    with (123%N :: (body ++ [125%N]) ++ suffix).
  rewrite (matchBraces_first _ Hp), <- app_assoc.
  cbn [app]. now rewrite (upToLastClose_last _ Hs).
Qed.

Section NormalizerFacts.
Context {host : Host}.

Lemma parseAIResponse_total response :
  parseAIResponse response =
  Normal (match JSON_parse (jsonCandidate response) with
          | Normal v => v
          | Throw _ => errorResult response
          end).
Proof.
  unfold parseAIResponse, jsonCandidate.
  destruct (matchBraces response) as [m|];
    [destruct (JSON_parse m) | destruct (JSON_parse response)]; reflexivity.
Qed.

Lemma getProp_truthy parsed k :
  truthy parsed = true -> exists v, getProp parsed k = Normal v.
Proof.
  unfold getProp.
  destruct parsed as [| |b|d|s|items|props]; try discriminate; intros _;
    eauto.
  - destruct (eqb k (lit "length")); eauto.
  - destruct (eqb k (lit "length")); eauto.
  - destruct (lookupProp k props); eauto.
Qed.

(** Whatever the provider answered, lines 88-121 end in a response. *)
Lemma classifyFiltered_total env filtered :
  exists r, classifyFiltered env filtered = Normal r.
Proof.
  unfold classifyFiltered.
  set (llm := match sendPrompt env (inboxThreatPrompt filtered) with
              | Normal v => v
              | Throw _ => JNull
              end).
  assert (P : exists parsed,
             match llm with
             | JStr s => if negb (isEmpty (trim s)) then parseAIResponse s
                         else Normal JNull
             | _ => Normal JNull
             end = Normal parsed).
  { destruct llm; eauto.
    destruct (negb (isEmpty (trim s))); eauto.
    rewrite parseAIResponse_total. eauto. }
  destruct P as (parsed & ->). cbn [bind].
  destruct (truthy parsed) eqn:T; cbn [negb]; [|eauto].
  destruct (getProp_truthy parsed (lit "error") T) as (err & ->). cbn [bind].
  destruct (truthy err); [eauto|].
  destruct (normalizeParsed parsed); cbn [tryCatch]; eauto.
Qed.

(** The fallback of the handler, once the threads are filtered. *)
Lemma classifyFiltered_fallback env filtered :
  (exists e, sendPrompt env (inboxThreatPrompt filtered) = Throw e)
  \/ (exists s, sendPrompt env (inboxThreatPrompt filtered) = Normal (JStr s)
                /\ parseAIResponse s = Normal (errorResult s)) ->
  classifyFiltered env filtered
  = Normal (RespLocal (analyzeInboxLocally filtered)).
Proof.
  unfold classifyFiltered. intros [(e & ->) | (s & -> & E)].
  - reflexivity.
  - destruct (negb (isEmpty (trim s))); [|reflexivity].
    rewrite E. reflexivity.
Qed.

End NormalizerFacts.

(** C8. [parseAIResponse] never throws: it returns the value [JSON.parse]
    gives for the text it located, and whenever [JSON.parse] throws it
    returns the tagged result, the object with exactly the properties
    [error: true], [message: "Could not parse AI response"] and [raw], the
    original text of the response (the whole of it, also when only a part
    was handed to [JSON.parse]).  Read back, the tagged result is truthy
    and its [error] is [true], which is what the caller tests.  Nor does a
    fault leave the inbox scan: its classification always ends in a
    response, never in the "scan failed" one. *)
Theorem parseAIResponse_never_throws (host : Host) (response : jsstring) :
  parseAIResponse response =
  Normal (match JSON_parse (jsonCandidate response) with
          | Normal v => v
          | Throw _ =>
              JObj [ (lit "error", JBool true);
                     (lit "message", JStr (lit "Could not parse AI response"));
                     (lit "raw", JStr response) ]
          end)
  /\ (forall e, JSON_parse (jsonCandidate response) = Throw e ->
        exists tagged,
          parseAIResponse response = Normal tagged
          /\ truthy tagged = true
          /\ getProp tagged (lit "error") = Normal (JBool true)
          /\ getProp tagged (lit "message")
             = Normal (JStr (lit "Could not parse AI response"))
          /\ getProp tagged (lit "raw") = Normal (JStr response))
  /\ (forall env filtered, exists r, classifyFiltered env filtered = Normal r)
  /\ (forall env tab err, scanInboxThreats env tab <> RespScanFailed err).
Proof.
  split; [exact (parseAIResponse_total response)|].
  split.
  { intros e E. eexists. split.
    - rewrite parseAIResponse_total, E. reflexivity.
    - repeat split. }
  split; [apply classifyFiltered_total|].
  intros env tab err. unfold scanInboxThreats.
  destruct (negb _); [discriminate|].
  destruct (Nat.eqb _ 0); [discriminate|].
  match goal with
  | |- context [classifyFiltered env ?f] =>
      destruct (classifyFiltered_total env f) as (r & E); rewrite E
  end.
  intros ->.
  unfold classifyFiltered in E.
  destruct (match sendPrompt env _ with Normal v => v | Throw _ => JNull end)
    as [| | | |s| |]; cbn [bind truthy negb] in E; try discriminate.
  destruct (negb (isEmpty (trim s))); cbn [bind truthy negb] in E;
    [|discriminate].
  rewrite parseAIResponse_total in E. cbn [bind] in E.
  destruct (truthy _) eqn:T in E; cbn [negb] in E; [|discriminate].
  match type of E with
  | context [getProp ?p ?k] =>
      destruct (getProp_truthy p k T) as (x & Ex); rewrite Ex in E
  end.
  cbn [bind] in E. destruct (truthy x); [discriminate|].
  match type of E with
  | context [normalizeParsed ?p] =>
      assert (N : forall q, normalizeParsed p <> Normal (RespScanFailed q))
  end.
  { intros q. unfold normalizeParsed.
    repeat match goal with
    | |- context [getProp ?p ?k] =>
        destruct (getProp_truthy p k T) as (? & ->); cbn [bind]
    end.
    match goal with
    | |- bind ?c _ <> _ => destruct c; cbn [bind]; discriminate
    end. }
  destruct (normalizeParsed _) as [r'|]; cbn [tryCatch] in E.
  - apply (N err). congruence.
  - discriminate.
Qed.

(** C9 (as amended). For a block that opens with a brace and closes with
    one, a prefix without an opening brace and a suffix without a closing
    brace, the normalizer hands the block itself to [JSON.parse], as it does
    for the block alone; when the block is well formed both calls return its
    parsed value.  The text located runs from the first opening brace to the
    last closing brace of the response. *)
Theorem extraction_ignores_brace_free_prose
    (host : Host) (prefix body suffix : jsstring) :
  Forall (fun c => c <> 123%N) prefix ->
  Forall (fun c => c <> 125%N) suffix ->
  let block := 123%N :: body ++ [125%N] in
  jsonCandidate (prefix ++ block ++ suffix) = block
  /\ jsonCandidate block = block
  /\ forall v, JSON_parse block = Normal v ->
               parseAIResponse (prefix ++ block ++ suffix) = Normal v
               /\ parseAIResponse block = Normal v.
Proof.
  intros Hp Hs block.
  assert (E1 : jsonCandidate (prefix ++ block ++ suffix) = block).
  { unfold jsonCandidate. subst block.
    now rewrite (matchBraces_span body Hp Hs). }
  assert (E2 : jsonCandidate block = block).
  { unfold jsonCandidate. subst block.
    pose proof (@matchBraces_span [] body [] (Forall_nil _) (Forall_nil _)) as M.
    cbn [app] in M. rewrite app_nil_r in M. now rewrite M. }
  split; [exact E1|]. split; [exact E2|].
  intros v Hv. rewrite !parseAIResponse_total, E1, E2, Hv. now split.
Qed.

(** The amended C9 on the engine: a verdict between two sentences. *)
Lemma extraction_ignores_brace_free_prose_witness :
  parseAIResponse (host := engine)
    (lit "Here is my analysis: "
     ++ (123%N :: litq "~threat_level~: ~warning~" ++ [125%N])
     ++ lit " Let me know if you need more.")
  = Normal (JObj [(lit "threat_level", JStr (lit "warning"))])
  /\ parseAIResponse (host := engine)
       (123%N :: litq "~threat_level~: ~warning~" ++ [125%N])
     = Normal (JObj [(lit "threat_level", JStr (lit "warning"))]).
Proof.
  refine (proj2 (proj2 (@extraction_ignores_brace_free_prose engine
            (lit "Here is my analysis: ")
            (litq "~threat_level~: ~warning~")
            (lit " Let me know if you need more.") _ _)) _ _).
  - repeat constructor; discriminate.
  - repeat constructor; discriminate.
  - vm_compute. reflexivity.
Defined.

(** C9 as stated fails when the prose has braces of its own: the block
    alone parses, while the same block after a sentence that mentions
    [{braces}] yields the tagged error result. *)
Lemma prose_with_braces_breaks_extraction :
  let block := 123%N :: litq "~threat_level~: ~warning~" ++ [125%N] in
  let prose := lit "Fields are in {braces}: " in
  parseAIResponse (host := engine) block
  = Normal (JObj [(lit "threat_level", JStr (lit "warning"))])
  /\ parseAIResponse (host := engine) (prose ++ block)
     = Normal (errorResult (prose ++ block))
  /\ parseAIResponse (host := engine) (prose ++ block)
     <> parseAIResponse (host := engine) block.
Proof.
  cbv zeta. split; [vm_compute; reflexivity|].
  split; [vm_compute; reflexivity|].
  vm_compute. discriminate.
Qed.

(** ** The hybrid decision *)

(** C1 (as amended). For every non-empty batch, when the prompt is rejected
    or the text obtained fails normalization, the decision is exactly the
    verdict of the local analyzer: the inbox scan answers with
    [analyzeInboxLocally] of the filtered threads, and the hybrid link
    classification with [analyzeLinks] of the links.  (An empty batch is
    answered [neutral] before any remote call.) *)
Theorem fallback_guarantee (host : Host) :
  (forall env tab threads,
      tab <> 0%N ->
      requestInboxThreads env tab = threads ->
      threads <> [] ->
      let filtered := filterThreadsByDateAndLimit env threads in
      (exists e, sendPrompt env (inboxThreatPrompt filtered) = Throw e)
      \/ (exists s, sendPrompt env (inboxThreatPrompt filtered) = Normal (JStr s)
                    /\ parseAIResponse s = Normal (errorResult s)) ->
      scanInboxThreats env (Some tab)
      = RespLocal (analyzeInboxLocally filtered))
  /\ (forall buildPrompt links submitPrompt,
         links <> [] ->
         (exists e, submitPrompt (buildPrompt links) = Throw e)
         \/ (exists s, submitPrompt (buildPrompt links) = Normal s
                       /\ parseAIResponse s = Normal (errorResult s)) ->
         classifyLinksHybrid buildPrompt links submitPrompt
         = HybridLocal (analyzeLinks links)).
Proof.
  split.
  - intros env tab threads Htab Hreq Hne filtered Hfail.
    unfold scanInboxThreats. cbv zeta.
    apply N.eqb_neq in Htab. rewrite !Htab. cbn [negb]. rewrite Hreq.
    destruct threads as [|t rest]; [contradiction|].
    cbn [length Nat.eqb].
    fold filtered. now rewrite (classifyFiltered_fallback env filtered Hfail).
  - intros buildPrompt links submitPrompt Hne [(e & E) | (s & E & P)];
      destruct links as [|l rest]; try contradiction;
      unfold classifyLinksHybrid; rewrite E; [reflexivity|].
    rewrite P. reflexivity.
Qed.

(** The amended C1 on the engine: one thread and a provider that is
    offline; one link and a completion without any structured block. *)
Lemma fallback_guarantee_witness :
  scanInboxThreats (host := engine)
    (offlineEnv [threadOf "billing@pay-service.tk" "invoice"]) (Some 7%N)
  = RespLocal (analyzeInboxLocally (host := engine)
                 [threadOf "billing@pay-service.tk" "invoice"])
  /\ classifyLinksHybrid (host := engine) (fun _ => lit "Analyze these links")
       [mkLink (lit "https://bit.ly/abc") (lit "Click here")]
       (fun _ => Normal (lit "Sorry, I cannot do that."))
     = HybridLocal (analyzeLinks (host := engine)
                      [mkLink (lit "https://bit.ly/abc") (lit "Click here")]).
Proof.
  split.
  - apply (proj1 (fallback_guarantee engine)
             (offlineEnv [threadOf "billing@pay-service.tk" "invoice"]) 7%N
             [threadOf "billing@pay-service.tk" "invoice"]).
    + discriminate.
    + reflexivity.
    + discriminate.
    + left. eexists. reflexivity.
  - apply (proj2 (fallback_guarantee engine)).
    + discriminate.
    + right. eexists. split; [reflexivity | vm_compute; reflexivity].
Defined.

(** C1 as stated fails for the empty batch: with a provider that rejects
    every prompt and no threads, the scan answers [neutral], not the verdict
    of the local analyzer on the (filtered) threads, which is [safe]. *)
Lemma empty_batch_is_neutral_not_local :
  let env := offlineEnv [] in
  (forall prompt, exists e, sendPrompt env prompt = Throw e)
  /\ scanInboxThreats (host := engine) env (Some 7%N)
     = RespNeutral (lit "No recent threads found to analyze")
  /\ iv_level (analyzeInboxLocally (host := engine)
                 (filterThreadsByDateAndLimit env
                    (requestInboxThreads env 7%N))) = safe
  /\ scanInboxThreats (host := engine) env (Some 7%N)
     <> RespLocal (analyzeInboxLocally (host := engine)
                     (filterThreadsByDateAndLimit env
                        (requestInboxThreads env 7%N))).
Proof.
  cbv zeta. split; [intros prompt; eexists; reflexivity|].
  split; [reflexivity|]. split; [reflexivity|].
  vm_compute. discriminate.
Qed.

(* ===================================================================== *)
(** * Part III. Further properties of the code                            *)
(* ===================================================================== *)

(** ** The edit distance is a metric *)

Lemma edit_zero s t : edit s t 0 -> s = t.
Proof.
  intros H. remember 0 as n eqn:E. induction H; try discriminate.
  - reflexivity.
  - f_equal. auto.
Qed.

Lemma edit_lengths s t n :
  edit s t n -> length s <= length t + n /\ length t <= length s + n.
Proof. induction 1; simpl; lia. Qed.

(** Scripts compose: one from [s] to [t] and one from [t] to [u] give one
    from [s] to [u] that is no longer than both together. *)
Lemma edit_trans s t n :
  edit s t n -> forall u m, edit t u m -> exists k, k <= n + m /\ edit s u k.
Proof.
  induction 1 as [|c s t n H IH|c d s t n H IH|c s t n H IH|d s t n H IH];
    intros u m H2.
  - exists m. split; [lia | assumption].
  - remember (c :: t) as ct eqn:E. revert E.
    induction H2 as [|c' t' u' m' H2 IH2|c' d' t' u' m' H2 IH2
                    |c' t' u' m' H2 IH2|d' t' u' m' H2 IH2]; intros E;
      try discriminate.
    + injection E as -> ->. destruct (IH _ _ H2) as (k & Hk & He).
      exists k. split; [lia | now apply edit_keep].
    + injection E as -> ->. destruct (IH _ _ H2) as (k & Hk & He).
      exists (S k). split; [lia | now apply edit_subst].
    + injection E as -> ->. destruct (IH _ _ H2) as (k & Hk & He).
      exists (S k). split; [lia | now apply edit_delete].
    + destruct (IH2 E) as (k & Hk & He).
      exists (S k). split; [lia | now apply edit_insert].
  - remember (d :: t) as dt eqn:E. revert E.
    induction H2 as [|c' t' u' m' H2 IH2|c' d' t' u' m' H2 IH2
                    |c' t' u' m' H2 IH2|d' t' u' m' H2 IH2]; intros E;
      try discriminate.
    + injection E as -> ->. destruct (IH _ _ H2) as (k & Hk & He).
      exists (S k). split; [lia | now apply edit_subst].
    + injection E as -> ->. destruct (IH _ _ H2) as (k & Hk & He).
      exists (S k). split; [lia | now apply edit_subst].
    + injection E as -> ->. destruct (IH _ _ H2) as (k & Hk & He).
      exists (S k). split; [lia | now apply edit_delete].
    + destruct (IH2 E) as (k & Hk & He).
      exists (S k). split; [lia | now apply edit_insert].
  - destruct (IH _ _ H2) as (k & Hk & He).
    exists (S k). split; [lia | now apply edit_delete].
  - remember (d :: t) as dt eqn:E. revert E.
    induction H2 as [|c' t' u' m' H2 IH2|c' d' t' u' m' H2 IH2
                    |c' t' u' m' H2 IH2|d' t' u' m' H2 IH2]; intros E;
      try discriminate.
    + injection E as -> ->. destruct (IH _ _ H2) as (k & Hk & He).
      exists (S k). split; [lia | now apply edit_insert].
    + injection E as -> ->. destruct (IH _ _ H2) as (k & Hk & He).
      exists (S k). split; [lia | now apply edit_insert].
    + injection E as -> ->. destruct (IH _ _ H2) as (k & Hk & He).
      exists k. split; [lia | assumption].
    + destruct (IH2 E) as (k & Hk & He).
      exists (S k). split; [lia | now apply edit_insert].
Qed.

Lemma lev_zero_iff s t : lev s t = 0 <-> s = t.
Proof.
  split.
  - intros E. apply edit_zero. rewrite <- E. apply lev_edit.
  - intros ->. apply lev_refl.
Qed.

Lemma lev_triangle s t u : lev s u <= lev s t + lev t u.
Proof.
  destruct (edit_trans (lev_edit s t) (lev_edit t u)) as (k & Hk & He).
  apply lev_le in He. lia.
Qed.

Lemma lev_length_gap s t :
  length s <= length t + lev s t /\ length t <= length s + lev s t.
Proof. apply edit_lengths, lev_edit. Qed.

(** X1. For non-empty strings [levenshtein] is 0 exactly when the two
    strings have the same lower-cased form. *)
Theorem levenshtein_zero_iff_same_lowercase (host : Host) (a b : jsstring) :
  a <> [] -> b <> [] ->
  (levenshtein a b = 0 <-> toLowerCase a = toLowerCase b).
Proof.
  intros Ha Hb. rewrite (levenshtein_nonempty Ha Hb). apply lev_zero_iff.
Qed.

Lemma levenshtein_zero_iff_same_lowercase_witness :
  levenshtein (host := engine) (lit "PayPal") (lit "paypal") = 0
  <-> toLowerCase (Host := engine) (lit "PayPal")
      = toLowerCase (Host := engine) (lit "paypal").
Proof.
  apply (@levenshtein_zero_iff_same_lowercase engine
           (lit "PayPal") (lit "paypal")); discriminate.
Defined.

(** X2. On non-empty strings [levenshtein] obeys the triangle inequality:
    going through a third string is never shorter. *)
Theorem levenshtein_triangle (host : Host) (a b c : jsstring) :
  a <> [] -> b <> [] -> c <> [] ->
  levenshtein a c <= levenshtein a b + levenshtein b c.
Proof.
  intros Ha Hb Hc.
  rewrite (levenshtein_nonempty Ha Hc), (levenshtein_nonempty Ha Hb),
    (levenshtein_nonempty Hb Hc).
  apply lev_triangle.
Qed.

Lemma levenshtein_triangle_witness :
  levenshtein (host := engine) (lit "paypa1") (lit "paypal")
  <= levenshtein (host := engine) (lit "paypa1") (lit "PayPa")
     + levenshtein (host := engine) (lit "PayPa") (lit "paypal").
Proof.
  apply (@levenshtein_triangle engine
           (lit "paypa1") (lit "PayPa") (lit "paypal")); discriminate.
Defined.

(** ** What a typosquatting finding implies *)

Section TypoFacts.
Context {host : Host}.

Lemma typoFinding_flagged i t token brand f :
  In f (typoFinding i t token brand) ->
  4 <= length brand /\ 4 <= length token
  /\ 0 < levenshtein (filter isLowerAlnum token) brand
  /\ levenshtein (filter isLowerAlnum token) brand <= typoThreshold brand
  /\ tf_indicators f = [tag_typosquatting; tag_similar_to brand].
Proof.
  unfold typoFinding.
  destruct (Nat.ltb_spec (length brand) 4); [intros []|].
  destruct (Nat.ltb_spec (length token) 4); [intros []|].
  cbn [orb]. cbv zeta.
  destruct (Nat.ltb_spec 0 (levenshtein (filter isLowerAlnum token) brand));
    [|intros []].
  destruct (Nat.leb_spec (levenshtein (filter isLowerAlnum token) brand)
              (typoThreshold brand)); [|intros []].
  cbn [andb]. intros [<- | []]. repeat split; assumption.
Qed.

Lemma typoThreshold_below_length brand :
  4 <= length brand -> typoThreshold brand < length brand.
Proof.
  intros H. unfold typoThreshold.
  pose proof (Nat.Div0.div_lt_upper_bound (length brand) 5 (length brand)).
  apply Nat.max_lub_lt; [lia|]. apply Nat.Div0.div_lt_upper_bound. lia.
Qed.

End TypoFacts.

(** X3. A token flagged as typosquatting of a brand is never the brand
    itself: after the clean-up of the token, the lower-cased forms differ,
    and their lengths differ by no more than the threshold of the brand. *)
Theorem flagged_token_is_near_but_not_the_brand
    (host : Host) i t token brand f :
  In f (typoFinding i t token brand) ->
  let cleaned := toLowerCase (filter isLowerAlnum token) in
  cleaned <> toLowerCase brand
  /\ length cleaned <= length (toLowerCase brand) + typoThreshold brand
  /\ length (toLowerCase brand) <= length cleaned + typoThreshold brand.
Proof.
  intros Hin. cbv zeta.
  destruct (typoFinding_flagged _ _ _ _ _ Hin) as (Hb & Ht & Hpos & Hle & _).
  assert (Nb : brand <> []) by (destruct brand; [simpl in Hb; lia | discriminate]).
  assert (Nt : filter isLowerAlnum token <> []).
  { intros E. rewrite E, levenshtein_empty_l in Hle.
    pose proof (typoThreshold_below_length brand Hb). lia. }
  rewrite (levenshtein_nonempty Nt Nb) in Hpos, Hle.
  pose proof (lev_length_gap (toLowerCase (filter isLowerAlnum token))
                (toLowerCase brand)) as [G1 G2].
  split; [|split; lia].
  intros E. rewrite E, lev_refl in Hpos. lia.
Qed.

Lemma flagged_token_is_near_but_not_the_brand_witness :
  toLowerCase (Host := engine) (filter isLowerAlnum (lit "paypa1"))
  <> toLowerCase (Host := engine) (lit "paypal").
Proof.
  refine (proj1 (@flagged_token_is_near_but_not_the_brand engine 0
            (threadOf "help@paypa1.com" "receipt")
            (lit "paypa1") (lit "paypal") _ _)).
  vm_compute. left. reflexivity.
Defined.






(** ** The analyzers on longer lists *)

Section ConcatenationFacts.
Context {host : Host}.

Lemma inboxLoop_app l1 : forall i l2,
  inboxLoop i (l1 ++ l2) = inboxLoop i l1 ++ inboxLoop (i + length l1) l2.
Proof.
  induction l1 as [|t l1 IH]; intros i l2; simpl.
  - now rewrite Nat.add_0_r.
  - rewrite IH, <- app_assoc. do 3 f_equal. lia.
Qed.

Lemma flat_map_mapped {A B : Type} (g : B -> B) (f f' : A -> list B) l :
  (forall x, f' x = map g (f x)) -> flat_map f' l = map g (flat_map f l).
Proof.
  intros H. induction l as [|x l IH]; cbn [flat_map].
  - reflexivity.
  - now rewrite map_app, IH, H.
Qed.

Lemma typoFinding_shift k i t token brand :
  typoFinding (k + i) t token brand
  = map (reindexThread k) (typoFinding i t token brand).
Proof.
  unfold typoFinding. destruct (_ || _); [reflexivity|].
  destruct (_ && _); reflexivity.
Qed.

Lemma typoFindings_shift k i t tokens :
  typoFindings (k + i) t tokens = map (reindexThread k) (typoFindings i t tokens).
Proof.
  unfold typoFindings. apply flat_map_mapped. intros token.
  apply flat_map_mapped. intros brand. apply typoFinding_shift.
Qed.

Lemma threadFindings_shift k i t :
  threadFindings (k + i) t = map (reindexThread k) (threadFindings i t).
Proof.
  unfold threadFindings. rewrite map_app, typoFindings_shift. f_equal.
  unfold tldFindings. destruct (isEmpty _); [reflexivity|].
  destruct (find _ suspiciousTLDs); reflexivity.
Qed.

Lemma inboxLoop_shift k l : forall i,
  inboxLoop (k + i) l = map (reindexThread k) (inboxLoop i l).
Proof.
  induction l as [|t l IH]; intros i; simpl.
  - reflexivity.
  - rewrite map_app, threadFindings_shift, <- IH. do 2 f_equal. lia.
Qed.

Lemma linkLoop_shift k l : forall i,
  linkLoop (k + i) l = map (reindexLink k) (linkLoop i l).
Proof.
  induction l as [|x l IH]; intros i; simpl.
  - reflexivity.
  - rewrite map_app, <- IH. f_equal; [|f_equal; lia].
    unfold linkFindings. destruct (Nat.eqb _ 0); reflexivity.
Qed.

Lemma inbox_level_by_findings threads :
  iv_level (analyzeInboxLocally threads)
  = match inboxLoop 0 threads with [] => safe | _ :: _ => danger end.
Proof.
  destruct (analyzeInboxLocally_cases threads) as [[E ->] | (N & L & _)].
  - now rewrite E.
  - rewrite L. destruct (inboxLoop 0 threads); [contradiction | reflexivity].
Qed.

Lemma scoreLinks_app_l f1 f2 :
  levelRank (scoreLinks f1) <= levelRank (scoreLinks (f1 ++ f2)).
Proof.
  destruct f1 as [|x [|y r]]; destruct f2 as [|z [|w r2]]; cbn;
    repeat (match goal with
            | |- context [hasEscalatingIndicator ?v] =>
                destruct (hasEscalatingIndicator v)
            end; cbn);
    lia.
Qed.

Lemma scoreLinks_reindex k f :
  scoreLinks (map (reindexLink k) f) = scoreLinks f.
Proof. destruct f as [|x [|y r]]; reflexivity. Qed.

Lemma scoreLinks_app_r f1 f2 :
  levelRank (scoreLinks f2) <= levelRank (scoreLinks (f1 ++ f2)).
Proof.
  destruct f1 as [|x [|y r]]; destruct f2 as [|z [|w r2]]; cbn;
    repeat (match goal with
            | |- context [hasEscalatingIndicator ?v] =>
                destruct (hasEscalatingIndicator v)
            end; cbn);
    lia.
Qed.

End ConcatenationFacts.

(** X4. The thread analysis of two lists put together is the analysis of
    each: the findings are those of the first list followed by those of the
    second with their indices moved past the first, and the level is
    [danger] as soon as one of the two is. *)
Theorem inbox_analysis_of_concatenation
    (host : Host) (first second : list ThreadRecord) :
  iv_findings (analyzeInboxLocally (first ++ second))
  = iv_findings (analyzeInboxLocally first)
    ++ map (reindexThread (length first))
           (iv_findings (analyzeInboxLocally second))
  /\ levelRank (iv_level (analyzeInboxLocally (first ++ second)))
     = Nat.max (levelRank (iv_level (analyzeInboxLocally first)))
               (levelRank (iv_level (analyzeInboxLocally second))).
Proof.
  split.
  - rewrite !analyzeInboxLocally_findings, inboxLoop_app.
    f_equal. cbn [Nat.add].
    rewrite <- (inboxLoop_shift (length first) second 0).
    now rewrite Nat.add_0_r.
  - rewrite !inbox_level_by_findings, inboxLoop_app. cbn [Nat.add].
    assert (E : inboxLoop (length first) second
                = map (reindexThread (length first)) (inboxLoop 0 second))
      by (rewrite <- inboxLoop_shift; f_equal; lia).
    rewrite E.
    destruct (inboxLoop 0 first), (inboxLoop 0 second); reflexivity.
Qed.

(** X5. Scanning more links never lowers the threat level: the level of a
    list is at least the level of each part it is made of, and the findings
    of the whole are those of the parts, the indices of the second part
    moved past the first. *)
Theorem link_analysis_of_concatenation
    (host : Host) (first second : list LinkRecord) :
  suspiciousLinks (analyzeUrlDeception (first ++ second))
  = suspiciousLinks (analyzeUrlDeception first)
    ++ map (reindexLink (length first))
           (suspiciousLinks (analyzeUrlDeception second))
  /\ levelRank (threatLevel (analyzeUrlDeception first))
     <= levelRank (threatLevel (analyzeUrlDeception (first ++ second)))
  /\ levelRank (threatLevel (analyzeUrlDeception second))
     <= levelRank (threatLevel (analyzeUrlDeception (first ++ second))).
Proof.
  unfold analyzeUrlDeception. cbn [suspiciousLinks threatLevel].
  rewrite linkLoop_app. cbn [Nat.add].
  assert (E : linkLoop (length first) second
              = map (reindexLink (length first)) (linkLoop 0 second))
    by (rewrite <- linkLoop_shift; f_equal; lia).
  rewrite E.
  split; [reflexivity|]. split.
  - apply scoreLinks_app_l.
  - rewrite <- (scoreLinks_reindex (length first) (linkLoop 0 second)) at 1.
    apply scoreLinks_app_r.
Qed.

(** ** The shape of link findings *)

Section LinkShapeFacts.
Context {host : Host}.

Lemma linkLoop_strictly_sorted links : forall i,
  StronglySorted lt (map lf_index (linkLoop i links))
  /\ Forall (fun f => i <= lf_index f) (linkLoop i links)
  /\ length (linkLoop i links) <= length links.
Proof.
  induction links as [|l rest IH]; intros i; simpl.
  - repeat constructor.
  - destruct (IH (S i)) as (S1 & F1 & L1).
    destruct (linkFindings_cases i l) as [[_ ->] | [_ ->]]; cbn [app map].
    + split; [exact S1|]. split; [|lia].
      eapply Forall_impl; [|exact F1]. cbn. intros; lia.
    + split; [|split].
      * constructor; [exact S1|]. cbn [lf_index].
        apply Forall_map. eapply Forall_impl; [|exact F1]. cbn. intros; lia.
      * constructor; [cbn; lia|].
        eapply Forall_impl; [|exact F1]. cbn. intros; lia.
      * cbn [length]. lia.
Qed.

Lemma linkIndicators_shape l :
  exists m s k a h : bool,
    linkIndicators l
    = (if m then [ind_mismatch] else []) ++ (if s then [ind_shortener] else [])
      ++ (if k then [ind_malicious] else []) ++ (if a then [ind_auth] else [])
      ++ (if h then [ind_http] else []).
Proof.
  unfold linkIndicators, mismatchIndicator, shortenerIndicator,
    maliciousIndicator, authIndicator, httpIndicator.
  set (hn := hostnameOrEmpty (href l)).
  assert (M : exists m : bool,
             match firstUrlLike (text l) with
             | Some visible =>
                 if negb (isEmpty (hostnameOrEmpty
                            (if startsWith (lit "http") visible then visible
                             else lit "http://" ++ visible)))
                    && negb (isEmpty hn)
                    && negb (JsString.eqb (hostnameOrEmpty
                            (if startsWith (lit "http") visible then visible
                             else lit "http://" ++ visible)) hn)
                 then [ind_mismatch] else []
             | None => []
             end = if m then [ind_mismatch] else []).
  { destruct (firstUrlLike (text l)); [|now exists false].
    destruct (_ && _); [now exists true | now exists false]. }
  destruct M as (m & ->).
  exists m.
  exists (negb (isEmpty hn) && existsb (fun s => includes s hn) shorteners).
  exists (negb (isEmpty hn) && existsb (fun b => includes b hn) knownBad).
  exists (existsb (fun p => includes p hn) authPatterns).
  exists (negb (isEmpty (href l)) && startsWith (lit "http://") (href l)).
  reflexivity.
Qed.

End LinkShapeFacts.

(** X6. A link gives at most one finding: the findings are no more than the
    links and their indices strictly increase.  The indicators of a finding
    are a non-empty part of the five the analyzer knows, each at most once
    and always in the same order (mismatch, shortener, known malicious,
    auth pattern, http), and its reason is those indicators joined by
    "; ". *)
Theorem link_findings_shape (host : Host) (links : list LinkRecord) :
  let found := suspiciousLinks (analyzeUrlDeception links) in
  length found <= length links
  /\ StronglySorted lt (map lf_index found)
  /\ Forall (fun f =>
       lf_indicators f <> []
       /\ lf_reason f = join (lit "; ") (lf_indicators f)
       /\ exists m s k a h : bool,
            lf_indicators f
            = (if m then [ind_mismatch] else [])
              ++ (if s then [ind_shortener] else [])
              ++ (if k then [ind_malicious] else [])
              ++ (if a then [ind_auth] else [])
              ++ (if h then [ind_http] else [])) found.
Proof.
  cbv zeta. unfold analyzeUrlDeception. cbn [suspiciousLinks].
  destruct (linkLoop_strictly_sorted links 0) as (S1 & _ & L1).
  split; [exact L1|]. split; [exact S1|]. clear S1 L1.
  generalize 0. induction links as [|l rest IH]; intros i; simpl.
  - constructor.
  - apply Forall_app. split; [|apply IH].
    destruct (linkFindings_cases i l) as [[_ ->] | [N ->]].
    + constructor.
    + constructor; [|constructor].
      cbn [lf_indicators lf_reason]. split; [exact N|]. split; [reflexivity|].
      apply linkIndicators_shape.
Qed.





(** ** Suspicious top-level domains *)

Section TldFacts.
Context {host : Host}.

Lemma inboxLoop_member threads t : forall j,
  In t threads ->
  exists i, nth_error threads i = Some t
            /\ forall f, In f (threadFindings (j + i) t) ->
                         In f (inboxLoop j threads).
Proof.
  induction threads as [|u rest IH]; intros j Hin; [contradiction|].
  destruct Hin as [E | Hin].
  - subst u. exists 0. split; [reflexivity|].
    intros f Hf. rewrite Nat.add_0_r in Hf. simpl. apply in_or_app. now left.
  - destruct (IH (S j) Hin) as (i & Hn & Hf). exists (S i).
    split; [exact Hn|]. intros f Hi. simpl. apply in_or_app. right.
    apply Hf. now replace (S j + i) with (j + S i) by lia.
Qed.

Lemma suspicious_tld_not_empty tld domain :
  In tld suspiciousTLDs -> endsWith tld domain = true -> isEmpty domain = false.
Proof.
  intros Hin E. destruct domain; [|reflexivity].
  cbv [suspiciousTLDs map] in Hin.
  repeat (destruct Hin as [<- | Hin]; [vm_compute in E; discriminate|]).
  contradiction.
Qed.

Lemma tldFindings_found i t domain tld :
  In tld suspiciousTLDs -> endsWith tld domain = true ->
  exists f, tldFindings i t domain = [f]
            /\ tf_index f = i /\ tf_sender f = sender t
            /\ tf_subject f = subject t
            /\ tf_indicators f = [tag_suspicious_tld].
Proof.
  intros Hin E. unfold tldFindings.
  rewrite (@suspicious_tld_not_empty tld domain Hin E).
  destruct (find (fun tld0 => endsWith tld0 domain) suspiciousTLDs) eqn:F.
  - eexists. split; [reflexivity|]. repeat split.
  - apply find_none with (x := tld) in F; [|exact Hin]. congruence.
Qed.

End TldFacts.

(** X7. A thread whose sender domain ends with one of the suspicious
    top-level domains makes the whole scan [danger], wherever it stands in
    the list: the verdict has a finding tagged [suspicious-tld] that carries
    the sender and subject of that thread and the index of a position where
    it stands. *)
Theorem suspicious_tld_means_danger
    (host : Host) (threads : list ThreadRecord) (t : ThreadRecord)
    (tld : jsstring) :
  In t threads ->
  In tld suspiciousTLDs ->
  endsWith tld (senderDomain (toLowerCase (sender t))) = true ->
  iv_level (analyzeInboxLocally threads) = danger
  /\ exists f, In f (iv_findings (analyzeInboxLocally threads))
               /\ tf_indicators f = [tag_suspicious_tld]
               /\ tf_sender f = sender t /\ tf_subject f = subject t
               /\ nth_error threads (tf_index f) = Some t.
Proof.
  intros Hin Htld E.
  destruct (@inboxLoop_member host threads t 0 Hin) as (i & Hn & Hf).
  destruct (@tldFindings_found i t _ tld Htld E) as (f & Ef & Hi & Hs & Hj & Hd).
  assert (Hfound : In f (inboxLoop 0 threads)).
  { apply Hf. cbn [Nat.add]. unfold threadFindings. apply in_or_app. left.
    rewrite Ef. now left. }
  split.
  - rewrite inbox_level_by_findings.
    destruct (inboxLoop 0 threads); [contradiction | reflexivity].
  - exists f. rewrite analyzeInboxLocally_findings, Hi. auto.
Qed.

Lemma suspicious_tld_means_danger_witness :
  iv_level (analyzeInboxLocally (host := engine)
              [ threadOf "Ann <ann@example.com>" "lunch";
                threadOf "Prize Desk <win@lucky-draw.TK>" "You won" ])
  = danger.
Proof.
  refine (proj1 (@suspicious_tld_means_danger engine _
            (threadOf "Prize Desk <win@lucky-draw.TK>" "You won")
            (lit ".tk") _ _ _)).
  - right. left. reflexivity.
  - left. reflexivity.
  - vm_compute. reflexivity.
Defined.

(** ** Where the normalizer looks for the structured block *)

Lemma upToLastClose_some s : forall m,
  upToLastClose s = Some m ->
  exists body post, s = body ++ 125%N :: post /\ m = body ++ [125%N]
                    /\ Forall (fun c => c <> 125%N) post.
Proof.
  induction s as [|c s IH]; intros m; simpl; [discriminate|].
  destruct (upToLastClose s) as [m'|] eqn:E.
  - intros [= <-]. destruct (IH m' eq_refl) as (body & post & -> & -> & F).
    exists (c :: body), post. repeat split. exact F.
  - destruct (N.eqb_spec c 125) as [-> | _]; [|discriminate].
    intros [= <-]. exists [], s. repeat split.
    clear IH. induction s as [|d s IHs]; [constructor|].
    simpl in E. destruct (upToLastClose s); [discriminate|].
    destruct (N.eqb_spec d 125); [discriminate|].
    constructor; [assumption | now apply IHs].
Qed.

Lemma upToLastClose_none_inv s :
  upToLastClose s = None -> Forall (fun c => c <> 125%N) s.
Proof.
  induction s as [|d s IHs]; [constructor|].
  simpl. destruct (upToLastClose s); [discriminate|].
  destruct (N.eqb_spec d 125); [discriminate|].
  intros _. constructor; [assumption | now apply IHs].
Qed.

Lemma matchBraces_some s : forall m,
  matchBraces s = Some m ->
  exists pre body post,
    s = pre ++ m ++ post /\ m = 123%N :: body ++ [125%N]
    /\ Forall (fun c => c <> 123%N) pre
    /\ Forall (fun c => c <> 125%N) post.
Proof.
  induction s as [|c s IH]; intros m; simpl; [discriminate|].
  destruct (N.eqb_spec c 123) as [-> | Hc].
  - destruct (upToLastClose s) as [m'|] eqn:E.
    + intros [= <-].
      destruct (@upToLastClose_some _ _ E) as (body & post & -> & -> & F).
      exists [], body, post. cbn [app]. rewrite <- app_assoc.
      repeat split; [constructor | exact F].
    + intros H. destruct (IH m H) as (pre & body & post & -> & -> & Fp & Fs).
      apply upToLastClose_none_inv in E.
      rewrite Forall_forall in E. exfalso.
      apply (E 125%N); [|reflexivity].
      apply in_or_app. right. cbn [app]. right.
      apply in_or_app. left. apply in_or_app. right. now left.
  - intros H. destruct (IH m H) as (pre & body & post & -> & -> & Fp & Fs).
    exists (c :: pre), body, post. repeat split; [|exact Fs].
    constructor; assumption.
Qed.

Lemma matchBraces_none s :
  matchBraces s = None ->
  forall pre mid post, s <> pre ++ 123%N :: mid ++ 125%N :: post.
Proof.
  induction s as [|c s IH]; intros H pre mid post E.
  - destruct pre; discriminate.
  - simpl in H. destruct (N.eqb_spec c 123) as [-> | Hc].
    + destruct (upToLastClose s) eqn:U; [discriminate|].
      apply upToLastClose_none_inv in U. rewrite Forall_forall in U.
      apply (U 125%N); [|reflexivity].
      destruct pre as [|p pre]; cbn [app] in E.
      * assert (E2 : s = mid ++ 125%N :: post) by congruence. subst s.
        apply in_or_app. right. now left.
      * assert (E2 : s = pre ++ 123%N :: mid ++ 125%N :: post) by congruence.
        subst s.
        apply in_or_app. right. right. apply in_or_app. right. now left.
    + destruct pre as [|p pre]; cbn [app] in E; [congruence|].
      assert (E2 : s = pre ++ 123%N :: mid ++ 125%N :: post) by congruence.
      exact (IH H pre mid post E2).
Qed.

(** X8. What [parseAIResponse] hands to [JSON.parse].  When the response
    has an opening brace with a closing brace somewhere after it, it is the
    text from the first opening brace of the response to its last closing
    brace, whatever lies between; otherwise it is the whole response. *)
Theorem json_candidate_is_first_open_to_last_close (response : jsstring) :
  (exists pre body post,
      response = pre ++ (123%N :: body ++ [125%N]) ++ post
      /\ Forall (fun c => c <> 123%N) pre
      /\ Forall (fun c => c <> 125%N) post
      /\ jsonCandidate response = 123%N :: body ++ [125%N])
  \/ ((forall pre mid post, response <> pre ++ 123%N :: mid ++ 125%N :: post)
      /\ jsonCandidate response = response).
Proof.
  unfold jsonCandidate. destruct (matchBraces response) as [m|] eqn:E.
  - left. destruct (@matchBraces_some _ _ E) as (pre & body & post & -> & -> & F).
    exists pre, body, post. repeat split; apply F.
  - right. split; [now apply matchBraces_none | reflexivity].
Qed.


(** ** The outcomes of the inbox scan *)

Section ScanOutcomeFacts.
Context {host : Host}.

(** The formatting of lines 112-116 gives a model-assisted verdict whose
    level is one of the three, or throws. *)
Lemma normalizeParsed_shape parsed :
  truthy parsed = true ->
  (exists e, normalizeParsed parsed = Throw e)
  \/ exists lv d f, normalizeParsed parsed = Normal (RespAi lv d f)
                    /\ lv <> neutral.
Proof.
  intros T. unfold normalizeParsed.
  repeat match goal with
  | |- context [getProp parsed ?k] =>
      destruct (getProp_truthy parsed k T) as (? & ->); cbn [bind]
  end.
  match goal with
  | |- context [bind ?c _] => destruct c as [d|e]; cbn [bind]
  end.
  - right. do 3 eexists. split; [reflexivity|].
    destruct (strictEqualsStr _ (lit "danger")); [discriminate|].
    destruct (strictEqualsStr _ (lit "warning")); discriminate.
  - left. eauto.
Qed.

(** Every way through lines 88-121. *)
Lemma classifyFiltered_outcomes env filtered :
  classifyFiltered env filtered
  = Normal (RespLocal (analyzeInboxLocally filtered))
  \/ exists s parsed err lv d f,
       sendPrompt env (inboxThreatPrompt filtered) = Normal (JStr s)
       /\ trim s <> []
       /\ parseAIResponse s = Normal parsed
       /\ truthy parsed = true
       /\ getProp parsed (lit "error") = Normal err
       /\ truthy err = false
       /\ normalizeParsed parsed = Normal (RespAi lv d f)
       /\ lv <> neutral
       /\ classifyFiltered env filtered = Normal (RespAi lv d f).
Proof.
  unfold classifyFiltered.
  destruct (sendPrompt env (inboxThreatPrompt filtered)) as [v|e];
    [|now left].
  destruct v as [| | | |s| |]; try (now left).
  destruct (trim s) as [|c r] eqn:Etrim; [now left|].
  cbn [isEmpty negb].
  destruct (parseAIResponse s) as [parsed|e] eqn:Eparse.
  2:{ rewrite parseAIResponse_total in Eparse. discriminate. }
  cbn [bind].
  destruct (truthy parsed) eqn:T; cbn [negb]; [|now left].
  destruct (getProp_truthy parsed (lit "error") T) as (err & Eerr).
  rewrite Eerr. cbn [bind].
  destruct (truthy err) eqn:Terr; [now left|].
  destruct (normalizeParsed_shape parsed T) as [(e & En) | (lv & d & f & En & Hlv)];
    rewrite En; cbn [tryCatch]; [now left|].
  right. exists s, parsed, err, lv, d, f.
  repeat split; try assumption. rewrite Etrim. discriminate.
Qed.

End ScanOutcomeFacts.

(** X9. The inbox scan answers [neutral] exactly when there is nothing to
    analyze: without a usable tab it says to open the inbox, with no threads
    from the content script it says none were found, and in every other case
    it answers with the verdict of the local analyzer on the filtered
    threads or with a model-assisted verdict of level safe, warning or
    danger; the "scan failed" answer does not occur. *)
Theorem scan_is_neutral_only_without_data
    (host : Host) (env : ScanEnv) (msgTabId : option N) :
  match resolveTab env msgTabId with
  | None =>
      scanInboxThreats env msgTabId
      = RespNeutral (lit "Open Gmail inbox to analyze")
  | Some tab =>
      match requestInboxThreads env tab with
      | [] =>
          scanInboxThreats env msgTabId
          = RespNeutral (lit "No recent threads found to analyze")
      | (_ :: _) as threads =>
          scanInboxThreats env msgTabId
          = RespLocal (analyzeInboxLocally
                         (filterThreadsByDateAndLimit env threads))
          \/ exists lv d f,
               scanInboxThreats env msgTabId = RespAi lv d f
               /\ lv <> neutral
      end
  end.
Proof.
  unfold resolveTab, scanInboxThreats. cbv zeta.
  destruct (match msgTabId with
            | Some t => if N.eqb t 0 then findActiveGmailTabId env else Some t
            | None => findActiveGmailTabId env
            end) as [tab|]; [|reflexivity].
  destruct (N.eqb tab 0); cbn [negb]; [reflexivity|].
  destruct (requestInboxThreads env tab) as [|t rest]; [reflexivity|].
  cbn [length Nat.eqb].
  destruct (classifyFiltered_outcomes env
              (filterThreadsByDateAndLimit env (t :: rest)))
    as [-> | (s & parsed & err & lv & d & f & _ & _ & _ & _ & _ & _ & _ & Hlv & ->)].
  - now left.
  - right. eauto.
Qed.

(** X10. The remote result is used only when it can be: the scan answers
    with a model-assisted verdict only if the provider resolved with a
    string that is not blank, [parseAIResponse] returned a truthy value whose
    [error] property is falsy, and the formatting of the verdict did not
    throw.  In every other case (a rejection, a completion that is not a
    string or is blank, [null], a parse failure, an [error] flag, a value
    that cannot be rendered) the answer is the local verdict on the same
    threads. *)
Theorem remote_verdict_only_from_usable_completion
    (host : Host) (env : ScanEnv) (filtered : list ThreadRecord) :
  classifyFiltered env filtered
  = Normal (RespLocal (analyzeInboxLocally filtered))
  \/ exists s parsed err lv d f,
       sendPrompt env (inboxThreatPrompt filtered) = Normal (JStr s)
       /\ trim s <> []
       /\ parseAIResponse s = Normal parsed
       /\ truthy parsed = true
       /\ getProp parsed (lit "error") = Normal err
       /\ truthy err = false
       /\ normalizeParsed parsed = Normal (RespAi lv d f)
       /\ lv <> neutral
       /\ classifyFiltered env filtered = Normal (RespAi lv d f).
Proof. apply classifyFiltered_outcomes. Qed.


(** ** When the visible text can look like a URL *)

Lemma asciiLower_nonletter c x :
  isUpperAZ x = false -> isLowerAZ x = false ->
  asciiLower x = asciiLower c -> c = x.
Proof.
  unfold asciiLower, isUpperAZ, isLowerAZ, inRange.
  intros U L. rewrite U.
  destruct (N.leb_spec 65 c), (N.leb_spec c 90); cbn [andb]; intros E;
    try (symmetry; exact E).
  subst x. exfalso.
  destruct (N.leb_spec 97 (c + 32)), (N.leb_spec (c + 32) 122);
    cbn [andb] in L; try discriminate; lia.
Qed.

Lemma stripPrefixCI_split p : forall s m r,
  stripPrefixCI p s = Some (m, r) -> s = m ++ r.
Proof.
  induction p as [|pc p IH]; intros s m r; simpl.
  - intros [= <- <-]. reflexivity.
  - destruct s as [|c s]; [discriminate|].
    destruct (N.eqb (asciiLower pc) (asciiLower c)); [|discriminate].
    destruct (stripPrefixCI p s) as [[m' r']|] eqn:E; [|discriminate].
    intros [= <- <-]. simpl. f_equal. now apply IH.
Qed.

(** A character of the literal that is not a letter occurs in the text. *)
Lemma stripPrefixCI_needs x p : forall s m r,
  stripPrefixCI p s = Some (m, r) ->
  In x p -> isUpperAZ x = false -> isLowerAZ x = false -> In x m.
Proof.
  induction p as [|pc p IH]; intros s m r; simpl; [intros _ []|].
  destruct s as [|c s]; [discriminate|].
  destruct (N.eqb_spec (asciiLower pc) (asciiLower c)) as [E|]; [|discriminate].
  destruct (stripPrefixCI p s) as [[m' r']|] eqn:S; [|discriminate].
  intros [= <- <-] [-> | Hin] U L.
  - left. now apply asciiLower_nonletter.
  - right. eapply IH; eassumption.
Qed.

Lemma matchHttpAlt_needs_colon pw s m :
  matchHttpAlt pw s = Some m -> In 58%N s.
Proof.
  unfold matchHttpAlt. destruct pw; [discriminate|].
  destruct (stripPrefixCI (lit "http") s) as [[m1 r1]|] eqn:E1; [|discriminate].
  apply stripPrefixCI_split in E1. subst s.
  intros H. apply in_or_app. right.
  destruct (stripPrefixCI (lit "s") r1) as [[m2 r2]|] eqn:E2.
  - apply stripPrefixCI_split in E2. subst r1. apply in_or_app. right.
    destruct (stripPrefixCI (lit "://") r2) as [[m3 r3]|] eqn:E3;
      [|discriminate].
    pose proof (@stripPrefixCI_needs 58%N _ _ _ _ E3) as N.
    apply stripPrefixCI_split in E3. subst r2. apply in_or_app. left.
    apply N; [now left | reflexivity | reflexivity].
  - destruct (stripPrefixCI (lit "://") r1) as [[m3 r3]|] eqn:E3;
      [|discriminate].
    pose proof (@stripPrefixCI_needs 58%N _ _ _ _ E3) as N.
    apply stripPrefixCI_split in E3. subst r1. apply in_or_app. left.
    apply N; [now left | reflexivity | reflexivity].
Qed.

Lemma matchWwwAlt_needs_dot s m : matchWwwAlt s = Some m -> In 46%N s.
Proof.
  unfold matchWwwAlt.
  destruct (stripPrefixCI (lit "www.") s) as [[m1 r1]|] eqn:E1; [|discriminate].
  intros _.
  pose proof (@stripPrefixCI_needs 46%N _ _ _ _ E1) as N.
  apply stripPrefixCI_split in E1. subst s. apply in_or_app. left.
  apply N; [|reflexivity | reflexivity].
  right. right. right. now left.
Qed.

Lemma urlLikeFrom_needs s : forall pw m,
  urlLikeFrom pw s = Some m -> In 58%N s \/ In 46%N s.
Proof.
  induction s as [|c s IH]; intros pw m H.
  - cbn [urlLikeFrom] in H.
    destruct (matchHttpAlt pw []) eqn:E1;
      [left; eapply matchHttpAlt_needs_colon; eassumption|].
    destruct (matchWwwAlt []) eqn:E2;
      [right; eapply matchWwwAlt_needs_dot; eassumption|].
    discriminate.
  - cbn [urlLikeFrom] in H.
    destruct (matchHttpAlt pw (c :: s)) eqn:E1;
      [left; eapply matchHttpAlt_needs_colon; eassumption|].
    destruct (matchWwwAlt (c :: s)) eqn:E2;
      [right; eapply matchWwwAlt_needs_dot; eassumption|].
    destruct (IH _ _ H) as [I | I]; [left | right]; now right.
Qed.

(** X11. A visible text with neither a colon nor a full stop never looks
    like a URL to the analyzer: a link with such a text (a brand name, a
    call to action) gets no text-URL mismatch indicator, wherever its
    [href] leads. *)
Theorem plain_text_never_mismatches (host : Host) (l : LinkRecord) :
  ~ In 58%N (text l) -> ~ In 46%N (text l) ->
  firstUrlLike (text l) = None
  /\ arrayIncludes ind_mismatch (linkIndicators l) = false.
Proof.
  intros Hc Hd.
  assert (E : firstUrlLike (text l) = None).
  { unfold firstUrlLike. destruct (urlLikeFrom false (text l)) eqn:U;
      [|reflexivity].
    destruct (urlLikeFrom_needs _ _ U); contradiction. }
  split; [exact E|].
  unfold linkIndicators, mismatchIndicator. rewrite E. cbn [app].
  unfold shortenerIndicator, maliciousIndicator, authIndicator, httpIndicator,
    arrayIncludes.
  repeat match goal with
  | |- context [if ?b then [_] else []] => destruct b
  end; vm_compute; reflexivity.
Qed.

Lemma plain_text_never_mismatches_witness :
  arrayIncludes ind_mismatch
    (linkIndicators (host := engine)
       (mkLink (lit "https://chase-login.example/") (lit "Chase Bank")))
  = false.
Proof.
  refine (proj2 (@plain_text_never_mismatches engine
            (mkLink (lit "https://chase-login.example/") (lit "Chase Bank"))
            _ _)).
  - vm_compute. intuition discriminate.
  - vm_compute. intuition discriminate.
Defined.

(** ** The verdict of the link scan *)

Section QuickScanFacts.
Context {host : Host}.

Lemma scoreLinks_safe_iff found : scoreLinks found = safe <-> found = [].
Proof.
  destruct found as [|x [|y r]]; cbn.
  - tauto.
  - destruct (hasEscalatingIndicator x); split; discriminate.
  - split; discriminate.
Qed.

Lemma scoreLinks_not_neutral found : scoreLinks found <> neutral.
Proof.
  destruct found as [|x [|y r]]; cbn; try discriminate.
  destruct (hasEscalatingIndicator x); discriminate.
Qed.

Lemma linkVerdict_level links :
  lv_level (linkVerdict links) = scoreLinks (linkLoop 0 links).
Proof.
  unfold linkVerdict, analyzeUrlDeception. cbn [lv_level threatLevel].
  pose proof (scoreLinks_not_neutral (linkLoop 0 links)).
  destruct (scoreLinks (linkLoop 0 links)); try reflexivity. contradiction.
Qed.

End QuickScanFacts.

(** X12. The link scan reads at most the first 200 anchors of the page:
    whatever follows them does not change the verdict, which has at most 200
    links.  Its level is never [neutral], and it is [safe] exactly when the
    verdict lists no link. *)
Theorem quick_scan_reads_200_anchors (host : Host) (anchors : list Anchor) :
  length (lv_links (quickScanLinks anchors)) <= 200
  /\ (lv_level (quickScanLinks anchors) = safe
      <-> lv_links (quickScanLinks anchors) = [])
  /\ lv_level (quickScanLinks anchors) <> neutral
  /\ forall more, 200 <= length anchors ->
                  quickScanLinks (anchors ++ more) = quickScanLinks anchors.
Proof.
  unfold quickScanLinks.
  set (toLinks := map (fun a => {| href := a_href a;
                                   text := trim (a_textContent a) |})).
  split; [|split; [|split]].
  - unfold linkVerdict, analyzeUrlDeception. cbn [lv_links suspiciousLinks].
    rewrite length_map.
    destruct (linkLoop_strictly_sorted (toLinks (firstn 200 anchors)) 0)
      as (_ & _ & L).
    etransitivity; [exact L|]. unfold toLinks.
    rewrite length_map. apply firstn_le_length.
  - rewrite linkVerdict_level, scoreLinks_safe_iff.
    unfold linkVerdict, analyzeUrlDeception. cbn [lv_links suspiciousLinks].
    split; [intros ->; reflexivity|]. apply map_eq_nil.
  - rewrite linkVerdict_level. apply scoreLinks_not_neutral.
  - intros more H. rewrite firstn_app.
    replace (200 - length anchors) with 0 by lia.
    cbn [firstn]. now rewrite app_nil_r.
Qed.

Lemma quick_scan_reads_200_anchors_witness :
  quickScanLinks (host := engine)
    (repeat (mkAnchor (lit "https://example.com/") (lit " home ")) 200
     ++ [mkAnchor (lit "https://bit.ly/x") (lit "win")])
  = quickScanLinks (host := engine)
      (repeat (mkAnchor (lit "https://example.com/") (lit " home ")) 200).
Proof.
  apply (proj2 (proj2 (proj2 (@quick_scan_reads_200_anchors engine
           (repeat (mkAnchor (lit "https://example.com/") (lit " home ")) 200))))).
  rewrite repeat_length. apply Nat.le_refl.
Defined.




(** ** The date filter of the inbox scan *)

Lemma insertByDate_perm x l : Permutation (x :: l) (insertByDate x l).
Proof.
  induction l as [|y rest IH]; simpl.
  - apply Permutation_refl.
  - destruct (dt_date y) as [dy|]; [|apply Permutation_refl].
    destruct (dt_date x) as [dx|]; [|apply Permutation_refl].
    destruct (Z.ltb dx dy); [|apply Permutation_refl].
    eapply Permutation_trans; [apply perm_swap|].
    now apply perm_skip.
Qed.

Lemma sortNewestFirst_perm l : Permutation l (sortNewestFirst l).
Proof.
  induction l as [|x l IH]; simpl.
  - constructor.
  - eapply Permutation_trans; [|apply insertByDate_perm].
    now apply perm_skip.
Qed.

Lemma insertByDate_sorted x l :
  StronglySorted (fun a b => (timeOf b <= timeOf a)%Z) l ->
  dt_date x <> None -> Forall (fun d => dt_date d <> None) l ->
  StronglySorted (fun a b => (timeOf b <= timeOf a)%Z) (insertByDate x l).
Proof.
  intros S Hx Hl. induction S as [|y rest S IH Hy]; simpl.
  - repeat constructor.
  - inversion Hl as [|? ? Dy Drest]; subst.
    destruct (dt_date y) as [dy|] eqn:Ey; [|contradiction].
    destruct (dt_date x) as [dx|] eqn:Ex; [|contradiction].
    assert (Ty : timeOf y = dy) by (unfold timeOf; now rewrite Ey).
    assert (Tx : timeOf x = dx) by (unfold timeOf; now rewrite Ex).
    destruct (Z.ltb_spec dx dy).
    + constructor; [now apply IH|].
      eapply Permutation_Forall; [apply insertByDate_perm|].
      constructor; [lia | exact Hy].
    + constructor; [constructor; assumption|].
      constructor; [lia|].
      eapply Forall_impl; [|exact Hy]. cbv beta. intros d Hd. lia.
Qed.

Lemma sortNewestFirst_sorted l :
  Forall (fun d => dt_date d <> None) l ->
  StronglySorted (fun a b => (timeOf b <= timeOf a)%Z) (sortNewestFirst l).
Proof.
  induction 1 as [|x l Hx Hl IH]; simpl.
  - constructor.
  - apply insertByDate_sorted; [exact IH | exact Hx|].
    eapply Permutation_Forall; [apply sortNewestFirst_perm | exact Hl].
Qed.

(** The sort is stable: threads of one date keep their order. *)
Lemma insertByDate_stable z x l :
  filter (sameTime z) (insertByDate x l) = filter (sameTime z) (x :: l).
Proof.
  induction l as [|y rest IH]; [reflexivity|].
  cbn [insertByDate].
  destruct (dt_date y) as [dy|] eqn:Ey; [|reflexivity].
  destruct (dt_date x) as [dx|] eqn:Ex; [|reflexivity].
  destruct (Z.ltb_spec dx dy); [|reflexivity].
  cbn [filter] in *. rewrite IH. unfold sameTime. rewrite Ex, Ey.
  destruct (Z.eqb_spec dy z), (Z.eqb_spec dx z); try reflexivity. lia.
Qed.

Lemma sortNewestFirst_stable z l :
  filter (sameTime z) (sortNewestFirst l) = filter (sameTime z) l.
Proof.
  induction l as [|x l IH]; [reflexivity|].
  cbn [sortNewestFirst fold_right]. fold (sortNewestFirst l).
  rewrite insertByDate_stable. cbn [filter]. now rewrite IH.
Qed.

Lemma StronglySorted_app_inv {A : Type} (R : A -> A -> Prop) l1 l2 :
  StronglySorted R (l1 ++ l2) ->
  StronglySorted R l1 /\ forall a b, In a l1 -> In b l2 -> R a b.
Proof.
  induction l1 as [|x l1 IH]; simpl; intros S.
  - split; [constructor | intros a b []].
  - inversion S as [|? ? S' F]; subst. destruct (IH S') as [S1 H1].
    apply Forall_app in F as [F1 F2]. split.
    + constructor; assumption.
    + intros a b [<- | Ha] Hb.
      * rewrite Forall_forall in F2. now apply F2.
      * now apply H1.
Qed.

Lemma In_firstn {A : Type} (n : nat) (l : list A) (x : A) :
  In x (firstn n l) -> In x l.
Proof.
  intros H. rewrite <- (firstn_skipn n l). apply in_or_app. now left.
Qed.

Section DateFilterFacts.
Context {dates : DateHost}.

Lemma notOlderThan_dated cutoff l :
  Forall (fun d => dt_date d <> None) (filter (notOlderThan cutoff) l).
Proof.
  apply Forall_forall. intros d Hd. apply filter_In in Hd as [_ Hd].
  unfold notOlderThan in Hd. destruct (dt_date d); [discriminate | discriminate].
Qed.

(** The members of the result, one by one. *)
Lemma filterByDateAndLimit_members threads d :
  In d (filterByDateAndLimit threads) ->
  In (dt_thread d) threads
  /\ dt_date d = normalizeDate (dt_thread d)
  /\ exists ms, dt_date d = Some ms /\ (daysAgo 7 <= ms)%Z.
Proof.
  unfold filterByDateAndLimit. cbv zeta. intros H.
  apply In_firstn in H.
  eapply Permutation_in in H;
    [|apply Permutation_sym, sortNewestFirst_perm].
  apply filter_In in H as [Hm Hw].
  apply in_map_iff in Hm as (t & <- & Ht). cbn [dt_thread dt_date].
  split; [exact Ht|]. split; [reflexivity|].
  unfold notOlderThan in Hw. cbn [dt_date] in Hw.
  destruct (normalizeDate t) as [ms|]; [|discriminate].
  exists ms. split; [reflexivity|]. now apply Z.leb_le.
Qed.

End DateFilterFacts.

(** X13. [filterThreadsByDateAndLimit] returns at most 50 threads, each one
    a thread of its input with the date the normalisation gives it, and that
    date is a valid one not older than seven days. *)
Theorem date_filter_window_and_limit
    (dates : DateHost) (threads : list ThreadRecord) :
  length (filterByDateAndLimit threads) <= 50
  /\ Forall (fun d =>
       In (dt_thread d) threads
       /\ dt_date d = normalizeDate (dt_thread d)
       /\ exists ms, dt_date d = Some ms /\ (daysAgo 7 <= ms)%Z)
       (filterByDateAndLimit threads).
Proof.
  split.
  - unfold filterByDateAndLimit. cbv zeta. apply firstn_le_length.
  - apply Forall_forall. intros d. apply filterByDateAndLimit_members.
Qed.

(** X14. The threads [filterThreadsByDateAndLimit] returns are the first 50
    of the threads in the window put newest first, threads of one date
    staying in the order of the input: nothing it drops for the limit is
    newer than something it keeps. *)
Theorem date_filter_keeps_the_newest
    (dates : DateHost) (threads : list ThreadRecord) :
  let inWindow :=
    filter (notOlderThan (daysAgo 7))
      (map (fun t => {| dt_thread := t; dt_date := normalizeDate t |})
           threads) in
  exists dropped,
    Permutation (filterByDateAndLimit threads ++ dropped) inWindow
    /\ StronglySorted (fun a b => (timeOf b <= timeOf a)%Z)
         (filterByDateAndLimit threads ++ dropped)
    /\ (forall z, filter (sameTime z) (filterByDateAndLimit threads ++ dropped)
                  = filter (sameTime z) inWindow)
    /\ (forall kept lost, In kept (filterByDateAndLimit threads) ->
                          In lost dropped ->
                          (timeOf lost <= timeOf kept)%Z)
    /\ (dropped <> [] -> length (filterByDateAndLimit threads) = 50).
Proof.
  cbv zeta. unfold filterByDateAndLimit. cbv zeta.
  set (inWindow := filter (notOlderThan (daysAgo 7)) _).
  exists (skipn 50 (sortNewestFirst inWindow)).
  rewrite firstn_skipn.
  assert (S : StronglySorted (fun a b => (timeOf b <= timeOf a)%Z)
                (sortNewestFirst inWindow))
    by (apply sortNewestFirst_sorted; subst inWindow;
        apply notOlderThan_dated).
  split; [apply Permutation_sym, sortNewestFirst_perm|].
  split; [exact S|].
  split; [intros z; apply sortNewestFirst_stable|].
  split.
  - rewrite <- (firstn_skipn 50 (sortNewestFirst inWindow)) in S.
    apply StronglySorted_app_inv in S as [_ H]. exact H.
  - intros N. apply firstn_length_le.
    destruct (Nat.le_gt_cases 50 (length (sortNewestFirst inWindow)))
      as [L | L]; [exact L|].
    exfalso. apply N. apply skipn_all2. lia.
Qed.

Section DatedScanFacts.
Context {host : Host} {dates : DateHost}.

Lemma normalizeDate_source t ms :
  normalizeDate t = Some ms -> ms <> 0%Z ->
  (exists s, timestamp t = Some s /\ s <> [] /\ dateParse s = Some ms)
  \/ (exists r, rawTimestamp t = Some r /\ r <> []
                /\ numberDate r = TimeValue ms).
Proof.
  unfold normalizeDate, whenTruthy. intros E Hms.
  destruct (timestamp t) as [s|] eqn:Et.
  - destruct s as [|c s]; cbn [isEmpty] in E.
    + destruct (rawTimestamp t) as [r|]; [|congruence].
      destruct r as [|c r]; cbn [isEmpty] in E; [congruence|].
      right. exists (c :: r). split; [reflexivity|]. split; [discriminate|].
      destruct (numberDate (c :: r)); congruence.
    + destruct (dateParse (c :: s)) as [z|] eqn:Ep.
      * left. exists (c :: s). split; [reflexivity|]. split; [discriminate|].
        congruence.
      * destruct (rawTimestamp t) as [r|]; [|congruence].
        destruct r as [|c' r]; cbn [isEmpty] in E; [congruence|].
        right. exists (c' :: r). split; [reflexivity|].
        split; [discriminate|].
        destruct (numberDate (c' :: r)); congruence.
  - destruct (rawTimestamp t) as [r|]; [|congruence].
    destruct r as [|c r]; cbn [isEmpty] in E; [congruence|].
    right. exists (c :: r). split; [reflexivity|]. split; [discriminate|].
    destruct (numberDate (c :: r)); congruence.
Qed.

Lemma filterByDateAndLimit_length threads :
  length (filterByDateAndLimit threads) <= 50.
Proof. unfold filterByDateAndLimit. cbv zeta. apply firstn_le_length. Qed.

(** The scan answers with the local verdict only on the filtered threads. *)
Lemma scan_local_verdict env msgTabId v :
  scanInboxThreats env msgTabId = RespLocal v ->
  exists tab, resolveTab env msgTabId = Some tab
              /\ v = analyzeInboxLocally
                       (filterThreadsByDateAndLimit env
                          (requestInboxThreads env tab)).
Proof.
  unfold resolveTab, scanInboxThreats. cbv zeta.
  destruct (match msgTabId with
            | Some t => if N.eqb t 0 then findActiveGmailTabId env else Some t
            | None => findActiveGmailTabId env
            end) as [tab|]; [|discriminate].
  destruct (N.eqb tab 0); cbn [negb]; [discriminate|].
  destruct (requestInboxThreads env tab) as [|t rest] eqn:R; [discriminate|].
  cbn [length Nat.eqb].
  destruct (classifyFiltered_outcomes env
              (filterThreadsByDateAndLimit env (t :: rest)))
    as [-> | (s & parsed & err & lv & d & f & _ & _ & _ & _ & _ & _ & _ & _ & ->)].
  - intros [= <-]. exists tab. rewrite R. now split.
  - discriminate.
Qed.

End DatedScanFacts.

(** X15. When the cutoff of seven days lies after 1 January 1970, every
    thread [filterThreadsByDateAndLimit] returns has a date that was read
    from it: its [timestamp] parsed as a date, or its [rawTimestamp] is a
    number that makes a valid date.  A thread without a readable date never
    passes the filter. *)
Theorem date_filter_needs_a_readable_date
    (dates : DateHost) (threads : list ThreadRecord) :
  (0 < daysAgo 7)%Z ->
  Forall (fun d =>
    exists ms, dt_date d = Some ms
      /\ ((exists s, timestamp (dt_thread d) = Some s /\ s <> []
                     /\ dateParse s = Some ms)
          \/ (exists r, rawTimestamp (dt_thread d) = Some r /\ r <> []
                        /\ numberDate r = TimeValue ms)))
    (filterByDateAndLimit threads).
Proof.
  intros Hcut. apply Forall_forall. intros d Hd.
  destruct (filterByDateAndLimit_members _ _ Hd) as (_ & En & ms & Ed & Hms).
  exists ms. split; [exact Ed|].
  apply normalizeDate_source; [congruence | lia].
Qed.

Lemma date_filter_needs_a_readable_date_witness :
  map (fun d => sender (dt_thread d))
    (filterByDateAndLimit (dates := testClock)
       [ threadAt "old@example.com" "March" (Some "900"%string);
         threadAt "undated@example.com" "hello" None;
         threadAt "today@example.com" "news" (Some "5000"%string);
         threadAt "garbled@example.com" "hi" (Some "yesterday"%string) ])
  = [lit "today@example.com"]
  /\ Forall (fun d => exists ms, dt_date d = Some ms)
       (filterByDateAndLimit (dates := testClock)
          [ threadAt "old@example.com" "March" (Some "900"%string);
            threadAt "undated@example.com" "hello" None;
            threadAt "today@example.com" "news" (Some "5000"%string);
            threadAt "garbled@example.com" "hi" (Some "yesterday"%string) ]).
Proof.
  split; [vm_compute; reflexivity|].
  eapply Forall_impl;
    [|apply (@date_filter_needs_a_readable_date testClock); reflexivity].
  intros d (ms & E & _). now exists ms.
Defined.

(** X16. With the date filter of the source in place, a local verdict of
    the inbox scan flags only threads that the content script returned and
    that are dated within the window, and no index in it reaches 50. *)
Theorem local_verdict_covers_only_recent_threads
    (host : Host) (dates : DateHost) (base : ScanEnv)
    (msgTabId : option N) (v : InboxVerdict) :
  scanInboxThreats (withDateFilter base) msgTabId = RespLocal v ->
  exists tab,
    resolveTab base msgTabId = Some tab
    /\ Forall (fun f =>
         tf_index f < 50
         /\ exists t ms,
              In t (requestInboxThreads base tab)
              /\ normalizeDate t = Some ms /\ (daysAgo 7 <= ms)%Z
              /\ tf_sender f = sender t /\ tf_subject f = subject t)
         (iv_findings v).
Proof.
  intros H. destruct (scan_local_verdict _ _ H) as (tab & Ht & ->).
  exists tab. split; [exact Ht|].
  cbn [withDateFilter filterThreadsByDateAndLimit requestInboxThreads].
  set (out := filterByDateAndLimit (requestInboxThreads base tab)).
  rewrite analyzeInboxLocally_findings.
  eapply Forall_impl; [|apply (inboxLoop_pushed (map dt_thread out) 0)].
  intros f (t & _ & Hn & _ & Hs & Hj & _). rewrite Nat.sub_0_r in Hn.
  split.
  - assert (L : tf_index f < length (map dt_thread out))
      by (apply nth_error_Some; congruence).
    rewrite length_map in L.
    pose proof (filterByDateAndLimit_length (requestInboxThreads base tab)).
    fold out in H0. lia.
  - apply nth_error_In in Hn. apply in_map_iff in Hn as (d & <- & Hd).
    destruct (filterByDateAndLimit_members _ _ Hd) as (Hin & En & ms & Ed & Hms).
    exists (dt_thread d), ms. repeat split; try assumption. congruence.
Qed.

Lemma local_verdict_covers_only_recent_threads_witness :
  exists tab,
    resolveTab
      (offlineEnv [ threadAt "alerts@pay-service.tk" "invoice"
                      (Some "5000"%string);
                    threadAt "old@pay-service.tk" "invoice"
                      (Some "900"%string) ])
      (Some 7%N) = Some tab
    /\ Forall (fun f =>
         tf_index f < 50
         /\ exists t ms,
              In t (requestInboxThreads
                      (offlineEnv
                         [ threadAt "alerts@pay-service.tk" "invoice"
                             (Some "5000"%string);
                           threadAt "old@pay-service.tk" "invoice"
                             (Some "900"%string) ]) tab)
              /\ normalizeDate (dates := testClock) t = Some ms
              /\ (daysAgo (DateHost := testClock) 7 <= ms)%Z
              /\ tf_sender f = sender t /\ tf_subject f = subject t)
         (iv_findings
            (analyzeInboxLocally (host := engine)
               [ threadAt "alerts@pay-service.tk" "invoice"
                   (Some "5000"%string) ])).
Proof.
  apply (@local_verdict_covers_only_recent_threads engine testClock
           (offlineEnv [ threadAt "alerts@pay-service.tk" "invoice"
                           (Some "5000"%string);
                         threadAt "old@pay-service.tk" "invoice"
                           (Some "900"%string) ])
           (Some 7%N)
           (analyzeInboxLocally (host := engine)
              [ threadAt "alerts@pay-service.tk" "invoice"
                  (Some "5000"%string) ])).
  vm_compute. reflexivity.
Defined.

(** ** The extraction of the inbox rows *)

Section ExtractionFacts.
Context {dates : DateHost}.

Lemma extractLoop_firstn maxThreads cutoff rows : forall count,
  extractLoop maxThreads cutoff rows count
  = firstn (maxThreads - count)
      (map rowThread (filter (fun r => negb (rowTooOld cutoff r)) rows)).
Proof.
  induction rows as [|row rest IH]; intros count; cbn [extractLoop].
  - now rewrite firstn_nil.
  - destruct (Nat.leb_spec maxThreads count) as [L | L].
    + replace (maxThreads - count) with 0 by lia. reflexivity.
    + cbn [filter]. destruct (rowTooOld cutoff row); cbn [negb].
      * apply IH.
      * rewrite IH. cbn [map].
        replace (maxThreads - count) with (S (maxThreads - S count)) by lia.
        reflexivity.
Qed.

Lemma orElse_truthy a b s : orElse a b = Some s -> b = None -> s <> [].
Proof.
  unfold orElse. intros E ->. destruct a as [x|]; [|discriminate].
  destruct x; cbn [isEmpty] in E; [discriminate|].
  injection E as <-. discriminate.
Qed.

(** The filter of the background rejects every row the extraction drops. *)
Lemma rowTooOld_rejected cutoff r :
  rowTooOld cutoff r = true ->
  notOlderThan cutoff
    {| dt_thread := rowThread r; dt_date := normalizeDate (rowThread r) |}
  = false.
Proof.
  unfold rowTooOld, rowParsedDate, notOlderThan, normalizeDate, whenTruthy.
  cbn [dt_date rowThread timestamp rawTimestamp].
  destruct (rowTimestamp r) as [ts|] eqn:Et.
  - assert (N : ts <> [])
      by (unfold rowTimestamp in Et; destruct (row_time r); [|discriminate];
          eapply orElse_truthy; [exact Et | reflexivity]).
    destruct ts as [|c ts]; [contradiction|]. cbn [isEmpty].
    destruct (dateParse (c :: ts)) as [ms|]; [|discriminate].
    intros H. apply Z.ltb_lt in H. apply Z.leb_gt. exact H.
  - destruct (rowRawTimestamp r) as [raw|] eqn:Er; [|discriminate].
    assert (N : raw <> [])
      by (eapply orElse_truthy; [exact Er | reflexivity]).
    destruct raw as [|c raw]; [contradiction|]. cbn [isEmpty].
    destruct (numberDate (c :: raw)) as [| |ms]; try discriminate.
    intros H. apply Z.ltb_lt in H. apply Z.leb_gt. exact H.
Qed.

Lemma filter_map_filter {A B : Type} (p : B -> bool) (q : A -> bool)
    (f : A -> B) (l : list A) :
  (forall x, q x = false -> p (f x) = false) ->
  filter p (map f (filter q l)) = filter p (map f l).
Proof.
  intros H. induction l as [|x l IH]; cbn [filter map]; [reflexivity|].
  destruct (q x) eqn:Q; cbn [filter map].
  - now rewrite IH.
  - rewrite (H x Q). exact IH.
Qed.

End ExtractionFacts.

(** X17. [extractInboxThreads] returns the threads of the first
    [maxThreads] rows that are not too old, in the order of the rows: a row
    is too old only when a valid date was read from it and lies before the
    cutoff, so rows without a readable date are kept. *)
Theorem extraction_takes_first_recent_rows
    (dates : DateHost) (rows : list InboxRow) (maxThreads : nat) (maxDays : N) :
  let cutoff := daysAgo (if N.eqb maxDays 0 then 7%N else maxDays) in
  extractInboxThreads rows maxThreads maxDays
  = firstn maxThreads
      (map rowThread (filter (fun r => negb (rowTooOld cutoff r)) rows))
  /\ length (extractInboxThreads rows maxThreads maxDays) <= maxThreads
  /\ forall r, rowParsedDate r = None \/ rowParsedDate r = Some None ->
               rowTooOld cutoff r = false.
Proof.
  cbv zeta. unfold extractInboxThreads. cbv zeta.
  rewrite extractLoop_firstn, Nat.sub_0_r.
  split; [reflexivity|]. split; [apply firstn_le_length|].
  intros r [E | E]; unfold rowTooOld; now rewrite E.
Qed.

(** X18. The date test of the extraction is covered by the date filter of
    the background: with the same clock and the window of seven days, a row
    that the extraction drops as too old would be rejected by
    [filterThreadsByDateAndLimit] as well.  So when the limit of the
    extraction is not reached, filtering the extracted threads gives what
    filtering the threads of all the rows gives. *)
Theorem extraction_then_filter
    (dates : DateHost) (rows : list InboxRow) (maxThreads : nat) :
  length rows <= maxThreads ->
  filterByDateAndLimit (extractInboxThreads rows maxThreads 7)
  = filterByDateAndLimit (map rowThread rows).
Proof.
  intros L. unfold extractInboxThreads. cbv zeta.
  rewrite extractLoop_firstn, Nat.sub_0_r. cbn [N.eqb].
  rewrite firstn_all2.
  2:{ rewrite length_map.
      etransitivity; [apply filter_length_le | exact L]. }
  unfold filterByDateAndLimit. cbv zeta. do 2 f_equal.
  rewrite !map_map.
  apply (filter_map_filter (notOlderThan (daysAgo 7))
           (fun r => negb (rowTooOld (daysAgo 7) r))
           (fun r => {| dt_thread := rowThread r;
                        dt_date := normalizeDate (rowThread r) |})).
  intros r Q. apply rowTooOld_rejected.
  now destruct (rowTooOld (daysAgo 7) r).
Qed.

Lemma extraction_takes_first_recent_rows_witness :
  map sender
    (extractInboxThreads (dates := testClock)
       [ rowOf " old@example.com " "March" (Some "900"%string);
         rowOf "undated@example.com" "hello" None;
         rowOf "today@example.com" "news" (Some "5000"%string);
         rowOf "later@example.com" "more" (Some "6000"%string) ] 2 7)
  = [lit "undated@example.com"; lit "today@example.com"]
  /\ rowTooOld (dates := testClock) 1000
       (rowOf "undated@example.com" "hello" None) = false.
Proof.
  destruct (@extraction_takes_first_recent_rows testClock
              [ rowOf " old@example.com " "March" (Some "900"%string);
                rowOf "undated@example.com" "hello" None;
                rowOf "today@example.com" "news" (Some "5000"%string);
                rowOf "later@example.com" "more" (Some "6000"%string) ] 2 7)
    as (E & _ & K).
  split.
  - rewrite E. vm_compute. reflexivity.
  - apply K. left. reflexivity.
Defined.

Lemma extraction_then_filter_witness :
  map (fun d => sender (dt_thread d))
    (filterByDateAndLimit (dates := testClock)
       (extractInboxThreads (dates := testClock)
          [ rowOf "old@example.com" "March" (Some "900"%string);
            rowOf "undated@example.com" "hello" None;
            rowOf "today@example.com" "news" (Some "5000"%string) ] 50 7))
  = [lit "today@example.com"].
Proof.
  rewrite (@extraction_then_filter testClock
             [ rowOf "old@example.com" "March" (Some "900"%string);
               rowOf "undated@example.com" "hello" None;
               rowOf "today@example.com" "news" (Some "5000"%string) ] 50).
  - vm_compute. reflexivity.
  - cbn. lia.
Defined.




(** ** The AI provider *)

Section ProviderFacts.
Context {host : Host}.

Lemma sendPromptTo_by_request fetch stored prompt stream :
  (forall e, fetch (promptRequest stored prompt stream) = Throw e ->
             sendPromptTo fetch stored prompt stream = Throw e)
  /\ (forall r, fetch (promptRequest stored prompt stream) = Normal r ->
                rs_ok r = false ->
                exists msg, sendPromptTo fetch stored prompt stream
                            = Throw (Rejected msg))
  /\ (forall r e, fetch (promptRequest stored prompt stream) = Normal r ->
                  rs_ok r = true -> stream = false ->
                  JSON_parse (rs_body r) = Throw e ->
                  sendPromptTo fetch stored prompt stream = Throw e).
Proof.
  unfold sendPromptTo, promptRequest.
  destruct (ps_provider (getProviderSettings stored));
    unfold sendOllamaPrompt, sendOpenAICompatiblePrompt, sendAnthropicPrompt;
    (split; [|split]); intros;
    repeat match goal with
    | H : fetch _ = _ |- _ => rewrite H; clear H
    end;
    cbn [bind];
    repeat match goal with
    | H : rs_ok _ = _ |- _ => rewrite H; clear H
    end;
    cbn [negb]; subst;
    repeat match goal with
    | H : JSON_parse _ = _ |- _ => rewrite H; clear H
    end;
    cbn [bind]; eauto.
Qed.

Lemma scan_with_threads env msgTabId tab t rest :
  resolveTab env msgTabId = Some tab ->
  requestInboxThreads env tab = t :: rest ->
  scanInboxThreats env msgTabId
  = match classifyFiltered env (filterThreadsByDateAndLimit env (t :: rest))
    with
    | Normal r => r
    | Throw err => RespScanFailed err
    end.
Proof.
  unfold resolveTab, scanInboxThreats. cbv zeta.
  destruct (match msgTabId with
            | Some t0 => if N.eqb t0 0 then findActiveGmailTabId env
                         else Some t0
            | None => findActiveGmailTabId env
            end) as [tab'|]; [|discriminate].
  destruct (N.eqb tab' 0); [discriminate|].
  intros [= ->] R. cbn [negb]. rewrite R. reflexivity.
Qed.

End ProviderFacts.

Lemma settings_config stored :
  ps_config (getProviderSettings stored)
  = AI_PROVIDERS (ps_provider (getProviderSettings stored)).
Proof. destruct stored; reflexivity. Qed.

Lemma checkProviderReady_ollama fetch stored :
  ps_provider (getProviderSettings stored) = ollama ->
  checkProviderReady fetch stored
  = match fetch (ollamaTestRequest (AI_PROVIDERS ollama)) with
    | Normal response =>
        if rs_ok response then
          {| rd_ready := true; rd_reason := lit "Ollama is running";
             rd_needsSetup := None |}
        else
          {| rd_ready := false;
             rd_reason := lit "Ollama is not responding. Make sure it's installed and running.";
             rd_needsSetup := Some true |}
    | Throw _ =>
        {| rd_ready := false;
           rd_reason := lit "Cannot connect to Ollama. Is it running?";
           rd_needsSetup := Some true |}
    end.
Proof.
  intros P. unfold checkProviderReady. rewrite settings_config, P.
  reflexivity.
Qed.

Lemma checkProviderReady_api fetch stored :
  ps_provider (getProviderSettings stored) <> ollama ->
  checkProviderReady fetch stored
  = if isEmpty (ps_apiKey (getProviderSettings stored)) then
      {| rd_ready := false;
         rd_reason := pc_name (ps_config (getProviderSettings stored))
           ++ lit " requires an API key. Please configure it in Settings.";
         rd_needsSetup := Some true |}
    else
      {| rd_ready := true;
         rd_reason := pc_name (ps_config (getProviderSettings stored))
           ++ lit " is configured";
         rd_needsSetup := None |}.
Proof.
  intros P. unfold checkProviderReady.
  rewrite !settings_config.
  destruct (ps_provider (getProviderSettings stored)); [contradiction| | | |];
    cbn [AI_PROVIDERS pc_requiresApiKey andb Provider_eqb];
    destruct (isEmpty _); reflexivity.
Qed.

(** X19. The provider counts as ready exactly in two cases: it is Ollama
    (also the default when nothing is stored or the storage fails) and its
    test endpoint answers OK, or it is one of the API providers and an API
    key is stored.  For an API provider the answer does not depend on the
    network, and every answer that is not ready asks for set-up. *)
Theorem provider_ready_iff (fetch : Network)
    (stored : Completion StoredSettings) :
  let settings := getProviderSettings stored in
  (rd_ready (checkProviderReady fetch stored) = true
   <-> (ps_provider settings = ollama
        /\ exists r, fetch (ollamaTestRequest (AI_PROVIDERS ollama)) = Normal r
                     /\ rs_ok r = true)
       \/ (ps_provider settings <> ollama /\ ps_apiKey settings <> []))
  /\ (rd_ready (checkProviderReady fetch stored) = false ->
      rd_needsSetup (checkProviderReady fetch stored) = Some true)
  /\ (ps_provider settings <> ollama ->
      forall fetch', checkProviderReady fetch' stored
                     = checkProviderReady fetch stored)
  /\ (forall e, getProviderSettings (Throw e)
                = {| ps_provider := ollama; ps_apiKey := [];
                     ps_config := AI_PROVIDERS ollama |}).
Proof.
  cbv zeta. split; [|split; [|split]].
  - destruct (ps_provider (getProviderSettings stored)) eqn:P.
    + rewrite (checkProviderReady_ollama fetch stored P).
      destruct (fetch (ollamaTestRequest (AI_PROVIDERS ollama)))
        as [r|e] eqn:F; [destruct (rs_ok r) eqn:O|]; cbn [rd_ready].
      * split; [intros _; left; split; [reflexivity | now exists r]
               | reflexivity].
      * split; [discriminate|].
        intros [(_ & r' & E & O') | [N _]]; [congruence | contradiction].
      * split; [discriminate|].
        intros [(_ & r' & E & _) | [N _]]; [discriminate | contradiction].
    + rewrite checkProviderReady_api by (rewrite P; discriminate).
      destruct (ps_apiKey (getProviderSettings stored)); cbn [isEmpty rd_ready].
      * split; [discriminate|].
        intros [[N _] | [_ N]]; [discriminate | contradiction].
      * split; [intros _; right; split; discriminate | reflexivity].
    + rewrite checkProviderReady_api by (rewrite P; discriminate).
      destruct (ps_apiKey (getProviderSettings stored)); cbn [isEmpty rd_ready].
      * split; [discriminate|].
        intros [[N _] | [_ N]]; [discriminate | contradiction].
      * split; [intros _; right; split; discriminate | reflexivity].
    + rewrite checkProviderReady_api by (rewrite P; discriminate).
      destruct (ps_apiKey (getProviderSettings stored)); cbn [isEmpty rd_ready].
      * split; [discriminate|].
        intros [[N _] | [_ N]]; [discriminate | contradiction].
      * split; [intros _; right; split; discriminate | reflexivity].
    + rewrite checkProviderReady_api by (rewrite P; discriminate).
      destruct (ps_apiKey (getProviderSettings stored)); cbn [isEmpty rd_ready].
      * split; [discriminate|].
        intros [[N _] | [_ N]]; [discriminate | contradiction].
      * split; [intros _; right; split; discriminate | reflexivity].
  - destruct (ps_provider (getProviderSettings stored)) eqn:P.
    + rewrite (checkProviderReady_ollama fetch stored P).
      destruct (fetch (ollamaTestRequest (AI_PROVIDERS ollama)))
        as [r|e]; [destruct (rs_ok r)|]; cbn; congruence.
    + rewrite checkProviderReady_api by (rewrite P; discriminate).
      destruct (isEmpty _); cbn; congruence.
    + rewrite checkProviderReady_api by (rewrite P; discriminate).
      destruct (isEmpty _); cbn; congruence.
    + rewrite checkProviderReady_api by (rewrite P; discriminate).
      destruct (isEmpty _); cbn; congruence.
    + rewrite checkProviderReady_api by (rewrite P; discriminate).
      destruct (isEmpty _); cbn; congruence.
  - intros P fetch'. now rewrite !checkProviderReady_api by exact P.
  - reflexivity.
Qed.

Lemma provider_ready_iff_witness :
  rd_ready (checkProviderReady unreachable
              (Normal {| st_aiProvider := Some groq;
                         st_apiKey := Some (lit "gsk_example") |})) = true
  /\ rd_needsSetup (checkProviderReady unreachable
                      (Normal {| st_aiProvider := None; st_apiKey := None |}))
     = Some true.
Proof.
  split.
  - apply (proj1 (@provider_ready_iff unreachable
             (Normal {| st_aiProvider := Some groq;
                        st_apiKey := Some (lit "gsk_example") |}))).
    right. split; discriminate.
  - apply (proj1 (proj2 (@provider_ready_iff unreachable
             (Normal {| st_aiProvider := None; st_apiKey := None |})))).
    reflexivity.
Defined.

(** X20. [sendPrompt(prompt, false)] makes one request, the one for the
    stored provider, and resolves exactly when that request is answered
    with an OK status and a JSON body from which the completion can be
    read.  What it resolves with is the completion read from the body,
    never the response itself: [data.response || ""] for Ollama,
    [data.content[0].text] for Anthropic and
    [data.choices[0].message.content] for the other providers.  It rejects
    when the request fails, when the status is not OK (with a message that
    carries the status), and when the body is not JSON. *)
Theorem prompt_needs_ok_json_response
    (host : Host) (fetch : Network) (stored : Completion StoredSettings)
    (prompt : jsstring) :
  let request := promptRequest stored prompt false in
  let provider := ps_provider (getProviderSettings stored) in
  let readFrom (data text : jsval) :=
    match provider with
    | ollama =>
        exists v, getProp data (lit "response") = Normal v
                  /\ text = jsOr v (JStr [])
    | anthropic =>
        exists content block,
          getProp data (lit "content") = Normal content
          /\ getFirst content = Normal block
          /\ getProp block (lit "text") = Normal text
    | _ =>
        exists choices choice message,
          getProp data (lit "choices") = Normal choices
          /\ getFirst choices = Normal choice
          /\ getProp choice (lit "message") = Normal message
          /\ getProp message (lit "content") = Normal text
    end in
  (forall out,
     sendPromptTo fetch stored prompt false = Normal out
     <-> exists r data text,
           fetch request = Normal r /\ rs_ok r = true
           /\ JSON_parse (rs_body r) = Normal data
           /\ readFrom data text /\ out = Completed text)
  /\ (forall e, fetch request = Throw e ->
                sendPromptTo fetch stored prompt false = Throw e)
  /\ (forall r, fetch request = Normal r -> rs_ok r = false ->
        sendPromptTo fetch stored prompt false
        = Throw (Rejected
            match provider with
            | ollama => lit "Ollama request failed: " ++ ofNat (rs_status r)
            | anthropic =>
                lit "Anthropic request failed (" ++ ofNat (rs_status r)
                ++ lit "): " ++ rs_body r
            | _ =>
                pc_name (AI_PROVIDERS provider) ++ lit " request failed ("
                ++ ofNat (rs_status r) ++ lit "): " ++ rs_body r
            end))
  /\ (forall r e, fetch request = Normal r -> rs_ok r = true ->
                  JSON_parse (rs_body r) = Throw e ->
                  sendPromptTo fetch stored prompt false = Throw e).
Proof.
  cbv zeta.
  destruct (sendPromptTo_by_request fetch stored prompt false) as (A & _ & C).
  split; [|split; [exact A|split;
                   [|intros r e F O J; exact (C r e F O eq_refl J)]]].
  - intros out. unfold sendPromptTo, promptRequest.
    destruct (ps_provider (getProviderSettings stored));
      unfold sendOllamaPrompt, sendOpenAICompatiblePrompt,
             sendAnthropicPrompt;
      cbv beta iota; (split;
      [ match goal with
        | |- context [fetch ?q] =>
            destruct (fetch q) as [r|] eqn:F; [|discriminate]
        end;
        cbn [bind]; destruct (rs_ok r) eqn:O; cbn [negb]; try discriminate;
        destruct (JSON_parse (rs_body r)) as [data|] eqn:J; cbn [bind];
        try discriminate;
        repeat match goal with
        | |- context [bind ?c _] =>
            let E := fresh "E" in
            destruct c eqn:E; cbn [bind]; try discriminate
        end;
        intros [= <-]; exists r, data; eexists;
        repeat (split; [first [reflexivity | eassumption]|]);
        repeat eexists; eassumption
      | intros (r & data & text & F & O & J & R & ->);
        rewrite F; cbn [bind]; rewrite O; cbn [negb];
        rewrite J; cbn [bind] ]).
    + destruct R as (v & E & ->). now rewrite E.
    + destruct R as (c1 & c2 & c3 & E1 & E2 & E3 & E4).
      rewrite E1; cbn [bind]; rewrite E2; cbn [bind].
      rewrite E3; cbn [bind]. now rewrite E4.
    + destruct R as (c1 & c2 & c3 & E1 & E2 & E3 & E4).
      rewrite E1; cbn [bind]; rewrite E2; cbn [bind].
      rewrite E3; cbn [bind]. now rewrite E4.
    + destruct R as (c1 & c2 & c3 & E1 & E2 & E3 & E4).
      rewrite E1; cbn [bind]; rewrite E2; cbn [bind].
      rewrite E3; cbn [bind]. now rewrite E4.
    + destruct R as (c1 & c2 & E1 & E2 & E3).
      rewrite E1; cbn [bind]; rewrite E2; cbn [bind]. now rewrite E3.
  - intros r F O. unfold sendPromptTo, promptRequest in *.
    rewrite !settings_config in *.
    destruct (ps_provider (getProviderSettings stored));
      unfold sendOllamaPrompt, sendOpenAICompatiblePrompt,
             sendAnthropicPrompt;
      rewrite F; cbn [bind]; rewrite O; reflexivity.
Qed.

Lemma prompt_needs_ok_json_response_witness :
  sendPromptTo (host := engine)
    (answering {| rs_ok := false; rs_status := 429;
                  rs_body := lit "rate limited" |})
    (Normal {| st_aiProvider := Some groq;
               st_apiKey := Some (lit "gsk_example") |})
    (lit "Summarize") false
  = Throw (Rejected (lit "Groq request failed (429): rate limited"))
  /\ sendPromptTo (host := engine)
       (answering {| rs_ok := true; rs_status := 200;
                     rs_body := lit "<html>Bad gateway</html>" |})
       (Normal {| st_aiProvider := Some anthropic;
                  st_apiKey := Some (lit "sk-example") |})
       (lit "Summarize") false
     = Throw SyntaxError
  /\ sendPromptTo (host := engine)
       (answering {| rs_ok := true; rs_status := 200;
                     rs_body := litq "{~response~: ~All quiet.~, ~done~: true}" |})
       (Normal {| st_aiProvider := None; st_apiKey := None |})
       (lit "Summarize") false
     = Normal (Completed (JStr (lit "All quiet."))).
Proof.
  split; [|split].
  - refine (eq_trans
             (proj1 (proj2 (proj2 (@prompt_needs_ok_json_response engine
                (answering {| rs_ok := false; rs_status := 429;
                              rs_body := lit "rate limited" |})
                (Normal {| st_aiProvider := Some groq;
                           st_apiKey := Some (lit "gsk_example") |})
                (lit "Summarize"))))
                {| rs_ok := false; rs_status := 429;
                   rs_body := lit "rate limited" |} eq_refl eq_refl) _).
    vm_compute. reflexivity.
  - eapply (proj2 (proj2 (proj2 (@prompt_needs_ok_json_response engine _ _ _))));
      [reflexivity | reflexivity | vm_compute; reflexivity].
  - apply (proj1 (@prompt_needs_ok_json_response engine
             (answering {| rs_ok := true; rs_status := 200;
                           rs_body := litq "{~response~: ~All quiet.~, ~done~: true}" |})
             (Normal {| st_aiProvider := None; st_apiKey := None |})
             (lit "Summarize"))).
    eexists. eexists. exists (JStr (lit "All quiet.")).
    split; [reflexivity|]. split; [reflexivity|].
    split; [vm_compute; reflexivity|].
    split; [|reflexivity].
    eexists. split; [vm_compute; reflexivity|]. reflexivity.
Defined.

(** X21. The stored API key travels only in the header the provider
    expects: the request goes to the endpoint of the stored provider, its
    body is the same whatever the key, and the request to Ollama (also the
    default provider) does not contain the key at all. *)
Theorem api_key_only_in_provider_header
    (provider : option Provider) (key other : option jsstring)
    (prompt : jsstring) (stream : bool) :
  let request k :=
    promptRequest (Normal {| st_aiProvider := provider; st_apiKey := k |})
                  prompt stream in
  rq_url (request key)
  = pc_endpoint (AI_PROVIDERS (match provider with
                               | Some p => p
                               | None => ollama
                               end))
  /\ rq_body (request key) = rq_body (request other)
  /\ match provider with
     | None | Some ollama => request key = request other
     | Some anthropic =>
         rq_headers (request key)
         = [ contentTypeJson;
             (lit "x-api-key", match key with Some k => k | None => [] end);
             (lit "anthropic-version", lit "2023-06-01") ]
     | Some _ =>
         rq_headers (request key)
         = [ contentTypeJson;
             (lit "Authorization",
              lit "Bearer " ++ match key with Some k => k | None => [] end) ]
     end.
Proof. destruct provider as [[]|]; repeat split. Qed.

(** X22. A transport failure never reaches the user of the inbox scan: when
    the request to the provider fails, is answered with a status that is not
    OK, or is answered with a body that is not JSON, the scan answers with
    the verdict of the local analyzer on the filtered threads. *)
Theorem transport_failure_gives_local_verdict
    (host : Host) (fetch : Network) (stored : Completion StoredSettings)
    (base : ScanEnv) (msgTabId : option N) (tab : N)
    (t : ThreadRecord) (rest : list ThreadRecord) :
  resolveTab base msgTabId = Some tab ->
  requestInboxThreads base tab = t :: rest ->
  let filtered := filterThreadsByDateAndLimit base (t :: rest) in
  let request := promptRequest stored (inboxThreatPrompt filtered) false in
  (exists e, fetch request = Throw e)
  \/ (exists r, fetch request = Normal r
                /\ (rs_ok r = false
                    \/ (rs_ok r = true
                        /\ exists e, JSON_parse (rs_body r) = Throw e))) ->
  scanInboxThreats (withProvider fetch stored base) msgTabId
  = RespLocal (analyzeInboxLocally filtered).
Proof.
  intros Htab Hreq filtered request Hfail.
  rewrite (@scan_with_threads host (withProvider fetch stored base)
             msgTabId tab t rest Htab Hreq).
  cbn [withProvider filterThreadsByDateAndLimit]. fold filtered.
  rewrite classifyFiltered_fallback; [reflexivity|].
  left. cbn [withProvider sendPrompt].
  destruct (sendPromptTo_by_request fetch stored
              (inboxThreatPrompt filtered) false) as (A & B & C).
  fold request in A, B, C.
  destruct Hfail as [(e & F) | (r & F & [O | (O & e & J)])].
  - exists e. now rewrite (A e F).
  - destruct (B r F O) as (msg & ->). now exists (Rejected msg).
  - exists e. now rewrite (C r e F O eq_refl J).
Qed.

Lemma transport_failure_gives_local_verdict_witness :
  scanInboxThreats (host := engine)
    (withProvider (host := engine) unreachable
       (Normal {| st_aiProvider := Some openai;
                  st_apiKey := Some (lit "sk-example") |})
       (inboxOf [threadOf "billing@pay-service.tk" "invoice"]))
    None
  = RespLocal (analyzeInboxLocally (host := engine)
                 [threadOf "billing@pay-service.tk" "invoice"]).
Proof.
  apply (@transport_failure_gives_local_verdict engine unreachable
           (Normal {| st_aiProvider := Some openai;
                      st_apiKey := Some (lit "sk-example") |})
           (inboxOf [threadOf "billing@pay-service.tk" "invoice"])
           None 1%N (threadOf "billing@pay-service.tk" "invoice") []).
  - reflexivity.
  - reflexivity.
  - left. eexists. reflexivity.
Defined.

(** ** The unsubscribe link *)

Section UnsubscribeFacts.
Context {host : Host}.

Lemma firstHref_some test anchors h :
  firstHref test anchors = Some h ->
  exists a, In a anchors /\ test a = true /\ pa_href a = h.
Proof.
  induction anchors as [|a rest IH]; cbn [firstHref]; [discriminate|].
  destruct (test a) eqn:T; intros E.
  - exists a. split; [now left|]. split; [exact T|congruence].
  - destruct (IH E) as (b & Hb & Tb & Eb). exists b.
    split; [now right|]. now split.
Qed.

Lemma firstHref_none test anchors :
  firstHref test anchors = None
  <-> forall a, In a anchors -> test a = false.
Proof.
  induction anchors as [|a rest IH]; cbn [firstHref].
  - split; [intros _ a Ha; contradiction|reflexivity].
  - destruct (test a) eqn:T.
    + split; [discriminate|]. intros H.
      specialize (H a (or_introl eq_refl)). congruence.
    + rewrite IH. split.
      * intros H b Hb. destruct Hb as [<-|Hb]; [exact T|now apply H].
      * intros H b Hb. apply H. now right.
Qed.

Lemma firstHref_first test before a after :
  (forall b, In b before -> test b = false) -> test a = true ->
  firstHref test (before ++ a :: after) = Some (pa_href a).
Proof.
  induction before as [|b rest IH]; intros Hb Ha; cbn [app firstHref].
  - now rewrite Ha.
  - rewrite (Hb b (or_introl eq_refl)). apply IH; [|exact Ha].
    intros c Hc. apply Hb. now right.
Qed.

Lemma relUnsub_nil page :
  filter (fun h => negb (isEmpty h))
         (map pa_href (filter pa_relUnsubscribe page)) = []
  <-> forall b, In b page -> pa_relUnsubscribe b = true -> pa_href b = [].
Proof.
  induction page as [|a rest IH]; cbn [filter map].
  - split; [intros _ b Hb; contradiction|reflexivity].
  - destruct (pa_relUnsubscribe a) eqn:R; cbn [map filter].
    + destruct (pa_href a) as [|c h] eqn:E; cbn [isEmpty negb].
      * rewrite IH. split.
        -- intros H b Hb Rb. destruct Hb as [<-|Hb]; [exact E|now apply H].
        -- intros H b Hb. apply H. now right.
      * split; [discriminate|]. intros H.
        specialize (H a (or_introl eq_refl) R). congruence.
    + rewrite IH. split.
      * intros H b Hb Rb. destruct Hb as [<-|Hb]; [congruence|now apply H].
      * intros H b Hb. apply H. now right.
Qed.

Lemma relUnsub_members page h :
  In h (filter (fun h => negb (isEmpty h))
               (map pa_href (filter pa_relUnsubscribe page))) ->
  exists a, In a page /\ pa_relUnsubscribe a = true
            /\ pa_href a = h /\ h <> [].
Proof.
  intros H. apply filter_In in H as (H & Hne).
  apply in_map_iff in H as (a & E & Ha).
  apply filter_In in Ha as (Ha & R). exists a.
  split; [exact Ha|]. split; [exact R|]. split; [exact E|].
  intros E0. rewrite E0 in Hne. discriminate.
Qed.

(** X23. [findUnsubscribeLink] answers [null] exactly when no anchor of the
    page qualifies: none selected by [rel~=unsubscribe] has a non-empty
    [href], and none with an [href] attribute mentions unsubscribe in its
    text or has an unsubscribe pattern in its address. What it returns
    otherwise is the [href] of an anchor of the page that qualifies. *)
Theorem unsubscribe_link_found_iff_an_anchor_qualifies
    (page : list PageAnchor) :
  (findUnsubscribeLink page = None
   <-> forall a, In a page ->
         (pa_relUnsubscribe a = true -> pa_href a = [])
         /\ (pa_hasHref a = true ->
             textSaysUnsubscribe a = false
             /\ hrefLooksLikeUnsubscribe (pa_href a) = false))
  /\ (forall h, findUnsubscribeLink page = Some h ->
        exists a, In a page /\ pa_href a = h
          /\ ((pa_relUnsubscribe a = true /\ h <> [])
              \/ (pa_hasHref a = true
                  /\ (textSaysUnsubscribe a = true
                      \/ hrefLooksLikeUnsubscribe h = true)))).
Proof.
  unfold findUnsubscribeLink. cbv zeta.
  destruct (filter (fun h => negb (isEmpty h))
              (map pa_href (filter pa_relUnsubscribe page)))
    as [|first others] eqn:R.
  - pose proof (proj1 (relUnsub_nil page) R) as Hrel.
    destruct (firstHref textSaysUnsubscribe (filter pa_hasHref page))
      as [h0|] eqn:T.
    + destruct (firstHref_some _ _ T) as (a & Ha & Ta & Ea).
      apply filter_In in Ha as (Ha & Hh). split.
      * split; [discriminate|]. intros H.
        destruct (H a Ha) as (_ & H2). destruct (H2 Hh). congruence.
      * intros h E. exists a. split; [exact Ha|].
        split; [congruence|]. right. split; [exact Hh|now left].
    + pose proof (proj1 (firstHref_none _ _) T) as Htext.
      destruct (firstHref (fun a => hrefLooksLikeUnsubscribe (pa_href a))
                  (filter pa_hasHref page)) as [h0|] eqn:U.
      * destruct (firstHref_some _ _ U) as (a & Ha & Ua & Ea).
        apply filter_In in Ha as (Ha & Hh). split.
        -- split; [discriminate|]. intros H.
           destruct (H a Ha) as (_ & H2). destruct (H2 Hh). congruence.
        -- intros h E. exists a. split; [exact Ha|].
           assert (E2 : pa_href a = h) by congruence.
           split; [exact E2|]. right. split; [exact Hh|].
           right. now rewrite <- E2.
      * pose proof (proj1 (firstHref_none _ _) U) as Hurl. split.
        -- split; [|reflexivity]. intros _ a Ha. split.
           ++ now apply Hrel.
           ++ intros Hh. split.
              ** apply Htext. apply filter_In. now split.
              ** apply (Hurl a). apply filter_In. now split.
        -- discriminate.
  - assert (Hin : In first
                    (filter (fun h => negb (isEmpty h))
                       (map pa_href (filter pa_relUnsubscribe page))))
      by (rewrite R; now left).
    destruct (relUnsub_members _ _ Hin) as (a & Ha & Ra & Ea & Hne). split.
    + split; [discriminate|]. intros H.
      destruct (H a Ha) as (H1 & _). specialize (H1 Ra). congruence.
    + intros h E. assert (E2 : first = h) by congruence. subst h.
      exists a. split; [exact Ha|]. split; [exact Ea|]. left. now split.
Qed.

(** X24. The order of preference of [findUnsubscribeLink]: the first anchor
    selected by [rel~=unsubscribe] with a non-empty [href] wins over every
    other anchor of the page; without one, the first anchor whose text
    mentions unsubscribe wins, also over anchors before it whose address
    has an unsubscribe pattern. *)
Theorem unsubscribe_link_priority (before after : list PageAnchor)
    (a : PageAnchor) :
  (pa_relUnsubscribe a = true /\ pa_href a <> []
   /\ (forall b, In b before -> pa_relUnsubscribe b = true ->
                 pa_href b = []))
  \/ ((forall b, In b (before ++ a :: after) ->
                 pa_relUnsubscribe b = true -> pa_href b = [])
      /\ pa_hasHref a = true /\ textSaysUnsubscribe a = true
      /\ (forall b, In b before -> pa_hasHref b = true ->
                    textSaysUnsubscribe b = false)) ->
  findUnsubscribeLink (before ++ a :: after) = Some (pa_href a).
Proof.
  intros [(Ra & Hne & Hb)|(Hrel & Hh & Ta & Hb)];
    unfold findUnsubscribeLink; cbv zeta.
  - rewrite filter_app, map_app, filter_app.
    rewrite (proj2 (relUnsub_nil before) Hb). cbn [app filter].
    rewrite Ra. cbn [map filter].
    destruct (pa_href a) as [|c h]; [congruence|]. reflexivity.
  - rewrite (proj2 (relUnsub_nil _) Hrel).
    rewrite filter_app. cbn [filter]. rewrite Hh.
    rewrite firstHref_first; [reflexivity| |exact Ta].
    intros b Hin. apply filter_In in Hin as (Hin & Hbh). now apply Hb.
Qed.

End UnsubscribeFacts.

Lemma unsubscribe_link_priority_witness :
  findUnsubscribeLink (host := engine)
    ([ {| pa_relUnsubscribe := false; pa_hasHref := true;
          pa_href := lit "https://shop.example/unsubscribe?u=1";
          pa_textContent := lit "Manage preferences" |} ]
     ++ {| pa_relUnsubscribe := false; pa_hasHref := true;
           pa_href := lit "https://shop.example/optout";
           pa_textContent := lit "  UNSUBSCRIBE here " |}
     :: [])
  = Some (lit "https://shop.example/optout").
Proof.
  apply (@unsubscribe_link_priority engine
           [ {| pa_relUnsubscribe := false; pa_hasHref := true;
                pa_href := lit "https://shop.example/unsubscribe?u=1";
                pa_textContent := lit "Manage preferences" |} ]
           []
           {| pa_relUnsubscribe := false; pa_hasHref := true;
              pa_href := lit "https://shop.example/optout";
              pa_textContent := lit "  UNSUBSCRIBE here " |}).
  right. split; [|split; [reflexivity|split; [vm_compute; reflexivity|]]].
  - intros b Hb R. cbn [app In] in Hb.
    destruct Hb as [<-|[<-|Hb]]; [discriminate R|discriminate R|contradiction].
  - intros b Hb _. cbn [In] in Hb. destruct Hb as [<-|Hb]; [|contradiction].
    vm_compute. reflexivity.
Defined.

(** ** The label of the unsubscribe link *)

(** X25. The label [formatLinkForDisplay] shows is never longer than
    [maxLength + 1] code units, or the 21 of the fixed label of an address
    that does not parse; when the address parses, the first [maxLength]
    code units of the label are those of host name and path. *)
Theorem link_label_is_bounded (host : Host)
    (urlPathname : jsstring -> jsstring) (url : jsstring) (maxLength : nat) :
  length (formatLinkForDisplay urlPathname url maxLength)
    <= Nat.max (S maxLength) 21
  /\ (forall hostname, urlHostname url = Normal hostname ->
        firstn maxLength (formatLinkForDisplay urlPathname url maxLength)
        = firstn maxLength (hostname ++ urlPathname url)).
Proof.
  unfold formatLinkForDisplay.
  destruct (urlHostname url) as [hn|e]; cbv zeta.
  - destruct (maxLength <? length (hn ++ urlPathname url)) eqn:L.
    + apply Nat.ltb_lt in L.
      assert (F : length (firstn maxLength (hn ++ urlPathname url))
                  = maxLength) by (rewrite length_firstn; lia).
      split.
      * rewrite length_app, F. cbn [length]. lia.
      * intros hostname E. assert (E2 : hn = hostname) by congruence.
        subst hostname. rewrite firstn_app, F, Nat.sub_diag.
        cbn [firstn]. rewrite app_nil_r, firstn_firstn.
        now rewrite Nat.min_id.
    + apply Nat.ltb_ge in L. split; [lia|].
      intros hostname E. congruence.
  - split; [|discriminate].
    change (length (lit "Open unsubscribe link")) with 21. lia.
Qed.

(** ** The context of the Gmail page *)

Lemma stripLit_app p : forall s r, stripLit p s = Some r -> s = p ++ r.
Proof.
  induction p as [|c p IH]; intros s r; cbn [stripLit].
  - intros E. cbn [app]. congruence.
  - destruct s as [|d s]; [discriminate|].
    destruct (N.eqb c d) eqn:E; [|discriminate].
    apply N.eqb_eq in E. subst d. intros H.
    cbn [app]. f_equal. now apply IH.
Qed.

Lemma stripLit_forallb q p s r :
  stripLit p s = Some r -> forallb q s = true -> forallb q r = true.
Proof.
  intros E H. apply stripLit_app in E. subst s.
  rewrite forallb_app in H. now apply andb_true_iff in H as (_ & H).
Qed.

Lemma stripAny_forallb q names : forall s r,
  stripAny names s = Some r -> forallb q s = true -> forallb q r = true.
Proof.
  induction names as [|n rest IH]; intros s r; cbn [stripAny];
    [discriminate|].
  destruct (stripLit n s) as [r0|] eqn:E.
  - intros E2 H. assert (E3 : r0 = r) by congruence. subst r0.
    exact (stripLit_forallb q _ _ E H).
  - apply IH.
Qed.

Lemma forallb_skipn (q : N -> bool) : forall n s,
  forallb q s = true -> forallb q (skipn n s) = true.
Proof.
  induction n as [|n IH]; intros s H; [exact H|].
  destruct s as [|c s]; [reflexivity|]. cbn [skipn].
  cbn [forallb] in H. apply andb_true_iff in H as (_ & H). now apply IH.
Qed.

Lemma takeWhile_all p : forall s, forallb p s = true -> takeWhile p s = s.
Proof.
  induction s as [|c s IH]; cbn [forallb takeWhile]; [reflexivity|].
  intros H. apply andb_true_iff in H as (Hc & H).
  rewrite Hc. f_equal. now apply IH.
Qed.

Lemma folderThenId_needs_slash s :
  forallb isNotSlash s = true -> folderThenId s = false.
Proof.
  intros H. unfold folderThenId. cbv zeta.
  assert (A : forall r,
             match stripAny messageFolders s with
             | Some r => Some r
             | None => stripLabel s
             end = Some r -> forallb isNotSlash r = true).
  { intros r. destruct (stripAny messageFolders s) as [r0|] eqn:E.
    - intros E2. assert (E3 : r0 = r) by congruence. subst r0.
      exact (stripAny_forallb isNotSlash _ _ E H).
    - unfold stripLabel.
      destruct (stripLit (lit "label/") s) as [r0|] eqn:E2; [|discriminate].
      pose proof (stripLit_forallb isNotSlash _ _ E2 H) as H0.
      destruct (takeWhile isNotSlash r0) as [|c name]; [discriminate|].
      intros E3. assert (E4 : skipn (length (c :: name)) r0 = r)
        by congruence.
      subst r. now apply forallb_skipn. }
  destruct (match stripAny messageFolders s with
            | Some r => Some r
            | None => stripLabel s
            end) as [[|slash [|c r]]|]; try reflexivity.
  specialize (A _ eq_refl). cbn [forallb] in A.
  apply andb_true_iff in A as (A & _). unfold isNotSlash in A.
  apply negb_true_iff in A. now rewrite A.
Qed.

Lemma hashHasMessageId_needs_slash : forall s,
  forallb isNotSlash s = true -> hashHasMessageId s = false.
Proof.
  induction s as [|c s IH]; cbn [forallb hashHasMessageId]; [reflexivity|].
  intros H. apply andb_true_iff in H as (_ & H).
  rewrite (folderThenId_needs_slash _ H), (IH H).
  now rewrite andb_false_r.
Qed.

Lemma jsstring_eqb_eq : forall s t, JsString.eqb s t = true -> s = t.
Proof.
  induction s as [|c s IH]; intros [|d t]; cbn [JsString.eqb];
    try discriminate; [reflexivity|].
  intros H. apply andb_true_iff in H as (E & H).
  apply N.eqb_eq in E. subst d. f_equal. now apply IH.
Qed.

Lemma list_view_is_not_message hash :
  hashIsListView hash = true -> hashHasMessageId hash = false.
Proof.
  destruct hash as [|c rest]; [reflexivity|]. cbn [hashIsListView].
  intros H. apply andb_true_iff in H as (Ec & H).
  apply N.eqb_eq in Ec. subst c.
  apply orb_true_iff in H as [H|H].
  - apply existsb_exists in H as (name & Hin & E).
    apply jsstring_eqb_eq in E. subst name.
    cbn [listFolders map In] in Hin.
    repeat (destruct Hin as [<-|Hin]; [vm_compute; reflexivity|]).
    contradiction.
  - destruct (stripLit (lit "label/") rest) as [name|] eqn:E;
      [|discriminate].
    apply andb_true_iff in H as (Hne & Hall).
    apply stripLit_app in E. subst rest.
    cbn [hashHasMessageId].
    assert (F : folderThenId (lit "label/" ++ name) = false).
    { unfold folderThenId, stripLabel. cbv zeta.
      change (stripAny messageFolders (lit "label/" ++ name)) with
        (@None jsstring).
      change (stripLit (lit "label/") (lit "label/" ++ name)) with
        (Some name).
      cbv iota beta. rewrite (takeWhile_all _ _ Hall).
      destruct name as [|c name]; [discriminate|].
      now rewrite skipn_all. }
    rewrite F, andb_false_r. cbn [orb].
    change (lit "label/" ++ name) with
      (108 :: 97 :: 98 :: 101 :: 108 :: 47 :: name)%N.
    cbn [hashHasMessageId N.eqb Pos.eqb andb orb].
    now apply hashHasMessageId_needs_slash.
Qed.

(** X26. On a Gmail page whose address is a list view ([#inbox],
    [#starred], [#label/name], ...) the context is [inbox] with reason
    [url-list-view], whatever the page shows: such an address is never
    taken for the address of a message, and the message body and the rows
    of the page are not looked at. *)
Theorem list_view_address_means_inbox (page : GmailPage) :
  includes (lit "mail.google.com") (pg_hostname page) = true ->
  hashIsListView (pg_hash page) = true ->
  detectGmailContextContent page
  = {| cx_context := ctxInbox; cx_reason := lit "url-list-view" |}.
Proof.
  intros Hh Hl. unfold detectGmailContextContent.
  rewrite Hh, (list_view_is_not_message _ Hl), Hl. reflexivity.
Qed.

Lemma list_view_address_means_inbox_witness :
  detectGmailContextContent
    {| pg_hostname := lit "mail.google.com";
       pg_hash := lit "#label/Work#inbox";
       pg_messageBodyHeight := Some 640;
       pg_emailRows := 0 |}
  = {| cx_context := ctxInbox; cx_reason := lit "url-list-view" |}.
Proof.
  apply (@list_view_address_means_inbox
           {| pg_hostname := lit "mail.google.com";
              pg_hash := lit "#label/Work#inbox";
              pg_messageBodyHeight := Some 640;
              pg_emailRows := 0 |}); vm_compute; reflexivity.
Defined.
